(** * LifeFit backend: real-time connection registry and goal lifecycle

    A shallow embedding of
      - [backend/src/middleware/validation.js] (second half: the socket
        handler with its [activeConnections] registry, [sendToUser] and the
        periodic idle cleanup; first half: the Joi schemas of the goal
        routes),
      - [backend/src/models/Goal.js] (pre-save hook and instance methods),
      - [backend/src/routes/goals.js] (the goal routes),
    followed by the properties proved about them.

    Conventions.  The value of a JavaScript [Number] is a rational ([Q])
    and [Math.round] is [floor (x + 1/2)]; the document model computes with
    these values exactly, and [Float64] gives the quotient and the product
    as double-precision arithmetic rounds them, which is what the stored
    percentage is stated on.  A [Date] is the number of milliseconds since
    the epoch ([Z]); every handler receives the instant [now] at which it
    runs.  [undefined] is [None], and so is [null] wherever the code treats
    the two alike; where it does not ([progress.current] in the save hook,
    [timeframe.endDate] in [totalDurationDays]) [None] is [undefined]. *)

From Stdlib Require Import ZArith QArith Qround Qpower Lia Lqa SpecFloat.
From stdpp Require Import gmap strings list fin_maps sorting.

Set Warnings "-register-all".

Local Open Scope string_scope.
Local Open Scope Z_scope.

(** ** JavaScript values carried by events *)

Inductive Json : Type :=
  | JNull
  | JBool (b : bool)
  | JNum (n : Q)
  | JStr (s : string)
  | JDate (t : Z)
  | JArr (items : list Json)
  | JObj (fields : list (string * Json)).

(** [obj.key]; [undefined] is [None]. *)
Fixpoint get_field (key : string) (fields : list (string * Json)) : option Json :=
  match fields with
  | [] => None
  | (k, v) :: rest => if String.eqb k key then Some v else get_field key rest
  end.

(** [{...obj, key: v}]: an existing key keeps its position, a new one is
    added last. *)
Fixpoint set_field (key : string) (v : Json) (fields : list (string * Json))
  : list (string * Json) :=
  match fields with
  | [] => [(key, v)]
  | (k, w) :: rest =>
      if String.eqb k key then (k, v) :: rest else (k, w) :: set_field key v rest
  end.

(** JavaScript truthiness. *)
Definition truthy_string (s : string) : bool := negb (String.eqb s "").

Definition truthy_number (n : Q) : bool := negb (Qeq_bool n 0).

Definition truthy (v : option Json) : bool :=
  match v with
  | None | Some JNull => false
  | Some (JBool b) => b
  | Some (JNum n) => truthy_number n
  | Some (JStr s) => truthy_string s
  | Some (JDate _) | Some (JArr _) | Some (JObj _) => true
  end.

Definition truthy_note (note : option string) : bool :=
  match note with
  | Some s => truthy_string s
  | None => false
  end.

(** ** Numbers *)

(** [Math.round]: the nearest integer, halves going up. *)
Definition Math_round (x : Q) : Z := Qfloor (x + (1 # 2)).

(** Truncation towards zero, as used by the [%] operator. *)
Definition Qtrunc (x : Q) : Z := if Qle_bool 0 x then Qfloor x else Qceiling x.

(** [a % b]. *)
Definition js_rem (a b : Q) : Q := (a - b * inject_Z (Qtrunc (a / b)))%Q.

(** [Number.MAX_SAFE_INTEGER]: a Joi number is never beyond it. *)
Definition MAX_SAFE_INTEGER : Z := 9007199254740991.

(** ** Double-precision arithmetic

    The operators [/] and [*] and the functions [Math.round] and
    [Math.min] on IEEE 754 binary64 numbers: 53 significant bits, the
    smallest positive number [2^-1074], rounding to the nearest number
    with ties going to the even one, and an infinity when the rounded
    result reaches [2^1024]. The two zeros are not told apart. *)

Module Float64.

Local Open Scope Q_scope.

Inductive number :=
  | NaN
  | Infinity (negative : bool)
  | Finite (x : Q).

Definition pow2 (e : Z) : Q := 2 ^ e.

(** The binary exponent [e] of [x > 0]: [2^e <= x < 2^(e+1)]. *)
Definition exponent (x : Q) : Z :=
  let e := (Z.log2 (Qnum x) - Z.log2 (Zpos (Qden x)))%Z in
  if Qle_bool (pow2 e) x then e else (e - 1)%Z.

(** The exponent of the unit in the last place of the doubles next to
    [x > 0]. *)
Definition ulp_exponent (x : Q) : Z := Z.max (exponent x - 52) (-1074).

(** The nearest integer, a tie going to the even one. *)
Definition nearest_even (y : Q) : Z :=
  let f := Qfloor y in
  match Qcompare (y - inject_Z f) (1 # 2) with
  | Lt => f
  | Gt => (f + 1)%Z
  | Eq => if Z.even f then f else (f + 1)%Z
  end.

(** The multiple of the unit in the last place that is nearest to
    [x > 0]. *)
Definition round_positive (x : Q) : Q :=
  let q := ulp_exponent x in
  inject_Z (nearest_even (x / pow2 q)) * pow2 q.

(** The double that stands for the real number [x]: the result of an
    operation whose exact result is [x]. *)
Definition of_real (x : Q) : number :=
  match Qcompare x 0 with
  | Eq => Finite 0
  | Gt =>
      let r := round_positive x in
      if Qle_bool (pow2 1024) r then Infinity false else Finite (Qred r)
  | Lt =>
      let r := round_positive (- x) in
      if Qle_bool (pow2 1024) r then Infinity true else Finite (Qred (- r))
  end.

Definition is_negative (x : Q) : bool := negb (Qle_bool 0 x).

(** [a / b] *)
Definition div (a b : number) : number :=
  match a, b with
  | NaN, _ => NaN
  | _, NaN => NaN
  | Infinity _, Infinity _ => NaN
  | Infinity s, Finite y => Infinity (xorb s (is_negative y))
  | Finite _, Infinity _ => Finite 0
  | Finite x, Finite y =>
      if Qeq_bool y 0
      then if Qeq_bool x 0 then NaN else Infinity (is_negative x)
      else of_real (x / y)
  end.

(** [a * b] *)
Definition mul (a b : number) : number :=
  match a, b with
  | NaN, _ => NaN
  | _, NaN => NaN
  | Infinity s, Infinity s' => Infinity (xorb s s')
  | Infinity s, Finite y =>
      if Qeq_bool y 0 then NaN else Infinity (xorb s (is_negative y))
  | Finite x, Infinity s =>
      if Qeq_bool x 0 then NaN else Infinity (xorb s (is_negative x))
  | Finite x, Finite y => of_real (x * y)
  end.

(** [Math.round(a)]; the nearest integer of a double is a double. *)
Definition round (a : number) : number :=
  match a with
  | Finite x => Finite (inject_Z (Math_round x))
  | _ => a
  end.

(** [Math.min(a, b)] *)
Definition min (a b : number) : number :=
  match a, b with
  | NaN, _ => NaN
  | _, NaN => NaN
  | Infinity true, _ => Infinity true
  | _, Infinity true => Infinity true
  | Infinity false, _ => b
  | _, Infinity false => a
  | Finite x, Finite y => if Qle_bool x y then a else b
  end.

(** The value of a datum of [SpecFloat], the binary floating-point
    arithmetic of the standard library, and the binary64 datum nearest to
    [m * 2^e]. *)
Definition of_spec_float (f : spec_float) : number :=
  match f with
  | S754_zero _ => Finite 0
  | S754_infinity s => Infinity s
  | S754_nan => NaN
  | S754_finite s m e =>
      Finite (Qred ((if s then - inject_Z (Zpos m) else inject_Z (Zpos m))
                    * pow2 e))
  end.

Definition binary64 (m e : Z) : spec_float :=
  binary_normalize 53 1024 m e false.

End Float64.

(** ** models/Goal.js *)

Module Goal.

Inductive GoalType := type_target | type_habit | type_milestone.

Inductive Status := active | paused | completed | cancelled | failed.

Inductive Priority := low | medium | high | critical.

Definition Status_eqb (a b : Status) : bool :=
  match a, b with
  | active, active | paused, paused | completed, completed
  | cancelled, cancelled | failed, failed => true
  | _, _ => false
  end.

Definition Status_name (s : Status) : string :=
  match s with
  | active => "active"
  | paused => "paused"
  | completed => "completed"
  | cancelled => "cancelled"
  | failed => "failed"
  end.

Record Milestone := {
  value : Q;
  achievedAt : Z;
  note : option string
}.

(** [progress]; [current = None] is a [current] that is [undefined]. *)
Record Progress := {
  current : option Q;
  percentage : Q;
  lastUpdated : Z;
  milestones : list Milestone
}.

(** [target.value]; the other [target] fields (metric, unit, operator,
    rangeMax) are read by no transition. *)
Record Target := {
  target_value : option Q
}.

(** The document.  Fields that no modelled operation reads or writes
    (category, timeframe, reminders, rewards, tags, isPublic,
    description) are left out. *)
Record t := {
  _id : string;
  user : string;
  title : string;
  type : GoalType;
  target : Target;
  priority : Priority;
  status : Status;
  progress : Progress;
  completedAt : option Z;
  notes : option string
}.

Definition set_status (s : Status) (g : t) : t :=
  {| _id := _id g; user := user g; title := title g; type := type g;
     target := target g; priority := priority g; status := s;
     progress := progress g; completedAt := completedAt g;
     notes := notes g |}.

Definition set_completedAt (d : option Z) (g : t) : t :=
  {| _id := _id g; user := user g; title := title g; type := type g;
     target := target g; priority := priority g; status := status g;
     progress := progress g; completedAt := d; notes := notes g |}.

Definition set_notes (n : option string) (g : t) : t :=
  {| _id := _id g; user := user g; title := title g; type := type g;
     target := target g; priority := priority g; status := status g;
     progress := progress g; completedAt := completedAt g; notes := n |}.

Definition set_title (s : string) (g : t) : t :=
  {| _id := _id g; user := user g; title := s; type := type g;
     target := target g; priority := priority g; status := status g;
     progress := progress g; completedAt := completedAt g;
     notes := notes g |}.

Definition set_priority (p : Priority) (g : t) : t :=
  {| _id := _id g; user := user g; title := title g; type := type g;
     target := target g; priority := p; status := status g;
     progress := progress g; completedAt := completedAt g;
     notes := notes g |}.

Definition set_progress (p : Progress) (g : t) : t :=
  {| _id := _id g; user := user g; title := title g; type := type g;
     target := target g; priority := priority g; status := status g;
     progress := p; completedAt := completedAt g; notes := notes g |}.

Definition set_current (c : option Q) (p : Progress) : Progress :=
  {| current := c; percentage := percentage p;
     lastUpdated := lastUpdated p; milestones := milestones p |}.

Definition set_percentage (x : Q) (p : Progress) : Progress :=
  {| current := current p; percentage := x;
     lastUpdated := lastUpdated p; milestones := milestones p |}.

Definition set_lastUpdated (d : Z) (p : Progress) : Progress :=
  {| current := current p; percentage := percentage p;
     lastUpdated := d; milestones := milestones p |}.

Definition push_milestone (m : Milestone) (p : Progress) : Progress :=
  {| current := current p; percentage := percentage p;
     lastUpdated := lastUpdated p; milestones := milestones p ++ [m] |}.

(** [Math.min(Math.round((current / target.value) * 100), 100)], the
    quotient and the product taken exactly: the percentage the document
    model computes with. *)
Definition compute_percentage (cur tv : Q) : Q :=
  inject_Z (Z.min (Math_round (cur / tv * 100)) 100).

(** [(this.progress.current / this.target.value) * 100] as the engine
    evaluates it, in double precision. *)
Definition ratio64 (cur tv : Q) : Float64.number :=
  Float64.mul (Float64.div (Float64.Finite cur) (Float64.Finite tv))
    (Float64.Finite 100).

(** [Math.min(Math.round((this.progress.current / this.target.value) * 100),
    100)] in double precision: the number the engine computes for
    [this.progress.percentage]. *)
Definition percentage64 (cur tv : Q) : Float64.number :=
  Float64.min (Float64.round (ratio64 cur tv)) (Float64.Finite 100).

(** [goalSchema.pre('save', ...)] *)
Definition pre_save (now : Z) (g : t) : t :=
  let g1 :=
    match type g, target_value (target g), current (progress g) with
    | type_target, Some tv, Some cur =>
        if truthy_number tv then
          let g' :=
            set_progress
              (set_percentage (compute_percentage cur tv) (progress g)) g in
          if Qle_bool 100 (percentage (progress g'))
             && Status_eqb (status g') active
          then set_completedAt (Some now) (set_status completed g')
          else g'
        else g
    | _, _, _ => g
    end in
  set_progress (set_lastUpdated now (progress g1)) g1.

(** [this.save()], when the save is accepted: the pre-save hook runs, then
    the document is stored. Rejections by the database are outside the
    model. *)
Definition save (now : Z) (g : t) : t := pre_save now g.

(** [notes: { maxlength: [1000, ...] }] *)
Definition notes_valid (g : t) : bool :=
  match notes g with
  | Some s => (String.length s <=? 1000)%nat
  | None => true
  end.

(** The validators of the schema on the fields the model carries: a
    title of 1 to 100 characters, a target value that is not negative and
    that a goal of type target must have, a percentage between 0 and 100,
    notes of at most 1000 characters. *)
Definition valid (g : t) : bool :=
  truthy_string (title g) && (String.length (title g) <=? 100)%nat
  && match target_value (target g), type g with
     | Some tv, _ => Qle_bool 0 tv
     | None, type_target => false
     | None, _ => true
     end
  && Qle_bool 0 (percentage (progress g))
  && Qle_bool (percentage (progress g)) 100
  && notes_valid g.

(** [save()] validates the document before it runs the hook and rejects
    with a [ValidationError] when a validator fails. On a goal that was
    valid as stored, the assignments of [complete(text)] and [pause(text)]
    can break one validator only, the [maxlength] of [notes], and only
    when [text] is truthy, so that [notes] is assigned; the assignments of
    [resume()] and [updateProgress()] can break none. [saved] is the
    document the method saves; the hook leaves its [notes] alone. *)
Definition save_rejected (text : option string) (saved : t) : bool :=
  truthy_note text && negb (notes_valid saved).

(** [goalSchema.methods.updateProgress(newValue, note = null)] *)
Definition updateProgress (newValue : Q) (note : option string) (now : Z)
    (g : t) : t :=
  let p := set_lastUpdated now (set_current (Some newValue) (progress g)) in
  let p' :=
    if truthy_note note || Qeq_bool (js_rem newValue 10) 0
    then push_milestone
           {| value := newValue; achievedAt := now; note := note |} p
    else p in
  save now (set_progress p' g).

Definition newline : string := String (Ascii.ascii_of_nat 10) EmptyString.

(** [this.notes ? `${this.notes}\n\n<label>${text}` : `<label>${text}`] *)
Definition append_note (label : string) (old : option string) (text : string)
  : string :=
  match old with
  | Some s =>
      if truthy_string s
      then s ++ newline ++ newline ++ label ++ text
      else label ++ text
  | None => label ++ text
  end.

(** [goalSchema.methods.complete(note = null)] *)
Definition complete (note : option string) (now : Z) (g : t) : t :=
  let g1 := set_completedAt (Some now) (set_status completed g) in
  let g2 := set_progress (set_percentage 100 (progress g1)) g1 in
  let g3 :=
    match note with
    | Some n =>
        if truthy_string n
        then set_notes (Some (append_note "Completed: " (notes g2) n)) g2
        else g2
    | None => g2
    end in
  save now g3.

(** [goalSchema.methods.pause(reason = null)] *)
Definition pause (reason : option string) (now : Z) (g : t) : t :=
  let g1 := set_status paused g in
  let g2 :=
    match reason with
    | Some r =>
        if truthy_string r
        then set_notes (Some (append_note "Paused: " (notes g1) r)) g1
        else g1
    | None => g1
    end in
  save now g2.

(** [goalSchema.methods.resume()] *)
Definition resume (now : Z) (g : t) : t := save now (set_status active g).

End Goal.

(** ** The socket handler (middleware/validation.js, second half) *)

Module SocketHandler.

(** A socket admitted by [authenticateSocket]: [socket.id],
    [socket.userId] and [socket.user] are set. *)
Record Socket := {
  id : string;
  userId : string;
  socket_user : Json
}.

(** A value of the [activeConnections] map.  [lastActivity] and [status]
    are absent until a [presence:update] adds them. *)
Record Connection := {
  socketId : string;
  socket : Socket;
  connectedAt : Z;
  user : Json;
  lastActivity : option Z;
  status : option Json
}.

(** One event handed to one socket. *)
Record Delivery := {
  recipient : string;
  event : string;
  payload : Json
}.

(** The process state: the module-level [activeConnections] map, the
    open sockets (each one joined to the room [user:<userId>] for as long
    as it is open) and, in order, what has been emitted to whom. *)
Record Server := {
  activeConnections : gmap string Connection;
  open_sockets : list Socket;
  outbox : list Delivery
}.

Definition empty_server : Server :=
  {| activeConnections := ∅; open_sockets := []; outbox := [] |}.

Definition set_connections (m : gmap string Connection) (st : Server)
  : Server :=
  {| activeConnections := m; open_sockets := open_sockets st;
     outbox := outbox st |}.

Definition set_open_sockets (l : list Socket) (st : Server) : Server :=
  {| activeConnections := activeConnections st; open_sockets := l;
     outbox := outbox st |}.

Definition emit_all (ds : list Delivery) (st : Server) : Server :=
  {| activeConnections := activeConnections st;
     open_sockets := open_sockets st; outbox := outbox st ++ ds |}.

(** The members of the room [user:<u>]. *)
Definition room (u : string) (st : Server) : list Socket :=
  filter (λ s, userId s = u) (open_sockets st).

(** [socket.emit(ev, data)] *)
Definition socket_emit (s : Socket) (ev : string) (data : Json)
    (st : Server) : Server :=
  emit_all [ {| recipient := id s; event := ev; payload := data |} ] st.

(** [socket.to(`user:${userId}`).emit(ev, data)]: every member of the
    sender's room except the sender. *)
Definition socket_to_room_emit (s : Socket) (ev : string) (data : Json)
    (st : Server) : Server :=
  emit_all
    ((λ r, {| recipient := id r; event := ev; payload := data |})
       <$> filter (λ r, id r ≠ id s) (room (userId s) st))
    st.

(** [io.on('connection', ...)]: the body run once per admitted socket. *)
Definition on_connection (s : Socket) (now : Z) (st : Server) : Server :=
  let conn :=
    {| socketId := id s; socket := s; connectedAt := now;
       user := socket_user s; lastActivity := None; status := None |} in
  let st1 := set_connections (<[userId s := conn]> (activeConnections st)) st in
  let st2 := set_open_sockets (open_sockets st1 ++ [s]) st1 in
  socket_emit s "connected"
    (JObj [("message", JStr "Connected to LifeFit real-time server");
           ("userId", JStr (userId s));
           ("timestamp", JDate now)])
    st2.

(** The inbound frames a socket has a handler for, with their [data]
    object. *)
Inductive Frame :=
  | health_data_update (data : list (string * Json))
  | goal_progress (data : list (string * Json))
  | workout_start (data : list (string * Json))
  | workout_update (data : list (string * Json))
  | workout_complete (data : list (string * Json))
  | notification_read (data : list (string * Json))
  | typing_start (data : list (string * Json))
  | typing_stop (data : list (string * Json))
  | sync_request (data : list (string * Json))
  | sync_response (data : list (string * Json))
  | presence_update (data : list (string * Json))
  | custom_event (data : list (string * Json)).

Definition field_or_null (key : string) (data : list (string * Json)) : Json :=
  default JNull (get_field key data).

(** [{...data, <who>: socket.id, timestamp: ...}] *)
Definition stamped (data : list (string * Json)) (who : string) (s : Socket)
    (now : Z) : Json :=
  JObj (set_field "timestamp" (JDate now) (set_field who (JStr (id s)) data)).

(** The [presence:update] handler's write to the registry. *)
Definition touch (data : list (string * Json)) (now : Z) (c : Connection)
  : Connection :=
  {| socketId := socketId c; socket := socket c;
     connectedAt := connectedAt c; user := user c;
     lastActivity := Some now;
     status :=
       Some (if truthy (get_field "status" data)
             then field_or_null "status" data
             else JStr "active") |}.

(** [socket.on(<frame>, ...)] for the twelve data frames. *)
Definition on_message (s : Socket) (f : Frame) (now : Z) (st : Server)
  : Server :=
  let u := userId s in
  match f with
  | health_data_update data =>
      socket_to_room_emit s "health-data:updated"
        (stamped data "updatedBy" s now) st
  | goal_progress data =>
      let st1 :=
        socket_to_room_emit s "goal:progress-updated"
          (stamped data "updatedBy" s now) st in
      if truthy (get_field "completed" data)
      then socket_emit s "goal:completed"
             (JObj [("goalId", field_or_null "goalId" data);
                    ("title", field_or_null "title" data);
                    ("completedAt", JDate now);
                    ("celebration", JBool true)])
             st1
      else st1
  | workout_start data =>
      socket_to_room_emit s "workout:started"
        (stamped data "startedBy" s now) st
  | workout_update data =>
      socket_to_room_emit s "workout:updated"
        (stamped data "updatedBy" s now) st
  | workout_complete data =>
      let st1 :=
        socket_to_room_emit s "workout:completed"
          (stamped data "completedBy" s now) st in
      socket_emit s "workout:celebration"
        (JObj [("workoutId", field_or_null "workoutId" data);
               ("duration", field_or_null "duration" data);
               ("caloriesBurned", field_or_null "caloriesBurned" data);
               ("completedAt", JDate now)])
        st1
  | notification_read data =>
      socket_to_room_emit s "notification:marked-read"
        (JObj [("notificationId", field_or_null "notificationId" data);
               ("readBy", JStr (id s));
               ("timestamp", JDate now)])
        st
  | typing_start data =>
      socket_to_room_emit s "typing:user-started"
        (JObj [("userId", JStr u);
               ("context", field_or_null "context" data);
               ("timestamp", JDate now)])
        st
  | typing_stop data =>
      socket_to_room_emit s "typing:user-stopped"
        (JObj [("userId", JStr u);
               ("context", field_or_null "context" data);
               ("timestamp", JDate now)])
        st
  | sync_request data =>
      socket_to_room_emit s "sync:requested"
        (JObj [("requestedBy", JStr (id s));
               ("dataTypes", field_or_null "dataTypes" data);
               ("timestamp", JDate now)])
        st
  | sync_response data =>
      socket_to_room_emit s "sync:data"
        (stamped data "respondedBy" s now) st
  | presence_update data =>
      let st1 :=
        match activeConnections st !! u with
        | Some connection =>
            set_connections
              (<[u := touch data now connection]> (activeConnections st)) st
        | None => st
        end in
      socket_to_room_emit s "presence:updated"
        (JObj [("userId", JStr u);
               ("status", field_or_null "status" data);
               ("lastActivity", JDate now)])
        st1
  | custom_event data =>
      if truthy (get_field "type" data) && truthy (get_field "payload" data)
      then socket_to_room_emit s "custom:event"
             (JObj [("type", field_or_null "type" data);
                    ("payload", field_or_null "payload" data);
                    ("from", JStr (id s));
                    ("timestamp", JDate now)])
             st
      else st
  end.

(** [socket.on('disconnect', ...)].  The socket has left its room by the
    time the handler runs. *)
Definition on_disconnect (s : Socket) (reason : string) (now : Z)
    (st : Server) : Server :=
  let st0 :=
    set_open_sockets (filter (λ r, id r ≠ id s) (open_sockets st)) st in
  let st1 :=
    set_connections (delete (userId s) (activeConnections st0)) st0 in
  socket_to_room_emit s "device:disconnected"
    (JObj [("socketId", JStr (id s));
           ("reason", JStr reason);
           ("timestamp", JDate now)])
    st1.

(** [30 * 60 * 1000] and [5 * 60 * 1000] *)
Definition inactiveThreshold : Z := 30 * 60 * 1000.
Definition cleanupInterval : Z := 5 * 60 * 1000.

(** [connection.lastActivity || connection.connectedAt] *)
Definition last_recorded_activity (c : Connection) : Z :=
  default (connectedAt c) (lastActivity c).

(** [now - lastActivity > inactiveThreshold] *)
Definition inactive (now : Z) (c : Connection) : bool :=
  inactiveThreshold <? now - last_recorded_activity c.

(** One iteration of the cleanup loop.  [socket.disconnect(true)] closes
    the socket, which runs its [disconnect] handler. *)
Definition cleanup_entry (now : Z) (st : Server)
    (entry : string * Connection) : Server :=
  let '(userId, connection) := entry in
  if inactive now connection then
    let st1 :=
      on_disconnect (socket connection) "server namespace disconnect" now st in
    set_connections (delete userId (activeConnections st1)) st1
  else st.

(** The callback given to [setInterval]: one sweep over the entries the
    map holds when the sweep starts. *)
Definition cleanup (now : Z) (st : Server) : Server :=
  foldl (cleanup_entry now) st (map_to_list (activeConnections st)).

(** [setInterval(<callback>, cleanupInterval)], armed at [t0]: the
    instants at which the timer calls the callback, the first one a full
    interval after [t0]. *)
Definition sweep_time (t0 : Z) (n : nat) : Z :=
  t0 + (Z.of_nat n + 1) * cleanupInterval.

(** [sendToUser(userId, event, data)] *)
Definition sendToUser (userId : string) (ev : string)
    (data : list (string * Json)) (now : Z) (st : Server) : Server * bool :=
  match activeConnections st !! userId with
  | Some connection =>
      (socket_emit (socket connection) ev
         (JObj (set_field "timestamp" (JDate now) data)) st,
       true)
  | None => (st, false)
  end.

(** [sendToAllUsers(event, data)] *)
Definition sendToAllUsers (ev : string) (data : list (string * Json))
    (now : Z) (st : Server) : Server :=
  foldl
    (λ acc entry,
       socket_emit (socket (snd entry)) ev
         (JObj (set_field "timestamp" (JDate now) data)) acc)
    st (map_to_list (activeConnections st)).

(** [getActiveUsers()] *)
Definition getActiveUsers (st : Server) : list string :=
  (map_to_list (activeConnections st)).*1.

(** [getUserConnection(userId)] *)
Definition getUserConnection (userId : string) (st : Server)
  : option Connection :=
  activeConnections st !! userId.

(** What the process can do to the state. *)
Inductive Action :=
  | Connect (s : Socket)
  | Receive (s : Socket) (f : Frame)
  | Disconnect (s : Socket) (reason : string)
  | Sweep
  | Send (userId ev : string) (data : list (string * Json))
  | Broadcast (ev : string) (data : list (string * Json)).

Definition run (a : Action) (now : Z) (st : Server) : Server :=
  match a with
  | Connect s => on_connection s now st
  | Receive s f => on_message s f now st
  | Disconnect s reason => on_disconnect s reason now st
  | Sweep => cleanup now st
  | Send u ev data => fst (sendToUser u ev data now st)
  | Broadcast ev data => sendToAllUsers ev data now st
  end.

(** The [n]-th sweep of the timer armed at [t0]. *)
Definition interval_sweep (t0 : Z) (n : nat) (st : Server) : Server :=
  run Sweep (sweep_time t0 n) st.

(** An action is possible when a connecting socket has a fresh id and a
    frame or a disconnect comes from an open socket. *)
Definition enabled (a : Action) (st : Server) : Prop :=
  match a with
  | Connect s => id s ∉ id <$> open_sockets st
  | Receive s _ | Disconnect s _ => s ∈ open_sockets st
  | Sweep | Send _ _ _ | Broadcast _ _ => True
  end.

Inductive reachable : Server → Prop :=
  | reachable_init : reachable empty_server
  | reachable_step a now st :
      reachable st → enabled a st → reachable (run a now st).

(** The events handed out between two states. *)
Definition delivered (before after : Server) : list Delivery :=
  drop (length (outbox before)) (outbox after).

End SocketHandler.

(** ** routes/goals.js, with the goal schemas of middleware/validation.js *)

Module GoalRoutes.

Import SocketHandler.

(** [res.json({success: true, ..., data: goal})] or
    [res.status(code).json({success: false, error})]. *)
Inductive Response :=
  | Success (data : Goal.t)
  | Failure (code : Z) (error : string).

(** The body of [PUT /:id/progress]. *)
Record ProgressBody := {
  body_value : option Q;
  body_note : option string
}.

(** [goalSchemas.updateProgress]: [value] is a required number [>= 0],
    and a Joi number is never beyond [Number.MAX_SAFE_INTEGER]; [note],
    when present, is a string of at most 200 characters, and a Joi string
    is never empty. *)
Definition updateProgress_schema (b : ProgressBody) : bool :=
  match body_value b with
  | Some v => Qle_bool 0 v && Qle_bool v (inject_Z MAX_SAFE_INTEGER)
  | None => false
  end
  && match body_note b with
     | Some s => truthy_string s && (String.length s <=? 200)%nat
     | None => true
     end.

(** The body of [PUT /:id] once [goalSchemas.update] has accepted it.
    [title], [description], [reminders], [tags] and [isPublic] are copied
    into the document in the same way and are left out. *)
Record UpdateBody := {
  body_priority : option Goal.Priority;
  body_status : option Goal.Status;
  body_notes : option string
}.

(** [goalSchemas.update]: [status] and [priority] are one of their enum
    values, [notes] a non-empty string of at most 1000 characters. *)
Definition update_schema (b : UpdateBody) : bool :=
  match body_notes b with
  | Some s => truthy_string s && (String.length s <=? 1000)%nat
  | None => true
  end.

Definition json_of_option_string (o : option string) : Json :=
  match o with Some s => JStr s | None => JNull end.

Definition json_of_option_date (o : option Z) : Json :=
  match o with Some d => JDate d | None => JNull end.

Definition json_of_milestone (m : Goal.Milestone) : Json :=
  JObj [("value", JNum (Goal.value m));
        ("achievedAt", JDate (Goal.achievedAt m));
        ("note", json_of_option_string (Goal.note m))].

Definition json_of_progress (p : Goal.Progress) : Json :=
  JObj [("current",
         match Goal.current p with Some c => JNum c | None => JNull end);
        ("percentage", JNum (Goal.percentage p));
        ("lastUpdated", JDate (Goal.lastUpdated p));
        ("milestones", JArr (json_of_milestone <$> Goal.milestones p))].

Definition is_completed (g : Goal.t) : bool :=
  Goal.Status_eqb (Goal.status g) Goal.completed.

(** [Goal.findByIdAndUpdate(id, req.body, {new: true, ...})]: the fields
    present in the body are set; no save hook runs. *)
Definition findByIdAndUpdate (b : UpdateBody) (g : Goal.t) : Goal.t :=
  let g1 := match body_priority b with
            | Some p => Goal.set_priority p g
            | None => g
            end in
  let g2 := match body_status b with
            | Some s => Goal.set_status s g1
            | None => g1
            end in
  match body_notes b with
  | Some n => Goal.set_notes (Some n) g2
  | None => g2
  end.

(** [PUT /:id] — [userId] is [req.user._id.toString()], [goal] the
    document found by [checkOwnership]. *)
Definition put_update (userId : string) (body : UpdateBody) (now : Z)
    (st : Server) (goal : Goal.t) : Server * Goal.t * Response :=
  if update_schema body then
    let goal' := findByIdAndUpdate body goal in
    let st1 :=
      fst (sendToUser userId "goal:updated"
             [("id", JStr (Goal._id goal'));
              ("title", JStr (Goal.title goal'));
              ("status", JStr (Goal.Status_name (Goal.status goal')));
              ("progress", json_of_progress (Goal.progress goal'))]
             now st) in
    (st1, goal', Success goal')
  else (st, goal, Failure 400 "Validation failed").

(** [PUT /:id/progress] *)
Definition put_progress (userId : string) (body : ProgressBody) (now : Z)
    (st : Server) (goal : Goal.t) : Server * Goal.t * Response :=
  match updateProgress_schema body, body_value body with
  | true, Some value =>
      let goal' := Goal.updateProgress value (body_note body) now goal in
      let st1 :=
        fst (sendToUser userId "goal:progress-updated"
               [("id", JStr (Goal._id goal'));
                ("title", JStr (Goal.title goal'));
                ("progress", json_of_progress (Goal.progress goal'));
                ("completed", JBool (is_completed goal'))]
               now st) in
      let st2 :=
        if is_completed goal' then
          fst (sendToUser userId "goal:completed"
                 [("id", JStr (Goal._id goal'));
                  ("title", JStr (Goal.title goal'));
                  ("completedAt",
                   json_of_option_date (Goal.completedAt goal'));
                  ("celebration", JBool true)]
                 now st1)
        else st1 in
      (st2, goal', Success goal')
  | _, _ => (st, goal, Failure 400 "Validation failed")
  end.

(** [PUT /:id/complete]. A save that is rejected throws; the error
    handler answers a [ValidationError] with 400, and neither the stored
    goal nor the sockets have been touched. *)
Definition put_complete (userId : string) (note : option string) (now : Z)
    (st : Server) (goal : Goal.t) : Server * Goal.t * Response :=
  if is_completed goal then
    (st, goal, Failure 400 "Goal is already completed")
  else
    let goal' := Goal.complete note now goal in
    if Goal.save_rejected note goal' then
      (st, goal, Failure 400 "Validation Error")
    else
    let st1 :=
      fst (sendToUser userId "goal:completed"
             [("id", JStr (Goal._id goal'));
              ("title", JStr (Goal.title goal'));
              ("completedAt", json_of_option_date (Goal.completedAt goal'));
              ("celebration", JBool true)]
             now st) in
    (st1, goal', Success goal').

(** [PUT /:id/pause] *)
Definition put_pause (userId : string) (reason : option string) (now : Z)
    (st : Server) (goal : Goal.t) : Server * Goal.t * Response :=
  if negb (Goal.Status_eqb (Goal.status goal) Goal.active) then
    (st, goal, Failure 400 "Only active goals can be paused")
  else
    let goal' := Goal.pause reason now goal in
    if Goal.save_rejected reason goal' then
      (st, goal, Failure 400 "Validation Error")
    else
    let st1 :=
      fst (sendToUser userId "goal:paused"
             [("id", JStr (Goal._id goal'));
              ("title", JStr (Goal.title goal'));
              ("reason", json_of_option_string reason)]
             now st) in
    (st1, goal', Success goal').

(** [PUT /:id/resume] *)
Definition put_resume (userId : string) (now : Z)
    (st : Server) (goal : Goal.t) : Server * Goal.t * Response :=
  if negb (Goal.Status_eqb (Goal.status goal) Goal.paused) then
    (st, goal, Failure 400 "Only paused goals can be resumed")
  else
    let goal' := Goal.resume now goal in
    let st1 :=
      fst (sendToUser userId "goal:resumed"
             [("id", JStr (Goal._id goal'));
              ("title", JStr (Goal.title goal'))]
             now st) in
    (st1, goal', Success goal').

(** The requests that act on one stored goal. *)
Inductive Request :=
  | PutUpdate (body : UpdateBody)
  | PutProgress (body : ProgressBody)
  | PutComplete (note : option string)
  | PutPause (reason : option string)
  | PutResume.

(** What the handler of the route does once [protect] and
    [checkOwnership] have let the request through: [goal] is the document
    [checkOwnership] has found. *)
Definition handle (userId : string) (r : Request) (now : Z)
    (st : Server) (goal : Goal.t) : Server * Goal.t * Response :=
  match r with
  | PutUpdate body => put_update userId body now st goal
  | PutProgress body => put_progress userId body now st goal
  | PutComplete note => put_complete userId note now st goal
  | PutPause reason => put_pause userId reason now st goal
  | PutResume => put_resume userId now st goal
  end.

(** A sequence of requests, each with the instant at which it is served;
    the responses are dropped. *)
Fixpoint serve (userId : string) (rs : list (Request * Z))
    (st : Server) (goal : Goal.t) : Server * Goal.t :=
  match rs with
  | [] => (st, goal)
  | (r, now) :: rest =>
      let '(st', goal', _) := handle userId r now st goal in
      serve userId rest st' goal'
  end.

(** The requests that go through the goal's own transition methods. *)
Definition is_transition (r : Request) : bool :=
  match r with
  | PutUpdate _ => false
  | _ => true
  end.

End GoalRoutes.

(** ** The specification's formulas *)



(** ** The stored goals: virtuals and statics of models/Goal.js, list
    routes of routes/goals.js *)

Module GoalQueries.

Inductive TimeframeType := daily | weekly | monthly | yearly | custom | ongoing.

Definition is_ongoing (t : TimeframeType) : bool :=
  match t with
  | ongoing => true
  | _ => false
  end.

(** [timeframe]; [duration] is read by nothing. *)
Record Timeframe := {
  timeframe_type : TimeframeType;
  startDate : Z;
  endDate : option Z
}.

(** A stored goal: the document together with the fields that only the
    queries read. *)
Record Doc := {
  goal : Goal.t;
  category : string;
  timeframe : Timeframe;
  createdAt : Z
}.

(** [1000 * 60 * 60 * 24] *)
Definition msPerDay : Z := 1000 * 60 * 60 * 24.

(** [Math.ceil] *)
Definition Math_ceil (x : Q) : Z := Qceiling x.

(** [goalSchema.virtual('daysRemaining')]; [null] is [None]. *)
Definition daysRemaining (now : Z) (d : Doc) : option Z :=
  if is_ongoing (timeframe_type (timeframe d)) then None
  else
    match endDate (timeframe d) with
    | None => None
    | Some e =>
        let diffTime := e - now in
        let diffDays := Math_ceil (inject_Z diffTime / inject_Z msPerDay) in
        Some (if 0 <? diffDays then diffDays else 0)
    end.

(** A number that may be [NaN]. *)
Inductive JsNumber :=
  | Num (n : Z)
  | NaN.

(** [goalSchema.virtual('totalDurationDays')]; with an end date that is
    [undefined] the difference of the dates is [NaN]. *)
Definition totalDurationDays (d : Doc) : option JsNumber :=
  if is_ongoing (timeframe_type (timeframe d)) then None
  else
    match endDate (timeframe d) with
    | None => Some NaN
    | Some e =>
        let diffTime := e - startDate (timeframe d) in
        Some (Num (Math_ceil (inject_Z diffTime / inject_Z msPerDay)))
    end.

(** [goalSchema.virtual('isOverdue')], as a truth value. *)
Definition isOverdue (now : Z) (d : Doc) : bool :=
  if Goal.Status_eqb (Goal.status (goal d)) Goal.completed
     || is_ongoing (timeframe_type (timeframe d))
  then false
  else
    match endDate (timeframe d) with
    | None => false
    | Some e => e <? now
    end.

Definition Priority_name (p : Goal.Priority) : string :=
  match p with
  | Goal.low => "low"
  | Goal.medium => "medium"
  | Goal.high => "high"
  | Goal.critical => "critical"
  end.

Definition owned_by (userId : string) (d : Doc) : bool :=
  String.eqb (Goal.user (goal d)) userId.

Definition has_status (s : Goal.Status) (d : Doc) : bool :=
  Goal.Status_eqb (Goal.status (goal d)) s.

(** The order of [sort({priority: -1, createdAt: -1})]: [priority] is
    stored as a string and strings are compared character by character,
    the greater one first; equal priorities are ordered by [createdAt],
    the later one first. *)
Definition by_priority_then_newest (a b : Doc) : bool :=
  match String.compare (Priority_name (Goal.priority (goal a)))
                       (Priority_name (Goal.priority (goal b))) with
  | Gt => true
  | Lt => false
  | Eq => createdAt b <=? createdAt a
  end.

(** The order of [sort({createdAt: -1})]. *)
Definition newest_first (a b : Doc) : bool := createdAt b <=? createdAt a.

(** The order of [sort({'timeframe.endDate': 1})]; a missing date comes
    first. *)
Definition by_end_date (a b : Doc) : bool :=
  match endDate (timeframe a), endDate (timeframe b) with
  | None, _ => true
  | Some _, None => false
  | Some x, Some y => x <=? y
  end.

(** [find(...).sort(...)]: the matching documents in the order asked
    for. Documents that the order does not tell apart come in an order the
    database chooses; here a merge sort decides. *)
Definition find_sorted (query : Doc → bool) (order : Doc → Doc → bool)
    (collection : list Doc) : list Doc :=
  merge_sort (λ a b, Is_true (order a b))
    (filter (λ d, Is_true (query d)) collection).

(** [goalSchema.statics.getActiveGoals(userId)] *)
Definition getActiveGoals (userId : string) (collection : list Doc)
  : list Doc :=
  find_sorted (λ d, owned_by userId d && has_status Goal.active d)
    by_priority_then_newest collection.

(** [goalSchema.statics.getGoalsByCategory(userId, category)] *)
Definition getGoalsByCategory (userId cat : string) (collection : list Doc)
  : list Doc :=
  find_sorted (λ d, owned_by userId d && String.eqb (category d) cat)
    newest_first collection.

(** The filter of [GET /overdue/list]. *)
Definition overdue_query (userId : string) (now : Z) (d : Doc) : bool :=
  owned_by userId d
  && (has_status Goal.active d || has_status Goal.paused d)
  && match endDate (timeframe d) with
     | Some e => e <? now
     | None => false
     end
  && negb (is_ongoing (timeframe_type (timeframe d))).

(** [GET /overdue/list]: the [data] of the answer. *)
Definition overdue_list (userId : string) (now : Z) (collection : list Doc)
  : list Doc :=
  find_sorted (overdue_query userId now) by_end_date collection.

(** The filter of [GET /due-soon/list]. *)
Definition due_soon_query (userId : string) (now : Z) (d : Doc) : bool :=
  let sevenDaysFromNow := now + 7 * 24 * 60 * 60 * 1000 in
  owned_by userId d
  && has_status Goal.active d
  && match endDate (timeframe d) with
     | Some e => (now <=? e) && (e <=? sevenDaysFromNow)
     | None => false
     end.

(** [GET /due-soon/list]: the [data] of the answer. *)
Definition due_soon_list (userId : string) (now : Z) (collection : list Doc)
  : list Doc :=
  find_sorted (due_soon_query userId now) by_end_date collection.

(** *** [GET /] *)

Definition is_integer (n : Q) : bool := Qeq_bool n (inject_Z (Qfloor n)).

(** One key of [querySchemas.pagination] that holds an integer between
    [lo] and [hi] and has a default. *)
Definition integer_key (key : string) (lo hi dflt : Z)
    (q : list (string * Json)) : option Z :=
  match get_field key q with
  | None => Some dflt
  | Some (JNum n) =>
      if is_integer n && (lo <=? Qfloor n) && (Qfloor n <=? hi)
      then Some (Qfloor n)
      else None
  | Some _ => None
  end.

(** One key that holds a non-empty string, with an optional default. *)
Definition string_key (key : string) (dflt : option string)
    (q : list (string * Json)) : option (option string) :=
  match get_field key q with
  | None => Some dflt
  | Some (JStr s) => if truthy_string s then Some (Some s) else None
  | Some _ => None
  end.

(** [validate(querySchemas.pagination, 'query')]: the query object that
    replaces [req.query], or [None] when the answer is 400. The options
    are [stripUnknown: true], so keys the schema does not name are dropped,
    and [convert: true]; numbers in the query are taken as already
    converted from their text. *)
Definition pagination_schema (q : list (string * Json))
  : option (list (string * Json)) :=
  match integer_key "page" 1 MAX_SAFE_INTEGER 1 q,
        integer_key "limit" 1 100 10 q,
        string_key "sort" (Some "-createdAt") q,
        string_key "fields" None q with
  | Some page, Some limit, Some (Some sort), Some fields =>
      Some ([("page", JNum (inject_Z page));
             ("limit", JNum (inject_Z limit));
             ("sort", JStr sort)]
            ++ match fields with
               | Some f => [("fields", JStr f)]
               | None => []
               end)%list
  | _, _, _, _ => None
  end.

(** [summary]: the number of the user's goals in each status, and
    [total]. *)
Record Summary := {
  summary_total : nat;
  summary_active : nat;
  summary_completed : nat;
  summary_paused : nat;
  summary_cancelled : nat;
  summary_failed : nat
}.

Record ListResponse := {
  count : nat;
  pagination_page : Z;
  pagination_limit : Z;
  pagination_total : nat;
  pagination_pages : Z;
  summary : Summary;
  data : list Doc
}.

Definition count_where (query : Doc → bool) (collection : list Doc) : nat :=
  length (filter (λ d, Is_true (query d)) collection).

(** [if (key) query[key] = key], for a key of [req.query] that is compared
    with the text [name d] of the stored goal. *)
Definition optional_filter (key : string) (name : Doc → string)
    (q : list (string * Json)) (d : Doc) : bool :=
  if truthy (get_field key q)
  then match get_field key q with
       | Some (JStr s) => String.eqb (name d) s
       | _ => false
       end
  else true.

Section ListRoute.

(** [.sort(sort)] for a sort string given by the client: some
    rearrangement of the documents. *)
Variable sort_by : string → list Doc → list Doc.

(** [GET /], after [protect]; [None] stands for the 400 of the validator. *)
Definition list_goals (userId : string) (rawQuery : list (string * Json))
    (collection : list Doc) : option ListResponse :=
  match pagination_schema rawQuery with
  | None => None
  | Some query =>
      match get_field "page" query, get_field "limit" query,
            get_field "sort" query with
      | Some (JNum page), Some (JNum limit), Some (JStr sort) =>
          let page := Qfloor page in
          let limit := Qfloor limit in
          let skip := (page - 1) * limit in
          let matching d :=
            owned_by userId d
            && optional_filter "status"
                 (λ d, Goal.Status_name (Goal.status (goal d))) query d
            && optional_filter "category" category query d
            && optional_filter "priority"
                 (λ d, Priority_name (Goal.priority (goal d))) query d in
          let goals :=
            take (Z.to_nat limit)
              (drop (Z.to_nat skip)
                 (sort_by sort (filter (λ d, Is_true (matching d)) collection))) in
          let total := count_where matching collection in
          Some {| count := length goals;
                  pagination_page := page;
                  pagination_limit := limit;
                  pagination_total := total;
                  pagination_pages :=
                    Math_ceil (inject_Z (Z.of_nat total) / inject_Z limit);
                  summary :=
                    {| summary_total := total;
                       summary_active :=
                         count_where (λ d, owned_by userId d
                                           && has_status Goal.active d)
                           collection;
                       summary_completed :=
                         count_where (λ d, owned_by userId d
                                           && has_status Goal.completed d)
                           collection;
                       summary_paused :=
                         count_where (λ d, owned_by userId d
                                           && has_status Goal.paused d)
                           collection;
                       summary_cancelled :=
                         count_where (λ d, owned_by userId d
                                           && has_status Goal.cancelled d)
                           collection;
                       summary_failed :=
                         count_where (λ d, owned_by userId d
                                           && has_status Goal.failed d)
                           collection |};
                  data := goals |}
      | _, _, _ => None
      end
  end.

End ListRoute.

(** *** [GET /analytics/summary] *)

(** The start of the period; [period] defaults to ['month'], and so does
    every text that is none of the four names. *)
Definition period_start (period : option string) (now : Z) : Z :=
  let day := 24 * 60 * 60 * 1000 in
  match period with
  | None => now - 30 * day
  | Some p =>
      if String.eqb p "week" then now - 7 * day
      else if String.eqb p "month" then now - 30 * day
      else if String.eqb p "quarter" then now - 90 * day
      else if String.eqb p "year" then now - 365 * day
      else now - 30 * day
  end.

(** The counters of [summary] in the answer; the sets of categories and
    priorities, the trends and the breakdown are left out. *)
Record Analytics := {
  totalGoals : nat;
  completedGoals : nat;
  activeGoals : nat;
  pausedGoals : nat;
  completionRate : Z
}.

Definition analytics_summary (userId : string) (period : option string)
    (now : Z) (collection : list Doc) : Analytics :=
  let startDate := period_start period now in
  let in_period d := owned_by userId d && (startDate <=? createdAt d) in
  let total := count_where in_period collection in
  let completed :=
    count_where (λ d, in_period d && has_status Goal.completed d) collection in
  {| totalGoals := total;
     completedGoals := completed;
     activeGoals :=
       count_where (λ d, in_period d && has_status Goal.active d) collection;
     pausedGoals :=
       count_where (λ d, in_period d && has_status Goal.paused d) collection;
     completionRate :=
       if (0 <? total)%nat
       then Math_round (inject_Z (Z.of_nat completed)
                        / inject_Z (Z.of_nat total) * 100)
       else 0 |}.

End GoalQueries.

(** * Properties *)

(** ** Arithmetic of percentages and remainders *)

Section Numbers.

Local Open Scope Q_scope.

Lemma Math_round_mono (x y : Q) : x <= y → (Math_round x <= Math_round y)%Z.
Proof.
  intros Hxy. unfold Math_round. apply Qfloor_resp_le.
  apply Qplus_le_compat; [exact Hxy | apply Qle_refl].
Qed.

Lemma Math_round_Z (k : Z) : Math_round (inject_Z k) = k.
Proof.
  unfold Math_round.
  apply Z.le_antisymm.
  - apply Z.lt_succ_r. rewrite Zlt_Qlt.
    eapply Qle_lt_trans; [apply Qfloor_le|].
    unfold Z.succ. rewrite inject_Z_plus.
    apply Qplus_lt_r. reflexivity.
  - rewrite <- (Qfloor_Z k) at 1. apply Qfloor_resp_le.
    rewrite <- (Qplus_0_r (inject_Z k)) at 1.
    apply Qplus_le_r. discriminate.
Qed.

Lemma Math_round_nonneg (x : Q) : 0 <= x → (0 <= Math_round x)%Z.
Proof.
  intros Hx. change 0%Z with (Math_round (inject_Z 0)).
  now apply Math_round_mono.
Qed.



Lemma ratio_nonneg (v tv : Q) : 0 <= v → 0 < tv → 0 <= v / tv * 100.
Proof.
  intros Hv Htv. apply Qmult_le_0_compat; [|discriminate].
  apply Qle_shift_div_l; [exact Htv|]. now rewrite Qmult_0_l.
Qed.

Lemma ratio_mono (v1 v2 tv : Q) :
  0 < tv → v1 <= v2 → v1 / tv * 100 <= v2 / tv * 100.
Proof.
  intros Htv Hv. apply Qmult_le_compat_r; [|discriminate].
  unfold Qdiv. apply Qmult_le_compat_r; [exact Hv|].
  apply Qlt_le_weak, Qinv_lt_0_compat, Htv.
Qed.

Lemma ratio_reached (v tv : Q) : 0 < tv → tv <= v → 100 <= v / tv * 100.
Proof.
  intros Htv Hv.
  apply Qle_trans with (1 * 100); [discriminate|].
  apply Qmult_le_compat_r; [|discriminate].
  apply Qle_shift_div_l; [exact Htv|]. now rewrite Qmult_1_l.
Qed.

Lemma truthy_number_pos (tv : Q) : 0 < tv → truthy_number tv = true.
Proof.
  intros Htv. unfold truthy_number.
  destruct (Qeq_bool tv 0) eqn:E; [|reflexivity].
  apply Qeq_bool_eq in E. rewrite E in Htv. now apply Qlt_irrefl in Htv.
Qed.

Lemma Qtrunc_Z (k : Z) : Qtrunc (inject_Z k) = k.
Proof.
  unfold Qtrunc. destruct (Qle_bool 0 (inject_Z k));
    [apply Qfloor_Z | apply Qceiling_Z].
Qed.

Lemma Qtrunc_comp (x y : Q) : x == y → Qtrunc x = Qtrunc y.
Proof.
  intros E. unfold Qtrunc. rewrite E.
  destruct (Qle_bool 0 y); [now apply Qfloor_comp | now apply Qceiling_comp].
Qed.

(** [v % 10 === 0] holds exactly for the integer multiples of 10. *)
Lemma js_rem_10_zero (v : Q) :
  Qeq_bool (js_rem v 10) 0 = true ↔ ∃ k : Z, v == inject_Z (10 * k).
Proof.
  split.
  - intros E. apply Qeq_bool_eq in E. unfold js_rem in E.
    exists (Qtrunc (v / 10)). rewrite inject_Z_mult.
    rewrite <- (Qplus_0_l (inject_Z 10 * _)), <- E. ring.
  - intros [k Hk]. apply Qeq_bool_iff. unfold js_rem.
    assert (Hdiv : v / 10 == inject_Z k).
    { rewrite Hk, inject_Z_mult. field. }
    rewrite (Qtrunc_comp _ _ Hdiv), Qtrunc_Z, Hk, inject_Z_mult. ring.
Qed.

End Numbers.

(** ** Double-precision arithmetic: rounding is monotonic *)

Module Float64Facts.

Import Float64 Goal.

Local Open Scope Q_scope.

Lemma two_not_zero : ~ 2 == 0.
Proof. intros H. discriminate H. Qed.

Lemma pow2_pos (e : Z) : 0 < pow2 e.
Proof. apply Qpower_0_lt. reflexivity. Qed.

Lemma pow2_not_zero (e : Z) : ~ pow2 e == 0.
Proof.
  intros H. pose proof (pow2_pos e) as Hp. rewrite H in Hp.
  now apply Qlt_irrefl in Hp.
Qed.

Lemma pow2_add (a b : Z) : pow2 (a + b) == pow2 a * pow2 b.
Proof. apply Qpower_plus, two_not_zero. Qed.

Lemma pow2_sub (a b : Z) : pow2 (a - b) == pow2 a / pow2 b.
Proof. apply Qpower_minus, two_not_zero. Qed.

Lemma pow2_le (a b : Z) : (a <= b)%Z → pow2 a <= pow2 b.
Proof. intros H. apply Qpower_le_compat_l; [exact H|discriminate]. Qed.

Lemma pow2_lt_inv (a b : Z) : pow2 a < pow2 b → (a < b)%Z.
Proof. intros H. apply (Qpower_lt_compat_l_inv 2); [exact H|reflexivity]. Qed.

Lemma pow2_Z (n : Z) : (0 <= n)%Z → pow2 n == inject_Z (2 ^ n).
Proof. intros H. symmetry. now apply Zpower_Qpower. Qed.

Lemma frac_lt (n : Z) (d : positive) (A B : Z) :
  (0 < B)%Z → (n * B < A * Zpos d)%Z → n # d < inject_Z A / inject_Z B.
Proof.
  intros HB H. apply Qlt_shift_div_l.
  - unfold Qlt. simpl. lia.
  - unfold Qlt, Qmult, inject_Z. simpl. rewrite Pos.mul_1_r. lia.
Qed.

Lemma frac_ge (n : Z) (d : positive) (A B : Z) :
  (0 < B)%Z → (A * Zpos d <= n * B)%Z → inject_Z A / inject_Z B <= n # d.
Proof.
  intros HB H. apply Qle_shift_div_r.
  - unfold Qlt. simpl. lia.
  - unfold Qle, Qmult, inject_Z. simpl. rewrite Pos.mul_1_r. lia.
Qed.

Lemma exponent_spec (x : Q) :
  0 < x → pow2 (exponent x) <= x ∧ x < pow2 (exponent x + 1).
Proof.
  destruct x as [n d]. intros Hx.
  assert (Hn : (0 < n)%Z).
  { unfold Qlt in Hx. simpl in Hx. lia. }
  unfold exponent. cbn [Qnum Qden].
  set (ln := Z.log2 n). set (ld := Z.log2 (Zpos d)).
  assert (Hln : (0 <= ln)%Z) by apply Z.log2_nonneg.
  assert (Hld : (0 <= ld)%Z) by apply Z.log2_nonneg.
  destruct (Z.log2_spec n Hn) as [Hn1 Hn2]. fold ln in Hn1, Hn2.
  destruct (Z.log2_spec (Zpos d) eq_refl) as [Hd1 Hd2]. fold ld in Hd1, Hd2.
  assert (Hpn : (0 < 2 ^ ln)%Z) by (apply Z.pow_pos_nonneg; lia).
  assert (Hpd : (0 < 2 ^ ld)%Z) by (apply Z.pow_pos_nonneg; lia).
  assert (Hupper : n # d < pow2 (ln - ld + 1)).
  { replace (ln - ld + 1)%Z with (Z.succ ln - ld)%Z by lia.
    rewrite pow2_sub, !pow2_Z by lia.
    apply frac_lt; [exact Hpd|]. nia. }
  assert (Hlower : pow2 (ln - ld - 1) <= n # d).
  { replace (ln - ld - 1)%Z with (ln - Z.succ ld)%Z by lia.
    rewrite pow2_sub, !pow2_Z by lia.
    apply frac_ge; [lia|]. nia. }
  destruct (Qle_bool (pow2 (ln - ld)) (n # d)) eqn:E.
  - apply Qle_bool_iff in E. split; assumption.
  - split; [exact Hlower|].
    replace (ln - ld - 1 + 1)%Z with (ln - ld)%Z by lia.
    apply Qnot_le_lt. intros H. apply Qle_bool_iff in H. congruence.
Qed.

Lemma exponent_mono (x y : Q) :
  0 < x → x <= y → (exponent x <= exponent y)%Z.
Proof.
  intros Hx Hxy.
  assert (Hy : 0 < y) by (eapply Qlt_le_trans; eassumption).
  destruct (exponent_spec x Hx) as [Hx1 _].
  destruct (exponent_spec y Hy) as [_ Hy2].
  apply Z.lt_succ_r, pow2_lt_inv.
  eapply Qle_lt_trans; [exact Hx1|].
  eapply Qle_lt_trans; [exact Hxy|exact Hy2].
Qed.


Lemma nearest_even_cases (y : Q) :
  nearest_even y = Qfloor y \/ nearest_even y = (Qfloor y + 1)%Z.
Proof.
  unfold nearest_even.
  destruct (Qcompare _ _); [destruct (Z.even _)| |]; auto.
Qed.

Lemma nearest_even_mono (t u : Q) :
  t <= u → (nearest_even t <= nearest_even u)%Z.
Proof.
  intros Htu. pose proof (Qfloor_resp_le _ _ Htu) as Hf.
  destruct (Z.eq_dec (Qfloor t) (Qfloor u)) as [E|NE].
  - unfold nearest_even. rewrite E.
    destruct (Qcompare_spec (t - inject_Z (Qfloor u)) (1 # 2)) as [Ht|Ht|Ht];
      destruct (Qcompare_spec (u - inject_Z (Qfloor u)) (1 # 2)) as [Hu|Hu|Hu];
      try destruct (Z.even (Qfloor u)); try lia; exfalso; lra.
  - destruct (nearest_even_cases t) as [-> | ->],
      (nearest_even_cases u) as [-> | ->]; lia.
Qed.

Lemma nearest_even_Z (k : Z) : nearest_even (inject_Z k) = k.
Proof.
  unfold nearest_even. rewrite Qfloor_Z.
  destruct (Qcompare_spec (inject_Z k - inject_Z k) (1 # 2)) as [H|H|H];
    [exfalso; lra | reflexivity | exfalso; lra].
Qed.

Lemma nearest_even_le (t : Q) (k : Z) :
  t <= inject_Z k → (nearest_even t <= k)%Z.
Proof.
  intros H. rewrite <- (nearest_even_Z k). now apply nearest_even_mono.
Qed.

Lemma nearest_even_ge (t : Q) (k : Z) :
  inject_Z k <= t → (k <= nearest_even t)%Z.
Proof.
  intros H. rewrite <- (nearest_even_Z k) at 1. now apply nearest_even_mono.
Qed.

Lemma scaled_le (x y : Q) (q : Z) : x <= y → x / pow2 q <= y / pow2 q.
Proof.
  intros H. apply Qmult_le_compat_r; [exact H|].
  apply Qlt_le_weak, Qinv_lt_0_compat, pow2_pos.
Qed.

Lemma round_positive_nonneg (x : Q) : 0 <= x → 0 <= round_positive x.
Proof.
  intros Hx. unfold round_positive.
  apply Qmult_le_0_compat; [|apply Qlt_le_weak, pow2_pos].
  change 0 with (inject_Z 0). rewrite <- Zle_Qle.
  apply nearest_even_ge. change (inject_Z 0) with 0.
  apply Qle_shift_div_l; [apply pow2_pos|]. lra.
Qed.

(** Rounding to the nearest double is monotonic. *)
Lemma round_positive_mono (x y : Q) :
  0 < x → x <= y → round_positive x <= round_positive y.
Proof.
  intros Hx Hxy.
  assert (Hy : 0 < y) by (eapply Qlt_le_trans; eassumption).
  pose proof (exponent_mono x y Hx Hxy) as He.
  destruct (exponent_spec x Hx) as [_ Hx2].
  destruct (exponent_spec y Hy) as [Hy1 _].
  unfold round_positive, ulp_exponent.
  set (ex := exponent x) in *. set (ey := exponent y) in *.
  destruct (Z.eq_dec (Z.max (ex - 52) (-1074)) (Z.max (ey - 52) (-1074)))
    as [E|NE].
  - rewrite E. apply Qmult_le_compat_r; [|apply Qlt_le_weak, pow2_pos].
    rewrite <- Zle_Qle. apply nearest_even_mono. now apply scaled_le.
  - set (qx := Z.max (ex - 52) (-1074)) in *.
    assert (Hqy : Z.max (ey - 52) (-1074) = (ey - 52)%Z) by lia.
    rewrite Hqy.
    assert (Hlt : (qx < ey - 52)%Z) by lia.
    apply Qle_trans with (pow2 ey).
    + assert (Hxe : x <= pow2 ey).
      { apply Qlt_le_weak. eapply Qlt_le_trans; [exact Hx2|].
        apply pow2_le. lia. }
      assert (Hk : (nearest_even (x / pow2 qx) <= 2 ^ (ey - qx))%Z).
      { apply nearest_even_le. rewrite <- pow2_Z by lia.
        rewrite pow2_sub. now apply scaled_le. }
      apply Qle_trans with (inject_Z (2 ^ (ey - qx)) * pow2 qx).
      * apply Qmult_le_compat_r; [|apply Qlt_le_weak, pow2_pos].
        now rewrite <- Zle_Qle.
      * rewrite <- pow2_Z by lia. rewrite <- pow2_add.
        replace (ey - qx + qx)%Z with ey by lia. apply Qle_refl.
    + assert (Hk : (2 ^ 52 <= nearest_even (y / pow2 (ey - 52)))%Z).
      { apply nearest_even_ge. rewrite <- pow2_Z by lia.
        replace 52%Z with (ey - (ey - 52))%Z at 1 by lia.
        rewrite pow2_sub. now apply scaled_le. }
      apply Qle_trans with (inject_Z (2 ^ 52) * pow2 (ey - 52)).
      * rewrite <- pow2_Z by lia. rewrite <- pow2_add.
        replace (52 + (ey - 52))%Z with ey by lia. apply Qle_refl.
      * apply Qmult_le_compat_r; [|apply Qlt_le_weak, pow2_pos].
        now rewrite <- Zle_Qle.
Qed.


(** The order of the numbers that are not negative. *)
Inductive nn_le : number → number → Prop :=
  | nn_le_finite (x y : Q) : 0 <= x → x <= y → nn_le (Finite x) (Finite y)
  | nn_le_infinity (x : Q) : 0 <= x → nn_le (Finite x) (Infinity false)
  | nn_le_top : nn_le (Infinity false) (Infinity false).

Lemma of_real_mono (x y : Q) :
  0 <= x → x <= y → nn_le (of_real x) (of_real y).
Proof.
  intros Hx Hxy. unfold of_real.
  destruct (Qcompare_spec x 0) as [Ex|Ex|Ex];
    destruct (Qcompare_spec y 0) as [Ey|Ey|Ey]; try (exfalso; lra).
  - constructor; lra.
  - pose proof (round_positive_nonneg y (Qlt_le_weak _ _ Ey)) as Hr.
    destruct (Qle_bool (pow2 1024) (round_positive y)).
    + constructor. lra.
    + constructor; [lra|]. now rewrite Qred_correct.
  - pose proof (round_positive_mono x y Ex Hxy) as Hm.
    pose proof (round_positive_nonneg x (Qlt_le_weak _ _ Ex)) as Hr.
    destruct (Qle_bool (pow2 1024) (round_positive x)) eqn:Bx;
      destruct (Qle_bool (pow2 1024) (round_positive y)) eqn:By.
    + constructor.
    + exfalso. apply Qle_bool_iff in Bx.
      assert (H : pow2 1024 <= round_positive y) by lra.
      apply Qle_bool_iff in H. congruence.
    + constructor. now rewrite Qred_correct.
    + constructor; rewrite !Qred_correct; assumption.
Qed.

Lemma nn_le_refl_of_real (x : Q) : 0 <= x → nn_le (of_real x) (of_real x).
Proof. intros Hx. apply of_real_mono; [exact Hx|apply Qle_refl]. Qed.

Lemma mul_100_mono (a b : number) :
  nn_le a b → nn_le (mul a (Finite 100)) (mul b (Finite 100)).
Proof.
  intros [x y Hx Hxy|x Hx|]; simpl.
  - apply of_real_mono; lra.
  - pose proof (nn_le_refl_of_real (x * 100) ltac:(lra)) as H.
    inversion H; constructor; assumption.
  - constructor.
Qed.

(** What [Math.min(Math.round(a), 100)] is for a number that is not
    negative. *)
Definition capped (a : number) : Z :=
  match a with
  | Finite x => Z.min (Math_round x) 100
  | _ => 100
  end.

Lemma min_round_capped (a b : number) :
  nn_le a b →
  min (round a) (Finite 100) = Finite (inject_Z (capped a)).
Proof.
  intros H.
  assert (Hfin : ∀ x, min (round (Finite x)) (Finite 100)
                           = Finite (inject_Z (capped (Finite x)))).
  { intros x. simpl. destruct (Qle_bool _ 100) eqn:E.
    - apply Qle_bool_iff in E. change 100 with (inject_Z 100) in E.
      rewrite <- Zle_Qle in E. now rewrite Z.min_l.
    - rewrite Z.min_r; [reflexivity|].
      destruct (Z.le_gt_cases 100 (Math_round x)) as [Hle|Hgt]; [exact Hle|].
      exfalso. assert (Hq : inject_Z (Math_round x) <= 100).
      { change 100 with (inject_Z 100). rewrite <- Zle_Qle. lia. }
      apply Qle_bool_iff in Hq. congruence. }
  destruct H; [apply Hfin|apply Hfin|reflexivity].
Qed.


Lemma ratio64_mono (v1 v2 tv : Q) :
  0 <= v1 → v1 <= v2 → 0 < tv → nn_le (ratio64 v1 tv) (ratio64 v2 tv).
Proof.
  intros Hv Hle Htv. unfold ratio64. apply mul_100_mono. unfold div.
  destruct (Qeq_bool tv 0) eqn:E.
  - apply Qeq_bool_eq in E. exfalso. lra.
  - assert (Hi : 0 < / tv) by now apply Qinv_lt_0_compat.
    apply of_real_mono; unfold Qdiv.
    + apply Qmult_le_0_compat; lra.
    + apply Qmult_le_compat_r; lra.
Qed.

Lemma percentage64_capped (v tv : Q) :
  0 <= v → 0 < tv →
  percentage64 v tv = Finite (inject_Z (capped (ratio64 v tv))).
Proof.
  intros Hv Htv. unfold percentage64.
  apply (min_round_capped _ (ratio64 v tv)).
  apply ratio64_mono; [exact Hv|apply Qle_refl|exact Htv].
Qed.


Lemma percentage64_reached (v tv : Q) :
  0 < tv → tv <= v → percentage64 v tv = Finite 100.
Proof.
  intros Htv Hv. rewrite percentage64_capped by lra.
  assert (H : nn_le (ratio64 1 1) (ratio64 v tv)).
  { unfold ratio64. apply mul_100_mono. unfold div.
    destruct (Qeq_bool tv 0) eqn:E.
    - apply Qeq_bool_eq in E. exfalso. lra.
    - change (if Qeq_bool 1 0 then _ else of_real (1 / 1))
        with (of_real (1 / 1)).
      apply of_real_mono; [discriminate|].
      apply Qle_shift_div_l; [exact Htv|]. change (1 / 1) with 1. lra. }
  assert (E1 : ratio64 1 1 = Finite 100) by (vm_compute; reflexivity).
  rewrite E1 in H. f_equal.
  inversion H as [x y Hx Hxy|x Hx|]; subst; simpl; [|reflexivity].
  pose proof (Math_round_mono 100 y Hxy) as Hm.
  change 100 with (inject_Z 100) in Hm at 1. rewrite Math_round_Z in Hm.
  now rewrite Z.min_r.
Qed.


(** The model agrees with the binary64 arithmetic of [SpecFloat] on
    [(a / b) * 100] for these operands [m * 2^e], among them a quotient
    that underflows, one that overflows, and two whose product with 100
    lies halfway between two doubles. *)
Definition agree (operands : Z * Z * (Z * Z)) : Prop :=
  let '(m1, e1, (m2, e2)) := operands in
  of_spec_float
    (SFmul 53 1024 (SFdiv 53 1024 (binary64 m1 e1) (binary64 m2 e2))
       (binary64 100 0))
  = ratio64 (inject_Z m1 * pow2 e1) (inject_Z m2 * pow2 e2).

Lemma agrees_with_SpecFloat :
  Forall agree
    ([(29, 0, (200, 0)); (23, 0, (40, 0)); (65, -1, (65, 0));
      (100, 0, (65, 0)); (1, 0, (3, 0)); (2, 0, (3, 0)); (7, -3, (9, 5));
      (1, -1074, (3, 0)); (1, 1000, (1, -1000));
      (5764607523034235, -60, (1, 0)); (5764607523034256, 0, (1, 0));
      (5764607523034288, 0, (1, 0))])%Z.
Proof. repeat (constructor; [vm_compute; reflexivity|]). constructor. Qed.

End Float64Facts.

(** ** The goal document: pre-save hook and instance methods *)

Module GoalFacts.

Import Goal.

Lemma Status_eqb_eq (a b : Status) : Status_eqb a b = true ↔ a = b.
Proof. destruct a, b; simpl; split; congruence. Qed.

Lemma Status_eqb_refl (a : Status) : Status_eqb a a = true.
Proof. now apply Status_eqb_eq. Qed.

Lemma Status_eqb_neq (a b : Status) : Status_eqb a b = false ↔ a ≠ b.
Proof. destruct a, b; simpl; split; congruence. Qed.

(** The hook never touches the milestones. *)
Lemma pre_save_milestones (now : Z) (g : t) :
  milestones (progress (pre_save now g)) = milestones (progress g).
Proof.
  unfold pre_save.
  destruct (type g), (target_value (target g)) as [tv|],
    (current (progress g)) as [cur|]; simpl; try reflexivity;
    destruct (truthy_number tv); simpl; try reflexivity;
    destruct (Qle_bool 100 _ && _); reflexivity.
Qed.

(** What the hook stores for a target goal with a positive target. *)
Lemma pre_save_target (now : Z) (g : t) (tv cur : Q) :
  type g = type_target →
  target_value (target g) = Some tv →
  (0 < tv)%Q →
  current (progress g) = Some cur →
  percentage (progress (pre_save now g)) = compute_percentage cur tv
  ∧ status (pre_save now g) =
      if Qle_bool 100 (compute_percentage cur tv)
         && Status_eqb (status g) active
      then completed else status g.
Proof.
  intros Hty Htv Hpos Hcur. unfold pre_save.
  rewrite Hty, Htv, Hcur, (truthy_number_pos tv Hpos). simpl.
  destruct (Qle_bool 100 (compute_percentage cur tv)
            && Status_eqb (status g) active); simpl; auto.
Qed.

(** The hook changes a status only from [active] to [completed]. *)
Lemma pre_save_status (now : Z) (g : t) :
  status (pre_save now g) = status g
  ∨ (status g = active ∧ status (pre_save now g) = completed).
Proof.
  unfold pre_save.
  destruct (type g), (target_value (target g)) as [tv|],
    (current (progress g)) as [cur|]; simpl; auto.
  destruct (truthy_number tv); simpl; auto.
  destruct (Qle_bool 100 _); simpl; auto.
  destruct (Status_eqb (status g) active) eqn:E; simpl; auto.
  apply Status_eqb_eq in E. auto.
Qed.

Lemma pre_save_completed (now : Z) (g : t) :
  status g = completed → status (pre_save now g) = completed.
Proof.
  intros H. destruct (pre_save_status now g) as [E|[E _]]; congruence.
Qed.

Lemma compute_percentage_reached (v tv : Q) :
  (0 < tv)%Q → (tv <= v)%Q → compute_percentage v tv = 100%Q.
Proof.
  intros Htv Hv. unfold compute_percentage.
  rewrite Z.min_r; [reflexivity|].
  rewrite <- (Math_round_Z 100).
  apply Math_round_mono. change (inject_Z 100) with 100%Q.
  now apply ratio_reached.
Qed.

(** [updateProgress] on a target goal: the stored percentage and the
    status after the save. *)
Lemma updateProgress_target (v : Q) (note : option string) (now : Z)
    (g : t) (tv : Q) :
  type g = type_target →
  target_value (target g) = Some tv →
  (0 < tv)%Q →
  percentage (progress (updateProgress v note now g))
    = compute_percentage v tv
  ∧ status (updateProgress v note now g) =
      if Qle_bool 100 (compute_percentage v tv)
         && Status_eqb (status g) active
      then completed else status g.
Proof.
  intros Hty Htv Hpos. unfold updateProgress, save.
  match goal with
  | |- context [pre_save now ?g'] =>
      apply (pre_save_target now g' tv v)
  end; try assumption.
  simpl. destruct (truthy_note note || _); reflexivity.
Qed.

Lemma updateProgress_milestones (v : Q) (note : option string) (now : Z)
    (g : t) :
  milestones (progress (updateProgress v note now g)) =
    if truthy_note note || Qeq_bool (js_rem v 10) 0
    then (milestones (progress g)
            ++ [ {| value := v; achievedAt := now; note := note |} ])%list
    else milestones (progress g).
Proof.
  unfold updateProgress, save. rewrite pre_save_milestones. simpl.
  destruct (truthy_note note || _); reflexivity.
Qed.

Lemma updateProgress_status (v : Q) (note : option string) (now : Z)
    (g : t) :
  status (updateProgress v note now g) = status g
  ∨ (status g = active ∧ status (updateProgress v note now g) = completed).
Proof.
  unfold updateProgress, save.
  match goal with
  | |- context [pre_save now ?g'] => apply (pre_save_status now g')
  end.
Qed.

Lemma truthy_note_nonempty (note : option string) :
  truthy_note note = true ↔ ∃ s, note = Some s ∧ s ≠ "".
Proof.
  destruct note as [s|]; simpl.
  - unfold truthy_string. destruct (String.eqb_spec s ""); simpl.
    + split; [discriminate|]. intros (s' & [= <-] & Hne). contradiction.
    + split; [eauto|reflexivity].
  - split; [discriminate|]. intros (s & [=] & _).
Qed.

(** A goal used to exercise the statements: target 65, nothing done. *)
Definition sample_goal : t :=
  {| _id := "g1"; user := "u1"; title := "Reach 65 kg";
     type := type_target; target := {| target_value := Some 65%Q |};
     priority := medium; status := active;
     progress := {| current := Some 0%Q; percentage := 0%Q;
                    lastUpdated := 0; milestones := [] |};
     completedAt := None; notes := None |}.

(** ** C6 *)



(** ** Milestones *)

(** The test [note || newValue % 10 === 0], read as a proposition. *)
Lemma milestone_test_iff (note : option string) (v : Q) :
  truthy_note note || Qeq_bool (js_rem v 10) 0 = true
  ↔ (∃ s, note = Some s ∧ s ≠ "") ∨ (∃ k : Z, (v == inject_Z (10 * k))%Q).
Proof.
  rewrite orb_true_iff, truthy_note_nonempty, js_rem_10_zero. tauto.
Qed.

End GoalFacts.

(** ** The connection registry *)

Module SocketFacts.

Import SocketHandler.

(** *** What each operation does to the three parts of the state *)

Lemma on_disconnect_connections (s : Socket) (reason : string) (now : Z)
    (st : Server) :
  activeConnections (on_disconnect s reason now st)
    = delete (userId s) (activeConnections st).
Proof. reflexivity. Qed.

Lemma on_disconnect_open_sockets (s : Socket) (reason : string) (now : Z)
    (st : Server) :
  open_sockets (on_disconnect s reason now st)
    = filter (λ r, id r ≠ id s) (open_sockets st).
Proof. reflexivity. Qed.

Lemma on_message_open_sockets (s : Socket) (f : Frame) (now : Z)
    (st : Server) :
  open_sockets (on_message s f now st) = open_sockets st.
Proof.
  destruct f; simpl; try reflexivity.
  - destruct (truthy _); reflexivity.
  - destruct (activeConnections st !! userId s); reflexivity.
  - destruct (truthy _ && truthy _); reflexivity.
Qed.

Lemma on_message_connections (s : Socket) (f : Frame) (now : Z)
    (st : Server) :
  activeConnections (on_message s f now st) =
    match f with
    | presence_update data =>
        match activeConnections st !! userId s with
        | Some c => <[userId s := touch data now c]> (activeConnections st)
        | None => activeConnections st
        end
    | _ => activeConnections st
    end.
Proof.
  destruct f; simpl; try reflexivity.
  - destruct (truthy _); reflexivity.
  - destruct (activeConnections st !! userId s); reflexivity.
  - destruct (truthy _ && truthy _); reflexivity.
Qed.

Lemma sendToUser_connections (u ev : string) (data : list (string * Json))
    (now : Z) (st : Server) :
  activeConnections (sendToUser u ev data now st).1 = activeConnections st
  ∧ open_sockets (sendToUser u ev data now st).1 = open_sockets st.
Proof.
  unfold sendToUser. destruct (activeConnections st !! u); split; reflexivity.
Qed.

Lemma sendToAllUsers_connections (ev : string)
    (data : list (string * Json)) (now : Z) (st : Server) :
  activeConnections (sendToAllUsers ev data now st) = activeConnections st
  ∧ open_sockets (sendToAllUsers ev data now st) = open_sockets st.
Proof.
  unfold sendToAllUsers.
  generalize (map_to_list (activeConnections st)) as l.
  intros l. revert st. induction l as [|e l IH]; intros st; [done|].
  simpl. destruct (IH (socket_emit (socket e.2) ev
                         (JObj (set_field "timestamp" (JDate now) data)) st))
    as [-> ->]. done.
Qed.

Lemma delivered_emit_all (st : Server) (ds : list Delivery) :
  delivered st (emit_all ds st) = ds.
Proof. unfold delivered. simpl. apply drop_app_length. Qed.

(** *** The sweep, entry by entry *)

(** The registry after the loop has gone through the entries [l]. *)
Definition swept (now : Z) (l : list (string * Connection))
    (m : gmap string Connection) : gmap string Connection :=
  foldl (λ acc e, if inactive now e.2 then delete e.1 acc else acc) m l.

Lemma swept_lookup_stale (now : Z) (l : list (string * Connection))
    (m : gmap string Connection) (k : string) (c : Connection) :
  (k, c) ∈ l → inactive now c = true → swept now l m !! k = None.
Proof.
  assert (Hnone : ∀ l' m', m' !! k = None → swept now l' m' !! k = None).
  { induction l' as [|[u' c'] l' IH]; intros m' Hm'; simpl; [done|].
    apply IH. destruct (inactive now c'); [|done].
    simpl. destruct (decide (k = u')) as [->|Hne].
    - apply lookup_delete_eq.
    - by rewrite lookup_delete_ne. }
  revert m. induction l as [|[u' c'] l IH]; intros m Hin Hc.
  - by apply elem_of_nil in Hin.
  - simpl. apply elem_of_cons in Hin as [[= <- <-]|Hin].
    + rewrite Hc. simpl. apply Hnone, lookup_delete_eq.
    + by apply IH.
Qed.

Lemma swept_lookup_fresh (now : Z) (l : list (string * Connection))
    (m : gmap string Connection) (k : string) :
  (∀ c, (k, c) ∈ l → inactive now c = false) →
  swept now l m !! k = m !! k.
Proof.
  revert m. induction l as [|[u' c'] l IH]; intros m Hl; simpl; [done|].
  fold (swept now l). rewrite IH.
  - destruct (inactive now c') eqn:E; [|done]. simpl.
    destruct (decide (k = u')) as [->|Hne].
    + rewrite (Hl c') in E by left. discriminate.
    + by rewrite lookup_delete_ne.
  - intros c Hin. apply Hl. by right.
Qed.

Lemma cleanup_fold_connections (now : Z) (l : list (string * Connection))
    (st : Server) :
  (∀ u c, (u, c) ∈ l → userId (socket c) = u) →
  activeConnections (foldl (cleanup_entry now) st l)
    = swept now l (activeConnections st).
Proof.
  revert st. induction l as [|[u c] l IH]; intros st Hl; [done|].
  simpl. fold (swept now l). rewrite IH.
  - f_equal. destruct (inactive now c); [|done].
    simpl. rewrite (Hl u c) by left.
    apply map_eq. intros k. destruct (decide (k = u)) as [->|Hne].
    + by rewrite !lookup_delete_eq.
    + by rewrite !lookup_delete_ne.
  - intros u' c' Hin. apply Hl. by right.
Qed.

Lemma cleanup_fold_open_sockets (now : Z) (l : list (string * Connection))
    (st : Server) (r : Socket) :
  r ∈ open_sockets (foldl (cleanup_entry now) st l) ↔
    r ∈ open_sockets st
    ∧ ∀ u c, (u, c) ∈ l → inactive now c = true → id r ≠ id (socket c).
Proof.
  revert st. induction l as [|[u c] l IH]; intros st; simpl.
  - split; [|tauto]. intros H. split; [done|].
    intros u c Hin. by apply elem_of_nil in Hin.
  - rewrite IH. destruct (inactive now c) eqn:E; simpl.
    + rewrite list_elem_of_filter. split.
      * intros [[Hne Hr] Hl]. split; [done|].
        intros u' c' Hin Hc'.
        apply elem_of_cons in Hin as [[= -> ->]|Hin]; [done|eauto].
      * intros [Hr Hl]. split; [split; [|done]|].
        -- apply (Hl u c); [left|done].
        -- intros u' c' Hin. apply (Hl u'). by right.
    + split.
      * intros [Hr Hl]. split; [done|].
        intros u' c' Hin Hc'.
        apply elem_of_cons in Hin as [[= -> ->]|Hin]; [congruence|eauto].
      * intros [Hr Hl]. split; [done|].
        intros u' c' Hin. apply (Hl u'). by right.
Qed.

Lemma cleanup_fold_sublist (now : Z) (l : list (string * Connection))
    (st : Server) :
  open_sockets (foldl (cleanup_entry now) st l) `sublist_of` open_sockets st.
Proof.
  revert st. induction l as [|[u c] l IH]; intros st; simpl; [done|].
  etrans; [apply IH|].
  destruct (inactive now c); simpl; [apply sublist_filter|done].
Qed.

(** *** An invariant of the reachable states *)

(** Every entry is filed under the user of its socket, names that socket
    by its id, and its socket is open; open sockets have distinct ids. *)
Record consistent (st : Server) : Prop := {
  entry_socket_open : ∀ u c,
    activeConnections st !! u = Some c → socket c ∈ open_sockets st;
  entry_socket_user : ∀ u c,
    activeConnections st !! u = Some c → userId (socket c) = u;
  entry_socket_id : ∀ u c,
    activeConnections st !! u = Some c → socketId c = id (socket c);
  open_ids_distinct : NoDup (id <$> open_sockets st)
}.

Lemma same_id_same_socket (l : list Socket) (r1 r2 : Socket) :
  NoDup (id <$> l) → r1 ∈ l → r2 ∈ l → id r1 = id r2 → r1 = r2.
Proof.
  induction l as [|x l IH]; intros Hnd H1 H2 Hid.
  - by apply elem_of_nil in H1.
  - rewrite fmap_cons in Hnd. apply NoDup_cons in Hnd as [Hx Hnd].
    apply elem_of_cons in H1 as [->|H1], H2 as [->|H2]; [done| | |by apply IH].
    + exfalso. apply Hx. rewrite Hid. by apply list_elem_of_fmap_2.
    + exfalso. apply Hx. rewrite <- Hid. by apply list_elem_of_fmap_2.
Qed.

Lemma consistent_empty : consistent empty_server.
Proof.
  split; simpl; try (intros u c H; by rewrite lookup_empty in H).
  constructor.
Qed.

Lemma consistent_on_connection (s : Socket) (now : Z) (st : Server) :
  consistent st → id s ∉ id <$> open_sockets st →
  consistent (on_connection s now st).
Proof.
  intros [Hopen Huser Hid Hnd] Hfresh. split; simpl.
  - intros u c. rewrite lookup_insert. case_decide as E.
    + intros [= <-]. simpl. apply elem_of_app. right. by left.
    + intros H. apply elem_of_app. left. eauto.
  - intros u c. rewrite lookup_insert. case_decide as E.
    + by intros [= <-].
    + eauto.
  - intros u c. rewrite lookup_insert. case_decide as E.
    + by intros [= <-].
    + eauto.
  - rewrite fmap_app. apply NoDup_app. split; [done|]. split.
    + intros x Hx Hx'. apply list_elem_of_singleton in Hx' as ->. done.
    + apply NoDup_singleton.
Qed.

Lemma consistent_on_message (s : Socket) (f : Frame) (now : Z)
    (st : Server) :
  consistent st → consistent (on_message s f now st).
Proof.
  intros [Hopen Huser Hid Hnd].
  split; rewrite ?on_message_open_sockets; [| | |done];
    intros u c; rewrite on_message_connections;
    (destruct f; eauto);
    (destruct (activeConnections st !! userId s) as [c0|] eqn:E0; eauto);
    (rewrite lookup_insert; case_decide as E; [intros [= <-]; subst u|]);
    simpl; eauto.
Qed.

Lemma consistent_on_disconnect (s : Socket) (reason : string) (now : Z)
    (st : Server) :
  consistent st → s ∈ open_sockets st →
  consistent (on_disconnect s reason now st).
Proof.
  intros [Hopen Huser Hid Hnd] Hs.
  split; rewrite ?on_disconnect_open_sockets;
    try (intros u c; rewrite on_disconnect_connections;
         intros [Hne Hc]%lookup_delete_Some).
  - apply list_elem_of_filter. split; [|eauto].
    intros Heq. apply Hne.
    rewrite <- (Huser u c Hc).
    f_equal. symmetry.
    apply (same_id_same_socket (open_sockets st)); eauto.
  - eauto.
  - eauto.
  - apply (sublist_NoDup _ _ Hnd).
    apply fmap_sublist, sublist_filter.
Qed.

Lemma consistent_cleanup (now : Z) (st : Server) :
  consistent st → consistent (cleanup now st).
Proof.
  intros [Hopen Huser Hid Hnd]. unfold cleanup.
  assert (Hl : ∀ u c, (u, c) ∈ map_to_list (activeConnections st) →
                      userId (socket c) = u).
  { intros u c Hin%elem_of_map_to_list. eauto. }
  assert (Hkept : ∀ u c,
            activeConnections
              (foldl (cleanup_entry now) st
                 (map_to_list (activeConnections st))) !! u = Some c →
            activeConnections st !! u = Some c ∧ inactive now c = false).
  { intros u c. rewrite cleanup_fold_connections by done. intros Hc.
    destruct (activeConnections st !! u) as [c0|] eqn:E0.
    - destruct (inactive now c0) eqn:Ei.
      + rewrite (swept_lookup_stale now _ _ u c0) in Hc; [done| |done].
        by apply elem_of_map_to_list.
      + rewrite swept_lookup_fresh in Hc.
        * rewrite E0 in Hc. by injection Hc as <-.
        * intros c' Hin%elem_of_map_to_list. congruence.
    - rewrite swept_lookup_fresh in Hc; [congruence|].
      intros c' Hin%elem_of_map_to_list. congruence. }
  split.
  - intros u c [Hc Hact]%Hkept. apply cleanup_fold_open_sockets.
    split; [eauto|]. intros u' c' Hin%elem_of_map_to_list Hc' Heq.
    assert (socket c = socket c') as Hsock.
    { apply (same_id_same_socket (open_sockets st)); eauto. }
    assert (u = u') as <-.
    { rewrite <- (Huser u c Hc), <- (Huser u' c' Hin). by f_equal. }
    congruence.
  - intros u c [Hc _]%Hkept. eauto.
  - intros u c [Hc _]%Hkept. eauto.
  - apply (sublist_NoDup _ _ Hnd).
    apply fmap_sublist, cleanup_fold_sublist.
Qed.

Lemma consistent_run (a : Action) (now : Z) (st : Server) :
  consistent st → enabled a st → consistent (run a now st).
Proof.
  intros Hst Hen. destruct a as [s|s f|s reason| |u ev data|ev data]; simpl.
  - by apply consistent_on_connection.
  - by apply consistent_on_message.
  - by apply consistent_on_disconnect.
  - by apply consistent_cleanup.
  - destruct Hst as [Hopen Huser Hid Hnd].
    destruct (sendToUser_connections u ev data now st) as [Hc Ho].
    split; rewrite ?Hc, ?Ho; eauto.
  - destruct Hst as [Hopen Huser Hid Hnd].
    destruct (sendToAllUsers_connections ev data now st) as [Hc Ho].
    split; rewrite ?Hc, ?Ho; eauto.
Qed.

Lemma reachable_consistent (st : Server) : reachable st → consistent st.
Proof.
  induction 1 as [|a now st _ IH Hen].
  - apply consistent_empty.
  - by apply consistent_run.
Qed.

(** *** Concrete scenarios *)

Definition phone : Socket :=
  {| id := "s1"; userId := "u1"; socket_user := JNull |}.
Definition laptop : Socket :=
  {| id := "s2"; userId := "u1"; socket_user := JNull |}.
Definition tablet : Socket :=
  {| id := "s3"; userId := "u1"; socket_user := JNull |}.
Definition watch : Socket :=
  {| id := "s4"; userId := "u2"; socket_user := JNull |}.

(** One user, first one then two then three devices, connected at 0, 10
    and 20 ms. *)
Definition one_device : Server := run (Connect phone) 0 empty_server.
Definition two_devices : Server := run (Connect laptop) 10 one_device.
Definition three_devices : Server := run (Connect tablet) 20 two_devices.

(** Two users: the phone connected at 0, the watch 30 min 59 s later. *)
Definition two_users : Server := run (Connect watch) 1859000 one_device.

Ltac fresh_id := simpl; apply (bool_decide_unpack _); vm_compute; exact I.

Lemma reachable_one_device : reachable one_device.
Proof. apply reachable_step; [apply reachable_init | fresh_id]. Defined.

Lemma reachable_two_devices : reachable two_devices.
Proof. apply reachable_step; [apply reachable_one_device | fresh_id]. Defined.

Lemma reachable_three_devices : reachable three_devices.
Proof. apply reachable_step; [apply reachable_two_devices | fresh_id]. Defined.

Lemma reachable_two_users : reachable two_users.
Proof. apply reachable_step; [apply reachable_one_device | fresh_id]. Defined.

(** ** C1 *)

(** C1 as stated fails: with three live connections of one user,
    [sendToUser] hands the event to one connection, which is neither
    N = 3 nor N - 1 = 2. *)
Lemma sendToUser_reaches_one_of_three :
  length (room "u1" three_devices) = 3%nat
  ∧ length (delivered three_devices
              (sendToUser "u1" "goal:updated" [] 30 three_devices).1)
    = 1%nat
  ∧ recipient <$> delivered three_devices
                    (sendToUser "u1" "goal:updated" [] 30 three_devices).1
    = ["s3"].
Proof. vm_compute. repeat split. Qed.

(** C1, amended. At every reachable state [sendToUser(userId, E, P)],
    which takes no connection to exclude, delivers [{...P, timestamp}]
    to exactly one connection, the one registered for [userId], which is
    one of that user's live connections, and returns true; when no
    connection is registered for [userId] it delivers to none and returns
    false. *)
Theorem sendToUser_delivers_to_registered_connection (st : Server)
    (u ev : string) (data : list (string * Json)) (now : Z) :
  reachable st →
  match getUserConnection u st with
  | Some c =>
      (sendToUser u ev data now st).2 = true
      ∧ socket c ∈ room u st
      ∧ delivered st (sendToUser u ev data now st).1
        = [ {| recipient := id (socket c); event := ev;
               payload := JObj (set_field "timestamp" (JDate now) data) |} ]
  | None =>
      (sendToUser u ev data now st).2 = false
      ∧ delivered st (sendToUser u ev data now st).1 = []
  end.
Proof.
  intros [Hopen Huser _ _]%reachable_consistent.
  unfold getUserConnection, sendToUser.
  destruct (activeConnections st !! u) as [c|] eqn:E; simpl.
  - split; [done|]. split.
    + apply list_elem_of_filter. eauto.
    + apply delivered_emit_all.
  - split; [done|]. unfold delivered. apply drop_all.
Qed.

Lemma sendToUser_delivers_to_registered_connection_witness :
  (sendToUser "u1" "goal:updated" [] 30 three_devices).2 = true
  ∧ tablet ∈ room "u1" three_devices
  ∧ delivered three_devices
      (sendToUser "u1" "goal:updated" [] 30 three_devices).1
    = [ {| recipient := "s3"; event := "goal:updated";
           payload := JObj [("timestamp", JDate 30)] |} ].
Proof.
  exact (sendToUser_delivers_to_registered_connection
           three_devices "u1" "goal:updated" [] 30 reachable_three_devices).
Defined.

(** The fan-out that does reach the other devices is the one a socket
    starts itself: every live connection of the user but the sender. *)
Lemma socket_to_room_emit_recipients (s : Socket) (ev : string)
    (data : Json) (st : Server) :
  recipient <$> delivered st (socket_to_room_emit s ev data st)
    = id <$> filter (λ r, id r ≠ id s) (room (userId s) st).
Proof.
  unfold socket_to_room_emit. rewrite delivered_emit_all.
  rewrite <- list_fmap_compose. reflexivity.
Qed.

(** ** C2 *)

Lemma one_entry_per_user (st : Server) (u : string) (c c' : Connection) :
  (u, c) ∈ map_to_list (activeConnections st) →
  (u, c') ∈ map_to_list (activeConnections st) →
  c = c'.
Proof. intros H H'. apply elem_of_map_to_list in H, H'. congruence. Qed.

(** A socket that is the socket of no entry stays open through a sweep. *)
Lemma cleanup_spares_unregistered (now : Z) (st : Server) (r : Socket) :
  r ∈ open_sockets st →
  (∀ u c, activeConnections st !! u = Some c → id r ≠ id (socket c)) →
  r ∈ open_sockets (cleanup now st).
Proof.
  intros Hr Hno. apply cleanup_fold_open_sockets. split; [done|].
  intros u c Hin%elem_of_map_to_list _. eauto.
Qed.

(** C2. The registry holds at most one entry per userId. When a user
    with a live connection [s1] registers a second connection [s2], the
    entry of the user is overwritten: [getUserConnection] returns the
    entry of [s2], [sendToUser] delivers to [s2] only, no idle sweep ever
    closes [s1], and all the while the socket of [s1] is still open. *)
Theorem second_connection_hides_the_first (st : Server) (s1 s2 : Socket)
    (t : Z) :
  reachable st →
  s1 ∈ open_sockets st →
  id s2 ∉ id <$> open_sockets st →
  userId s2 = userId s1 →
  let st2 := on_connection s2 t st in
  (∀ u c c',
     (u, c) ∈ map_to_list (activeConnections st2) →
     (u, c') ∈ map_to_list (activeConnections st2) → c = c')
  ∧ (∃ c, getUserConnection (userId s1) st2 = Some c
          ∧ socket c = s2 ∧ socketId c = id s2 ∧ socketId c ≠ id s1)
  ∧ (∀ ev data now,
       recipient <$> delivered st2
                       (sendToUser (userId s1) ev data now st2).1
         = [id s2])
  ∧ (∀ now, s1 ∈ open_sockets (cleanup now st2))
  ∧ s1 ∈ open_sockets st2.
Proof.
  intros Hreach Hs1 Hfresh Hu st2.
  pose proof (reachable_consistent _ Hreach) as [Hopen Huser Hid Hnd].
  assert (Hids : id s1 ≠ id s2).
  { intros E. apply Hfresh. rewrite <- E. by apply list_elem_of_fmap_2. }
  assert (Hs1' : s1 ∈ open_sockets st2).
  { simpl. apply elem_of_app. by left. }
  assert (Hentry : activeConnections st2 !! userId s1
                   = Some {| socketId := id s2; socket := s2;
                             connectedAt := t; user := socket_user s2;
                             lastActivity := None; status := None |}).
  { simpl. rewrite Hu. apply lookup_insert_eq. }
  split; [|split; [|split; [|split]]].
  - intros u c c'. apply one_entry_per_user.
  - eexists. split; [exact Hentry|]. simpl. auto.
  - intros ev data now. unfold sendToUser. rewrite Hentry.
    unfold socket_emit. simpl fst. by rewrite delivered_emit_all.
  - intros now. apply cleanup_spares_unregistered; [done|].
    intros u c. simpl. rewrite lookup_insert. case_decide as E.
    + by intros [= <-].
    + intros Hc Heq. apply E. rewrite Hu.
      rewrite <- (Huser u c Hc). f_equal.
      apply (same_id_same_socket (open_sockets st)); eauto.
  - done.
Qed.

Lemma second_connection_hides_the_first_witness :
  getUserConnection "u1" two_devices
    = Some {| socketId := "s2"; socket := laptop; connectedAt := 10;
              user := JNull; lastActivity := None; status := None |}
  ∧ phone ∈ open_sockets (cleanup 86400000 two_devices)
  ∧ phone ∈ open_sockets two_devices.
Proof.
  assert (H1 : phone ∈ open_sockets one_device) by (simpl; left).
  assert (H2 : id laptop ∉ id <$> open_sockets one_device) by fresh_id.
  destruct (second_connection_hides_the_first one_device phone laptop 10
              reachable_one_device H1 H2 eq_refl)
    as (_ & _ & _ & Hsweep & Hopen).
  split; [reflexivity|]. split; [apply (Hsweep 86400000) | exact Hopen].
Defined.

(** ** C10 *)

(** C10. When a socket disconnects, the entry filed under its userId is
    deleted whichever socket that entry belongs to. If the entry belongs
    to a newer connection [s2] of the same user, [s2] is still open but
    has no entry any more, and [sendToUser] for that user returns false.
    The entries of all other users are unchanged. *)
Theorem disconnect_deletes_the_entry_of_the_user (st : Server)
    (s : Socket) (reason : string) (now : Z) :
  let st' := on_disconnect s reason now st in
  activeConnections st' = delete (userId s) (activeConnections st)
  ∧ (∀ u, u ≠ userId s →
       activeConnections st' !! u = activeConnections st !! u)
  ∧ (∀ ev data t, (sendToUser (userId s) ev data t st').2 = false)
  ∧ (∀ s2, s2 ∈ open_sockets st → userId s2 = userId s → id s2 ≠ id s →
       s2 ∈ open_sockets st'
       ∧ getUserConnection (userId s2) st' = None).
Proof.
  intros st'. split; [reflexivity|]. split; [|split].
  - intros u Hne. subst st'. rewrite on_disconnect_connections.
    by apply lookup_delete_ne.
  - intros ev data t. unfold sendToUser. subst st'.
    rewrite on_disconnect_connections, lookup_delete_eq. reflexivity.
  - intros s2 Hopen Hu Hne. split.
    + subst st'. rewrite on_disconnect_open_sockets.
      apply list_elem_of_filter. by split.
    + unfold getUserConnection. subst st'.
      rewrite on_disconnect_connections, Hu. apply lookup_delete_eq.
Qed.

(** The phone connects, then the laptop; the phone disconnects. *)
Definition phone_gone : Server :=
  run (Disconnect phone "transport close") 20 two_devices.

Lemma disconnect_deletes_the_entry_of_the_user_witness :
  getUserConnection "u1" two_devices
    = Some {| socketId := "s2"; socket := laptop; connectedAt := 10;
              user := JNull; lastActivity := None; status := None |}
  ∧ laptop ∈ open_sockets phone_gone
  ∧ getUserConnection "u1" phone_gone = None
  ∧ (sendToUser "u1" "goal:updated" [] 30 phone_gone).2 = false.
Proof.
  destruct (disconnect_deletes_the_entry_of_the_user
              two_devices phone "transport close" 20)
    as (_ & _ & Hsend & Hnewer).
  assert (H2 : laptop ∈ open_sockets two_devices) by (simpl; right; left).
  destruct (Hnewer laptop H2 eq_refl) as [Hopen Hnone];
    [discriminate|].
  split; [reflexivity|]. split; [exact Hopen|]. split; [exact Hnone|].
  apply Hsend.
Defined.

(** ** C7 *)

Definition is_presence_update (f : Frame) : bool :=
  match f with
  | presence_update _ => true
  | _ => false
  end.

(** C7 as stated fails: a [health-data:update] frame received 5 s after
    the connection was registered leaves the entry without any
    [lastActivity]. *)
Lemma health_data_frame_records_no_activity :
  lastActivity <$>
    activeConnections
      (on_message phone (health_data_update [("steps", JNum 4000)]) 5000
         one_device) !! "u1"
  = Some None.
Proof. reflexivity. Qed.

(** C7, amended. A [presence:update] frame sets the [lastActivity] of
    the registry entry of the sending socket's user to the time of the
    frame (and its status to the reported status, or to 'active'); every
    other recognized inbound frame leaves the registry, and with it every
    [lastActivity], unchanged. *)
Theorem only_presence_update_records_activity (st : Server) (s : Socket)
    (f : Frame) (now : Z) :
  (∀ data c, f = presence_update data →
     activeConnections st !! userId s = Some c →
     activeConnections (on_message s f now st) !! userId s
       = Some (touch data now c)
     ∧ lastActivity (touch data now c) = Some now)
  ∧ (is_presence_update f = false →
     activeConnections (on_message s f now st) = activeConnections st).
Proof.
  rewrite on_message_connections. split.
  - intros data c -> Hc. rewrite Hc, lookup_insert_eq. done.
  - destruct f; simpl; done.
Qed.

Lemma only_presence_update_records_activity_witness :
  (lastActivity <$>
     activeConnections
       (on_message phone (presence_update [("status", JStr "away")]) 5000
          one_device) !! "u1"
   = Some (Some 5000))
  ∧ activeConnections
      (on_message phone (goal_progress [("goalId", JStr "g1")]) 5000
         one_device)
    = activeConnections one_device.
Proof.
  split.
  - destruct (proj1 (only_presence_update_records_activity one_device phone
                       (presence_update [("status", JStr "away")]) 5000)
                [("status", JStr "away")]
                {| socketId := "s1"; socket := phone; connectedAt := 0;
                   user := JNull; lastActivity := None; status := None |}
                eq_refl eq_refl) as [H _].
    exact (f_equal (fmap lastActivity) H).
  - apply (proj2 (only_presence_update_records_activity one_device phone
                    (goal_progress [("goalId", JStr "g1")]) 5000)).
    reflexivity.
Defined.

(** ** C8 *)

Lemma cleanup_connections (now : Z) (st : Server) :
  consistent st →
  activeConnections (cleanup now st)
    = swept now (map_to_list (activeConnections st)) (activeConnections st).
Proof.
  intros [_ Huser _ _]. unfold cleanup.
  apply cleanup_fold_connections.
  intros u c Hin%elem_of_map_to_list. eauto.
Qed.

(** The phone connects at 0 and the watch one second later. The phone
    reports its presence after 4 minutes; the watch reports its presence
    at 34 minutes 59 seconds. *)
Definition heartbeats : Server :=
  run (Receive watch (presence_update [("status", JStr "away")])) 2099000
    (run (Receive phone (presence_update [])) 240000
       (run (Connect watch) 1000 one_device)).

Lemma reachable_heartbeats : reachable heartbeats.
Proof.
  apply reachable_step; [apply reachable_step; [apply reachable_step|]|].
  - apply reachable_one_device.
  - fresh_id.
  - simpl. left.
  - cbn [enabled run]. rewrite on_message_open_sockets. simpl. right. left.
Defined.

(** C8. The timer runs a sweep every 5 minutes. After one sweep, whose
    idle threshold is 30 minutes, every connection whose last recorded
    activity (its last [presence:update], or its registration when it has
    sent none) is more than 30 minutes old is absent from the registry, and
    every connection whose last recorded activity is within the threshold
    is still present, unchanged. *)
Theorem sweep_removes_exactly_the_idle (st : Server) (t0 : Z) (n : nat) :
  reachable st →
  let now := t0 + (Z.of_nat n + 1) * (5 * 60 * 1000) in
  interval_sweep t0 n st = run Sweep now st
  ∧ ∀ u c, getUserConnection u st = Some c →
      let last :=
        match lastActivity c with
        | Some t => t
        | None => connectedAt c
        end in
      (30 * 60 * 1000 < now - last →
         getUserConnection u (interval_sweep t0 n st) = None)
      ∧ (now - last ≤ 30 * 60 * 1000 →
         getUserConnection u (interval_sweep t0 n st) = Some c).
Proof.
  intros Hst%reachable_consistent now. split; [reflexivity|].
  intros u c Hc last.
  unfold getUserConnection, interval_sweep in *. simpl run.
  change (sweep_time t0 n) with now.
  assert (Hlast : last_recorded_activity c = last).
  { unfold last_recorded_activity, last. by destruct (lastActivity c). }
  rewrite (cleanup_connections now st Hst). split.
  - intros Hidle. apply (swept_lookup_stale now _ _ u c).
    + by apply elem_of_map_to_list.
    + unfold inactive. rewrite Hlast. by apply Z.ltb_lt.
  - intros Hlive. rewrite swept_lookup_fresh; [done|].
    intros c' Hin%elem_of_map_to_list.
    assert (c' = c) as -> by congruence.
    unfold inactive. rewrite Hlast. by apply Z.ltb_ge.
Qed.

(** The seventh sweep of a timer armed at 0 runs at minute 35. The phone,
    last heard of 31 minutes before, is swept; the watch, registered for
    almost 35 minutes but heard of one second before, is kept. *)
Lemma sweep_removes_exactly_the_idle_witness :
  getUserConnection "u1" (interval_sweep 0 6 heartbeats) = None
  ∧ getUserConnection "u2" (interval_sweep 0 6 heartbeats)
    = Some {| socketId := "s4"; socket := watch; connectedAt := 1000;
              user := JNull; lastActivity := Some 2099000;
              status := Some (JStr "away") |}.
Proof.
  pose proof (proj2 (sweep_removes_exactly_the_idle heartbeats 0 6
                       reachable_heartbeats)) as Hsweep.
  split.
  - apply (proj1 (Hsweep "u1"
                    {| socketId := "s1"; socket := phone; connectedAt := 0;
                       user := JNull; lastActivity := Some 240000;
                       status := Some (JStr "active") |} eq_refl)).
    vm_compute. reflexivity.
  - apply (proj2 (Hsweep "u2" _ eq_refl)).
    vm_compute. discriminate.
Defined.

End SocketFacts.

(** ** The goal routes *)

Module RouteFacts.

Import SocketHandler GoalRoutes.
Import SocketFacts GoalFacts.

Lemma delivered_nothing (st : Server) : delivered st st = [].
Proof. unfold delivered. apply drop_all. Qed.

(** Two calls of [sendToUser] in a row for a user with a registered
    connection. *)
Lemma sendToUser_twice (st : Server) (u ev1 ev2 : string)
    (data1 data2 : list (string * Json)) (now : Z) (c : Connection) :
  getUserConnection u st = Some c →
  (λ d, (recipient d, event d)) <$>
    delivered st
      (sendToUser u ev2 data2 now (sendToUser u ev1 data1 now st).1).1
  = [(id (socket c), ev1); (id (socket c), ev2)].
Proof.
  unfold getUserConnection. intros Hc. unfold sendToUser at 2.
  rewrite Hc. simpl fst. unfold sendToUser. simpl activeConnections.
  rewrite Hc. unfold delivered. simpl.
  rewrite <- app_assoc, drop_app_length. reflexivity.
Qed.

Lemma sendToUser_unregistered (st : Server) (u ev : string)
    (data : list (string * Json)) (now : Z) :
  getUserConnection u st = None → (sendToUser u ev data now st).1 = st.
Proof. unfold getUserConnection, sendToUser. by intros ->. Qed.

Lemma complete_status (note : option string) (now : Z) (g : Goal.t) :
  Goal.status (Goal.complete note now g) = Goal.completed.
Proof.
  unfold Goal.complete, Goal.save. apply pre_save_completed.
  destruct note as [n|]; [destruct (truthy_string n)|]; reflexivity.
Qed.

Lemma pause_status (reason : option string) (now : Z) (g : Goal.t) :
  Goal.status (Goal.pause reason now g) = Goal.paused.
Proof.
  unfold Goal.pause, Goal.save.
  match goal with
  | |- Goal.status (Goal.pre_save now ?g') = _ =>
      assert (Hs : Goal.status g' = Goal.paused)
        by (destruct reason as [r|]; [destruct (truthy_string r)|];
            reflexivity);
      destruct (pre_save_status now g') as [E|[E _]]; congruence
  end.
Qed.

Lemma resume_status (now : Z) (g : Goal.t) :
  Goal.status (Goal.resume now g) = Goal.active
  ∨ Goal.status (Goal.resume now g) = Goal.completed.
Proof.
  unfold Goal.resume, Goal.save.
  destruct (pre_save_status now (Goal.set_status Goal.active g))
    as [E|[_ E]]; auto.
Qed.

(** ** C3 *)

(** Without a registered connection the request emits nothing. *)
Lemma progress_unobserved_without_connection (st : Server) (goal : Goal.t)
    (userId : string) (body : ProgressBody) (now : Z) :
  getUserConnection userId st = None →
  (put_progress userId body now st goal).1.1 = st.
Proof.
  intros Hnone. unfold put_progress.
  destruct (updateProgress_schema body), (body_value body); try done.
  cbn [fst]. destruct (is_completed _);
    rewrite ?(sendToUser_unregistered st userId _ _ now Hnone); done.
Qed.

(** [PUT /:id/progress] with the body [{value: 65}]. *)
Definition reach_target : ProgressBody :=
  {| body_value := Some 65%Q; body_note := None |}.

(** C3 as stated fails: the goal is completed and nobody observes any
    event. The laptop of the user is connected, but the registry entry of
    the user went with the disconnect of the phone; the same goes for a
    user who is not connected at all. *)
Lemma progress_reaches_target_unobserved :
  open_sockets phone_gone = [laptop]
  ∧ (let '(st', goal', resp) :=
       put_progress "u1" reach_target 30 phone_gone sample_goal in
     resp = Success goal'
     ∧ Goal.status goal' = Goal.completed
     ∧ delivered phone_gone st' = [])
  ∧ (let '(st', goal', resp) :=
       put_progress "u1" reach_target 30 empty_server sample_goal in
     resp = Success goal'
     ∧ Goal.status goal' = Goal.completed
     ∧ delivered empty_server st' = []).
Proof. vm_compute. repeat split. Qed.

(** C3, amended. For an active goal of type target with a positive
    target value, [PUT /:id/progress] with a valid value
    [v >= target.value] stores the goal as completed and calls
    [sendToUser] twice, for [goal:progress-updated] and then for
    [goal:completed]. The connection registered for the user receives
    exactly these two events in this order; when no connection is
    registered for the user, nobody receives anything. The percentage of
    the hook is 100 in double precision too. *)
Theorem progress_reaching_target_completes_and_publishes_in_order
    (st : Server) (goal : Goal.t) (userId : string) (body : ProgressBody)
    (v tv : Q) (now : Z) :
  Goal.type goal = Goal.type_target →
  Goal.target_value (Goal.target goal) = Some tv →
  (0 < tv)%Q →
  Goal.status goal = Goal.active →
  body_value body = Some v →
  (tv <= v)%Q →
  updateProgress_schema body = true →
  let '(st', goal', resp) := put_progress userId body now st goal in
  resp = Success goal'
  ∧ goal' = Goal.updateProgress v (body_note body) now goal
  ∧ Goal.status goal' = Goal.completed
  ∧ Goal.percentage64 v tv = Float64.Finite 100
  ∧ (∃ data1 data2,
       st' = (sendToUser userId "goal:completed" data2 now
                (sendToUser userId "goal:progress-updated" data1 now st).1).1)
  ∧ (λ d, (recipient d, event d)) <$> delivered st st'
    = match getUserConnection userId st with
      | Some c => [(id (socket c), "goal:progress-updated");
                   (id (socket c), "goal:completed")]
      | None => []
      end.
Proof.
  intros Hty Htv Hpos Hact Hval Hreach Hschema.
  pose proof (progress_unobserved_without_connection st goal userId body now)
    as Hnone.
  unfold put_progress in *. rewrite Hschema, Hval in *.
  assert (Hdone : Goal.status
                    (Goal.updateProgress v (body_note body) now goal)
                  = Goal.completed).
  { destruct (updateProgress_target v (body_note body) now goal tv
                Hty Htv Hpos) as [_ ->].
    rewrite (compute_percentage_reached v tv Hpos Hreach), Hact.
    reflexivity. }
  unfold is_completed in *. rewrite Hdone in *.
  simpl Goal.Status_eqb in *. cbv iota in *. cbn [fst] in Hnone.
  split; [done|]. split; [done|]. split; [done|].
  split; [by apply Float64Facts.percentage64_reached|].
  split; [by do 2 eexists|].
  destruct (getUserConnection userId st) as [c|] eqn:Hc.
  - by apply sendToUser_twice.
  - rewrite (Hnone eq_refl). by rewrite delivered_nothing.
Qed.

Lemma progress_reaching_target_completes_and_publishes_in_order_witness :
  let '(st', goal', resp) :=
    put_progress "u1" reach_target 30 two_devices sample_goal in
  resp = Success goal'
  ∧ goal' = Goal.updateProgress 65 None 30 sample_goal
  ∧ Goal.status goal' = Goal.completed
  ∧ Goal.percentage64 65 65 = Float64.Finite 100
  ∧ (∃ data1 data2,
       st' = (sendToUser "u1" "goal:completed" data2 30
                (sendToUser "u1" "goal:progress-updated" data1 30
                   two_devices).1).1)
  ∧ (λ d, (recipient d, event d)) <$> delivered two_devices st'
    = [("s2", "goal:progress-updated"); ("s2", "goal:completed")].
Proof.
  exact (progress_reaching_target_completes_and_publishes_in_order
           two_devices sample_goal "u1" reach_target 65 65 30
           eq_refl eq_refl eq_refl eq_refl eq_refl (Qle_refl 65) eq_refl).
Defined.

(** ** C4 *)

(** C4. [PUT /:id/complete] on a goal that is already completed answers
    with an error, leaves status and percentage (the whole document)
    unchanged and emits nothing; so does [PUT /:id/resume] on a goal
    that is not paused. *)
Theorem invalid_transitions_are_rejected_without_effect (st : Server)
    (goal : Goal.t) (userId : string) (now : Z) :
  (Goal.status goal = Goal.completed → ∀ note,
     let '(st', goal', resp) := put_complete userId note now st goal in
     resp = Failure 400 "Goal is already completed"
     ∧ Goal.status goal' = Goal.status goal
     ∧ Goal.percentage (Goal.progress goal')
       = Goal.percentage (Goal.progress goal)
     ∧ goal' = goal
     ∧ delivered st st' = [] ∧ st' = st)
  ∧ (Goal.status goal ≠ Goal.paused →
     let '(st', goal', resp) := put_resume userId now st goal in
     resp = Failure 400 "Only paused goals can be resumed"
     ∧ Goal.status goal' = Goal.status goal
     ∧ Goal.percentage (Goal.progress goal')
       = Goal.percentage (Goal.progress goal)
     ∧ goal' = goal
     ∧ delivered st st' = [] ∧ st' = st).
Proof.
  split.
  - intros Hdone note. unfold put_complete, is_completed.
    rewrite Hdone. simpl. by rewrite delivered_nothing.
  - intros Hnp. unfold put_resume.
    apply Status_eqb_neq in Hnp. rewrite Hnp. simpl.
    by rewrite delivered_nothing.
Qed.

(** The sample goal once completed at 50 ms. *)
Definition finished_goal : Goal.t := Goal.complete None 50 sample_goal.

Lemma invalid_transitions_are_rejected_without_effect_witness :
  put_complete "u1" (Some "again") 60 two_devices finished_goal
    = (two_devices, finished_goal, Failure 400 "Goal is already completed")
  ∧ put_resume "u1" 60 two_devices finished_goal
    = (two_devices, finished_goal,
       Failure 400 "Only paused goals can be resumed").
Proof.
  destruct (invalid_transitions_are_rejected_without_effect
              two_devices finished_goal "u1" 60) as [Hc Hr].
  split.
  - specialize (Hc eq_refl (Some "again")).
    destruct (put_complete _ _ _ _ _) as [[st' g'] r].
    destruct Hc as (-> & _ & _ & -> & _ & ->). reflexivity.
  - assert (Hnp : Goal.status finished_goal ≠ Goal.paused) by discriminate.
    specialize (Hr Hnp).
    destruct (put_resume _ _ _ _) as [[st' g'] r].
    destruct Hr as (-> & _ & _ & -> & _ & ->). reflexivity.
Defined.

(** ** C5 *)

(** [PUT /:id] with the body [{status: 'active'}]. *)
Definition reopen : UpdateBody :=
  {| body_priority := None; body_status := Some Goal.active;
     body_notes := None |}.

(** C5 as stated fails: [PUT /:id] with [{status: 'active'}] moves a
    completed goal back to active, and does so without going through any
    transition method. *)
Lemma update_reopens_a_completed_goal :
  Goal.status finished_goal = Goal.completed
  ∧ update_schema reopen = true
  ∧ Goal.status (handle "u1" (PutUpdate reopen) 60 two_devices
                   finished_goal).1.2
    = Goal.active.
Proof. repeat split. Qed.

(** What one request that goes through a transition method can do to
    the status. *)
Lemma transition_status (userId : string) (r : Request) (now : Z)
    (st : Server) (goal : Goal.t) :
  is_transition r = true →
  let goal' := (handle userId r now st goal).1.2 in
  Goal.status goal' = Goal.status goal
  ∨ Goal.status goal' = Goal.completed
  ∨ (Goal.status goal = Goal.active ∧ Goal.status goal' = Goal.paused)
  ∨ (Goal.status goal = Goal.paused ∧ Goal.status goal' = Goal.active).
Proof.
  destruct r as [body|body|note|reason|]; simpl; [done| | | |]; intros _.
  - unfold put_progress.
    destruct (updateProgress_schema body), (body_value body) as [v|];
      simpl; auto.
    destruct (updateProgress_status v (body_note body) now goal)
      as [E|[_ E]]; auto.
  - unfold put_complete. destruct (is_completed goal); simpl; auto.
    destruct (Goal.save_rejected _ _); cbn [fst snd]; auto.
    right. left. apply complete_status.
  - unfold put_pause.
    destruct (Goal.Status_eqb (Goal.status goal) Goal.active) eqn:E;
      simpl; auto.
    destruct (Goal.save_rejected _ _); cbn [fst snd]; auto.
    apply Status_eqb_eq in E. right. right. left.
    split; [done|apply pause_status].
  - unfold put_resume.
    destruct (Goal.Status_eqb (Goal.status goal) Goal.paused) eqn:E;
      simpl; auto.
    apply Status_eqb_eq in E.
    destruct (resume_status now goal) as [H|H]; [|by right; left].
    right. right. right. by split.
Qed.

(** C5, amended. Under every sequence of progress, complete, pause and
    resume requests a completed goal stays completed, and each such
    request either keeps the status, or completes the goal, or pauses an
    active goal, or resumes a paused one. The general update [PUT /:id]
    is outside this discipline: it stores whichever of the five statuses
    its body carries, whatever the current status. *)
Theorem completed_is_terminal_for_transitions_only (userId : string) :
  (∀ rs st goal,
     Forall (λ rn : Request * Z, is_transition rn.1 = true) rs →
     Goal.status goal = Goal.completed →
     Goal.status (serve userId rs st goal).2 = Goal.completed)
  ∧ (∀ r now st goal,
       is_transition r = true →
       let goal' := (handle userId r now st goal).1.2 in
       Goal.status goal' = Goal.status goal
       ∨ Goal.status goal' = Goal.completed
       ∨ (Goal.status goal = Goal.active
          ∧ Goal.status goal' = Goal.paused)
       ∨ (Goal.status goal = Goal.paused
          ∧ Goal.status goal' = Goal.active))
  ∧ (∀ body s now st goal,
       update_schema body = true →
       body_status body = Some s →
       Goal.status (handle userId (PutUpdate body) now st goal).1.2 = s).
Proof.
  split; [|split].
  - induction rs as [|[r now] rs IH]; intros st goal Hrs Hdone; [done|].
    apply Forall_cons in Hrs as [Hr Hrs]. simpl.
    pose proof (transition_status userId r now st goal Hr) as Hstep.
    destruct (handle userId r now st goal) as [[st' goal'] resp].
    simpl in Hstep. apply IH; [done|].
    destruct Hstep as [E|[E|[[E _]|[E _]]]]; congruence.
  - intros r now st goal. apply transition_status.
  - intros body s now st goal Hvalid Hs. simpl. unfold put_update.
    rewrite Hvalid. simpl. unfold findByIdAndUpdate. rewrite Hs.
    destruct (body_notes body); reflexivity.
Qed.

Lemma completed_is_terminal_for_transitions_only_witness :
  Goal.status
    (serve "u1"
       [(PutResume, 60);
        (PutProgress {| body_value := Some 10%Q; body_note := None |}, 70);
        (PutPause (Some "rest"), 80);
        (PutComplete None, 90)]
       two_devices finished_goal).2
  = Goal.completed
  ∧ Goal.status (handle "u1" (PutUpdate reopen) 60 two_devices
                   finished_goal).1.2
    = Goal.active.
Proof.
  destruct (completed_is_terminal_for_transitions_only "u1")
    as (Hterm & _ & Hupd).
  split.
  - apply Hterm; [|reflexivity].
    repeat (constructor; [reflexivity|]). constructor.
  - apply Hupd; reflexivity.
Defined.

(** ** C9 *)

(** C9. Every call of [updateProgress(v, note)] comes from
    [PUT /:id/progress], whose schema lets a note through only when it is a
    non-empty string. The record [{value: v, achievedAt: now, note}] is
    appended to [progress.milestones] if and only if a note is supplied or
    [v] is an exact multiple of 10; otherwise the list of milestones is
    unchanged. *)
Theorem milestone_appended_iff_note_or_tenth (st : Server) (goal : Goal.t)
    (userId : string) (body : ProgressBody) (v : Q) (now : Z) :
  updateProgress_schema body = true →
  body_value body = Some v →
  let goal' := (put_progress userId body now st goal).1.2 in
  goal' = Goal.updateProgress v (body_note body) now goal
  ∧ (is_Some (body_note body) ∨ (∃ k : Z, (v == inject_Z (10 * k))%Q) →
     Goal.milestones (Goal.progress goal')
       = (Goal.milestones (Goal.progress goal)
            ++ [ {| Goal.value := v; Goal.achievedAt := now;
                    Goal.note := body_note body |} ])%list)
  ∧ (¬ (is_Some (body_note body)
         ∨ (∃ k : Z, (v == inject_Z (10 * k))%Q)) →
     Goal.milestones (Goal.progress goal')
       = Goal.milestones (Goal.progress goal)).
Proof.
  intros Hschema Hval. unfold put_progress. rewrite Hschema, Hval.
  cbn [fst snd]. split; [reflexivity|].
  assert (Hnote : is_Some (body_note body)
                  ↔ ∃ s, body_note body = Some s ∧ s ≠ "").
  { unfold updateProgress_schema in Hschema. rewrite Hval in Hschema.
    apply andb_true_iff in Hschema as [_ Hn].
    destruct (body_note body) as [s|] eqn:E.
    - apply andb_true_iff in Hn as [Hn _].
      split; [intros _|by eauto]. exists s. split; [done|].
      intros ->. discriminate.
    - split; [by intros [? ?]|by intros (? & ? & _)]. }
  rewrite Hnote, updateProgress_milestones, <- milestone_test_iff.
  destruct (truthy_note (body_note body) || Qeq_bool (js_rem v 10) 0);
    split; try done.
Qed.

(** A value of 20 without a note and a value of 7 with a note each add
    their record; a value of 7 without a note adds nothing. *)
Lemma milestone_appended_iff_note_or_tenth_witness :
  Goal.milestones
    (Goal.progress
       (put_progress "u1" {| body_value := Some 20%Q; body_note := None |}
          30 two_devices sample_goal).1.2)
  = [ {| Goal.value := 20%Q; Goal.achievedAt := 30; Goal.note := None |} ]
  ∧ Goal.milestones
      (Goal.progress
         (put_progress "u1"
            {| body_value := Some 7%Q; body_note := Some "halfway" |}
            30 two_devices sample_goal).1.2)
    = [ {| Goal.value := 7%Q; Goal.achievedAt := 30;
           Goal.note := Some "halfway" |} ]
  ∧ Goal.milestones
      (Goal.progress
         (put_progress "u1" {| body_value := Some 7%Q; body_note := None |}
            30 two_devices sample_goal).1.2)
    = [].
Proof.
  split; [|split].
  - apply (milestone_appended_iff_note_or_tenth two_devices sample_goal "u1"
             {| body_value := Some 20%Q; body_note := None |} 20 30
             eq_refl eq_refl).
    right. exists 2. reflexivity.
  - apply (milestone_appended_iff_note_or_tenth two_devices sample_goal "u1"
             {| body_value := Some 7%Q; body_note := Some "halfway" |} 7 30
             eq_refl eq_refl).
    left. by eexists.
  - apply (milestone_appended_iff_note_or_tenth two_devices sample_goal "u1"
             {| body_value := Some 7%Q; body_note := None |} 7 30
             eq_refl eq_refl).
    intros [[s Hs]|[k Hk]]; [discriminate|].
    unfold Qeq in Hk. simpl in Hk. lia.
Defined.

(** ** Remarks *)

(** A note that is the empty string is refused by the schema of the
    route, as is a value beyond [Number.MAX_SAFE_INTEGER]; the goal is left
    as it was. *)
Lemma malformed_progress_is_refused :
  put_progress "u1" {| body_value := Some 7%Q; body_note := Some "" |}
    30 two_devices sample_goal
  = (two_devices, sample_goal, Failure 400 "Validation failed")
  ∧ put_progress "u1"
      {| body_value := Some 10000000000000000%Q; body_note := None |}
      30 two_devices sample_goal
    = (two_devices, sample_goal, Failure 400 "Validation failed").
Proof. split; reflexivity. Qed.

(** The guards against invalid transitions are those of the routes: the
    method [resume()] itself makes a completed goal active again. *)
Lemma resume_method_is_unguarded :
  Goal.status finished_goal = Goal.completed
  ∧ Goal.status (Goal.resume 60 finished_goal) = Goal.active.
Proof. split; reflexivity. Qed.

End RouteFacts.

(** ** More on the socket handler *)

Module SocketMore.

Import SocketHandler SocketFacts.

Local Open Scope list_scope.

(** *** Helpers *)

Lemma delivered_app (st st' : Server) (ds : list Delivery) :
  outbox st' = outbox st ++ ds → delivered st st' = ds.
Proof. intros E. unfold delivered. rewrite E. apply drop_app_length. Qed.

Lemma room_ids_distinct (u : string) (st : Server) :
  NoDup (id <$> open_sockets st) → NoDup (id <$> room u st).
Proof.
  intros Hnd. apply (sublist_NoDup _ _ Hnd).
  apply fmap_sublist, sublist_filter.
Qed.

Lemma filter_keeps_all (l : list Socket) (x : string) :
  x ∉ id <$> l → filter (λ r, id r ≠ x) l = l.
Proof.
  induction l as [|y l IH]; intros Hx; [done|].
  rewrite fmap_cons in Hx. apply not_elem_of_cons in Hx as [Hne Hx].
  rewrite filter_cons, decide_True by done. f_equal. by apply IH.
Qed.

(** Dropping the one socket with the id of [s] from a list of sockets with
    distinct ids. *)
Lemma length_without (l : list Socket) (s : Socket) :
  NoDup (id <$> l) → s ∈ l →
  S (length (filter (λ r, id r ≠ id s) l)) = length l.
Proof.
  induction l as [|x l IH]; intros Hnd Hs.
  - by apply elem_of_nil in Hs.
  - rewrite fmap_cons in Hnd. apply NoDup_cons in Hnd as [Hx Hnd].
    rewrite filter_cons. apply elem_of_cons in Hs as [->|Hs].
    + rewrite decide_False by (intros H; by apply H).
      simpl. f_equal. f_equal. by apply filter_keeps_all.
    + rewrite decide_True.
      * simpl. f_equal. by apply IH.
      * intros E. apply Hx. rewrite E. by apply list_elem_of_fmap_2.
Qed.

(** What a frame adds to the outbox: events for the sender and events for
    the other members of the sender's room. *)
Definition within_room (s : Socket) (st : Server) (d : Delivery) : Prop :=
  recipient d = id s
  ∨ ∃ r, r ∈ room (userId s) st ∧ id r ≠ id s ∧ recipient d = id r.

Lemma to_room_within (s : Socket) (ev : string) (data : Json) (st : Server)
    (d : Delivery) :
  d ∈ (λ r, {| recipient := id r; event := ev; payload := data |})
        <$> filter (λ r, id r ≠ id s) (room (userId s) st) →
  within_room s st d.
Proof.
  intros (r & -> & [Hne Hr]%list_elem_of_filter)%list_elem_of_fmap.
  right. by exists r.
Qed.

Lemma on_message_outbox (s : Socket) (f : Frame) (now : Z) (st : Server) :
  ∃ ds, outbox (on_message s f now st) = outbox st ++ ds
        ∧ ∀ d, d ∈ ds → within_room s st d.
Proof.
  destruct f; simpl;
    try (eexists; split; [reflexivity|]; intros d; apply to_room_within).
  - destruct (truthy _); simpl.
    + eexists. split; [symmetry; apply app_assoc|].
      intros d [Hd|Hd]%elem_of_app; [by eapply to_room_within|].
      apply list_elem_of_singleton in Hd as ->. by left.
    + eexists. split; [reflexivity|]. intros d. apply to_room_within.
  - eexists. split; [symmetry; apply app_assoc|].
    intros d [Hd|Hd]%elem_of_app; [by eapply to_room_within|].
    apply list_elem_of_singleton in Hd as ->. by left.
  - destruct (activeConnections st !! userId s); simpl;
      (eexists; split; [reflexivity|]; intros d; apply to_room_within).
  - destruct (truthy _ && truthy _); simpl.
    + eexists. split; [reflexivity|]. intros d. apply to_room_within.
    + exists []. split; [by rewrite app_nil_r|].
      intros d Hd. by apply elem_of_nil in Hd.
Qed.

(** *** X1 *)

(** X1. At every reachable state each registry entry is filed under the
    user of its socket, names that socket by its id, and its socket is one
    of that user's open sockets; open sockets have pairwise distinct ids
    and [getActiveUsers] lists no user twice. *)
Theorem registry_entries_name_open_sockets (st : Server) :
  reachable st →
  (∀ u c, getUserConnection u st = Some c →
     socket c ∈ room u st ∧ socketId c = id (socket c))
  ∧ NoDup (id <$> open_sockets st)
  ∧ NoDup (getActiveUsers st).
Proof.
  intros [Hopen Huser Hid Hnd]%reachable_consistent. split; [|split].
  - unfold getUserConnection. intros u c Hc. split; [|eauto].
    apply list_elem_of_filter. eauto.
  - done.
  - apply NoDup_fst_map_to_list.
Qed.

Lemma registry_entries_name_open_sockets_witness :
  (∀ u c, getUserConnection u phone_gone = Some c →
     socket c ∈ room u phone_gone ∧ socketId c = id (socket c))
  ∧ NoDup (id <$> open_sockets phone_gone)
  ∧ NoDup (getActiveUsers phone_gone).
Proof.
  apply registry_entries_name_open_sockets.
  apply reachable_step; [apply reachable_two_devices|].
  simpl. left.
Defined.

(** *** X2 *)

(** X2. At a reachable state, what an open socket sends to its room with
    [socket.to(`user:${userId}`).emit] is delivered once to each of the
    other open sockets of the same user: to N - 1 sockets when the user
    has N open sockets, never to the sender and never to a socket of
    another user. *)
Theorem room_emit_reaches_exactly_the_other_devices (st : Server)
    (s : Socket) (ev : string) (data : Json) :
  reachable st →
  s ∈ open_sockets st →
  let ds := delivered st (socket_to_room_emit s ev data st) in
  S (length ds) = length (room (userId s) st)
  ∧ NoDup (recipient <$> ds)
  ∧ ∀ r, r ∈ open_sockets st →
      (id r ∈ recipient <$> ds ↔ userId r = userId s ∧ r ≠ s).
Proof.
  intros [_ _ _ Hnd]%reachable_consistent Hs ds.
  assert (Hds : recipient <$> ds
                = id <$> filter (λ r, id r ≠ id s) (room (userId s) st)).
  { apply socket_to_room_emit_recipients. }
  assert (Hroom : s ∈ room (userId s) st).
  { apply list_elem_of_filter. by split. }
  split; [|split].
  - rewrite <- (length_without (room (userId s) st) s);
      [|by apply room_ids_distinct|done].
    f_equal. rewrite <- (length_fmap recipient), Hds. apply length_fmap.
  - rewrite Hds. apply (sublist_NoDup _ _ (room_ids_distinct (userId s) st Hnd)).
    apply fmap_sublist, sublist_filter.
  - intros r Hr. rewrite Hds. split.
    + intros (r' & Hid & [Hne Hr']%list_elem_of_filter)%list_elem_of_fmap.
      apply list_elem_of_filter in Hr' as [Hu Hr'].
      assert (r = r') as <-
        by (apply (same_id_same_socket (open_sockets st)); done).
      split; [done|]. intros ->. by apply Hne.
    + intros [Hu Hne]. apply list_elem_of_fmap_2, list_elem_of_filter.
      split.
      * intros Hid. apply Hne.
        by apply (same_id_same_socket (open_sockets st)).
      * apply list_elem_of_filter. by split.
Qed.

Lemma room_emit_reaches_exactly_the_other_devices_witness :
  let ds :=
    delivered three_devices
      (socket_to_room_emit laptop "workout:started" JNull three_devices) in
  S (length ds) = length (room "u1" three_devices)
  ∧ NoDup (recipient <$> ds)
  ∧ ∀ r, r ∈ open_sockets three_devices →
      (id r ∈ recipient <$> ds ↔ userId r = "u1" ∧ r ≠ laptop).
Proof.
  apply (room_emit_reaches_exactly_the_other_devices three_devices laptop
           "workout:started" JNull reachable_three_devices).
  simpl. right. left.
Defined.

(** *** X3 *)

(** X3. Whatever frame an open socket sends, every event it causes goes to
    an open socket of the same user, the registry entries of all other
    users are untouched, and no socket is opened or closed. *)
Theorem frames_stay_within_the_user (st : Server) (s : Socket) (f : Frame)
    (now : Z) :
  s ∈ open_sockets st →
  (∀ d, d ∈ delivered st (on_message s f now st) →
     ∃ r, r ∈ room (userId s) st ∧ recipient d = id r)
  ∧ (∀ u, u ≠ userId s →
       getUserConnection u (on_message s f now st) = getUserConnection u st)
  ∧ open_sockets (on_message s f now st) = open_sockets st.
Proof.
  intros Hs. split; [|split].
  - destruct (on_message_outbox s f now st) as (ds & Hout & Hds).
    rewrite (delivered_app _ _ _ Hout). intros d Hd.
    destruct (Hds d Hd) as [E|(r & Hr & _ & E)]; [|by exists r].
    exists s. split; [|done]. apply list_elem_of_filter. by split.
  - intros u Hu. unfold getUserConnection. rewrite on_message_connections.
    destruct f; try done.
    destruct (activeConnections st !! userId s); [|done].
    by rewrite lookup_insert_ne.
  - apply on_message_open_sockets.
Qed.

Lemma frames_stay_within_the_user_witness :
  (∀ d, d ∈ delivered two_users
              (on_message phone (goal_progress [("completed", JBool true)])
                 2000000 two_users) →
     ∃ r, r ∈ room "u1" two_users ∧ recipient d = id r)
  ∧ (∀ u, u ≠ "u1" →
       getUserConnection u
         (on_message phone (goal_progress [("completed", JBool true)])
            2000000 two_users)
       = getUserConnection u two_users)
  ∧ open_sockets
      (on_message phone (goal_progress [("completed", JBool true)])
         2000000 two_users)
    = open_sockets two_users.
Proof.
  apply (frames_stay_within_the_user two_users phone
           (goal_progress [("completed", JBool true)]) 2000000).
  simpl. left.
Defined.

(** *** X4 *)

Lemma sendToAllUsers_outbox (ev : string) (data : list (string * Json))
    (now : Z) (l : list (string * Connection)) (st : Server) :
  outbox
    (foldl
       (λ acc entry,
          socket_emit (socket entry.2) ev
            (JObj (set_field "timestamp" (JDate now) data)) acc)
       st l)
  = outbox st
    ++ ((λ entry,
           {| recipient := id (socket entry.2); event := ev;
              payload := JObj (set_field "timestamp" (JDate now) data) |})
          <$> l).
Proof.
  revert st. induction l as [|e l IH]; intros st; simpl.
  - by rewrite app_nil_r.
  - rewrite IH. simpl. by rewrite <- app_assoc.
Qed.

(** X4. [sendToAllUsers(event, data)] hands [{...data, timestamp}] to the
    socket of every registry entry, once per registered user and to no
    other socket, and leaves the registry and the open sockets as they
    are. *)
Theorem sendToAllUsers_reaches_each_registered_user_once (st : Server)
    (ev : string) (data : list (string * Json)) (now : Z) :
  let st' := sendToAllUsers ev data now st in
  length (delivered st st') = size (activeConnections st)
  ∧ (∀ d, d ∈ delivered st st' ↔
       ∃ u c, getUserConnection u st = Some c
              ∧ d = {| recipient := id (socket c); event := ev;
                       payload :=
                         JObj (set_field "timestamp" (JDate now) data) |})
  ∧ activeConnections st' = activeConnections st
  ∧ open_sockets st' = open_sockets st.
Proof.
  intros st'. subst st'.
  assert (Hout := sendToAllUsers_outbox ev data now
                    (map_to_list (activeConnections st)) st).
  fold (sendToAllUsers ev data now st) in Hout.
  rewrite (delivered_app _ _ _ Hout).
  split; [|split; [|apply sendToAllUsers_connections]].
  - rewrite length_fmap. apply length_map_to_list.
  - intros d. rewrite list_elem_of_fmap. split.
    + intros ([u c] & -> & Hin%elem_of_map_to_list). by exists u, c.
    + intros (u & c & Hc & ->). exists (u, c). split; [done|].
      by apply elem_of_map_to_list.
Qed.

(** *** X5 *)

(** X5. [getActiveUsers()] lists exactly the users for whom
    [getUserConnection] finds an entry; a user is listed right after one of
    their sockets connects and no longer listed right after one of their
    sockets disconnects. *)
Theorem getActiveUsers_lists_the_registered_users (st : Server) :
  (∀ u, u ∈ getActiveUsers st ↔ is_Some (getUserConnection u st))
  ∧ (∀ s now, userId s ∈ getActiveUsers (on_connection s now st))
  ∧ (∀ s reason now,
       userId s ∉ getActiveUsers (on_disconnect s reason now st)).
Proof.
  assert (Hlist : ∀ st' u,
            u ∈ getActiveUsers st' ↔ is_Some (getUserConnection u st')).
  { intros st' u. unfold getActiveUsers, getUserConnection.
    rewrite list_elem_of_fmap. split.
    - intros ([u' c] & -> & Hin%elem_of_map_to_list). by exists c.
    - intros [c Hc]. exists (u, c). split; [done|].
      by apply elem_of_map_to_list. }
  split; [apply Hlist|]. split.
  - intros s now. apply Hlist. unfold getUserConnection. simpl.
    rewrite lookup_insert_eq. by eexists.
  - intros s reason now [c Hc]%Hlist. unfold getUserConnection in Hc.
    rewrite on_disconnect_connections, lookup_delete_eq in Hc. done.
Qed.

(** *** X6 *)

(** X6. A socket that connects and then disconnects leaves its user
    without an entry and the open sockets as they were; if the user had no
    entry before, the whole registry is as it was. Running the
    [disconnect] handler a second time changes neither the registry nor
    the open sockets. *)
Theorem connect_then_disconnect_unregisters (st : Server) (s : Socket)
    (t t' t'' : Z) (reason : string) :
  id s ∉ id <$> open_sockets st →
  let st1 := on_disconnect s reason t' (on_connection s t st) in
  getUserConnection (userId s) st1 = None
  ∧ open_sockets st1 = open_sockets st
  ∧ (getUserConnection (userId s) st = None →
     activeConnections st1 = activeConnections st)
  ∧ activeConnections (on_disconnect s reason t'' st1) = activeConnections st1
  ∧ open_sockets (on_disconnect s reason t'' st1) = open_sockets st1.
Proof.
  intros Hfresh st1.
  assert (Hopen : open_sockets st1 = open_sockets st).
  { subst st1. rewrite on_disconnect_open_sockets. simpl.
    rewrite filter_app, (filter_keeps_all _ _ Hfresh), filter_cons.
    rewrite decide_False by (intros H; by apply H).
    by rewrite filter_nil, app_nil_r. }
  assert (Hreg : activeConnections st1
                 = delete (userId s) (activeConnections st)).
  { subst st1. rewrite on_disconnect_connections. simpl.
    apply map_eq. intros k. destruct (decide (k = userId s)) as [->|Hne].
    - by rewrite !lookup_delete_eq.
    - by rewrite !lookup_delete_ne, lookup_insert_ne. }
  split; [|split; [done|split; [|split]]].
  - unfold getUserConnection. rewrite Hreg. apply lookup_delete_eq.
  - unfold getUserConnection. intros Hnone. rewrite Hreg.
    apply map_eq. intros k. destruct (decide (k = userId s)) as [->|Hne].
    + by rewrite lookup_delete_eq.
    + by rewrite lookup_delete_ne.
  - rewrite on_disconnect_connections, Hreg.
    apply map_eq. intros k. destruct (decide (k = userId s)) as [->|Hne].
    + by rewrite !lookup_delete_eq.
    + by rewrite !lookup_delete_ne.
  - rewrite on_disconnect_open_sockets, Hopen.
    by apply filter_keeps_all.
Qed.

Lemma connect_then_disconnect_unregisters_witness :
  let st1 := on_disconnect watch "transport close" 1900000
               (on_connection watch 1859000 one_device) in
  getUserConnection "u2" st1 = None
  ∧ open_sockets st1 = open_sockets one_device
  ∧ (getUserConnection "u2" one_device = None →
     activeConnections st1 = activeConnections one_device)
  ∧ activeConnections (on_disconnect watch "transport close" 1900001 st1)
    = activeConnections st1
  ∧ open_sockets (on_disconnect watch "transport close" 1900001 st1)
    = open_sockets st1.
Proof.
  apply (connect_then_disconnect_unregisters one_device watch
           1859000 1900000 1900001 "transport close").
  fresh_id.
Defined.

(** *** X7 *)

Lemma cleanup_keeps_only_active (now : Z) (st : Server) (u : string)
    (c : Connection) :
  consistent st →
  activeConnections (cleanup now st) !! u = Some c →
  activeConnections st !! u = Some c ∧ inactive now c = false.
Proof.
  intros Hst. rewrite (cleanup_connections now st Hst). intros Hc.
  destruct (activeConnections st !! u) as [c0|] eqn:E0.
  - destruct (inactive now c0) eqn:Ei.
    + rewrite (swept_lookup_stale now _ _ u c0) in Hc; [done| |done].
      by apply elem_of_map_to_list.
    + rewrite swept_lookup_fresh in Hc.
      * rewrite E0 in Hc. by injection Hc as <-.
      * intros c' Hin%elem_of_map_to_list. congruence.
  - rewrite swept_lookup_fresh in Hc; [congruence|].
    intros c' Hin%elem_of_map_to_list. congruence.
Qed.

Lemma cleanup_keeps_active (now : Z) (st : Server) (u : string)
    (c : Connection) :
  consistent st →
  activeConnections st !! u = Some c → inactive now c = false →
  activeConnections (cleanup now st) !! u = Some c.
Proof.
  intros Hst Hc Hact. rewrite (cleanup_connections now st Hst).
  rewrite swept_lookup_fresh; [done|].
  intros c' Hin%elem_of_map_to_list. congruence.
Qed.

(** A run of the server: actions with the instants at which they
    happen, each one possible when its turn comes. *)
Fixpoint run_all (acts : list (Action * Z)) (st : Server) : Server :=
  match acts with
  | [] => st
  | (a, now) :: rest => run_all rest (run a now st)
  end.

Fixpoint possible (acts : list (Action * Z)) (st : Server) : Prop :=
  match acts with
  | [] => True
  | (a, now) :: rest => enabled a st ∧ possible rest (run a now st)
  end.

(** No socket of the user [u] disconnects. *)
Definition stays_connected (u : string) (a : Action) : Prop :=
  ∀ s reason, a = Disconnect s reason → userId s ≠ u.

(** The last recorded activity of an entry, as the sweep reads it. *)
Definition heard_of (c : Connection) : Z :=
  match lastActivity c with
  | Some t => t
  | None => connectedAt c
  end.

Lemma step_keeps_registered (u : string) (t : Z) (a : Action) (now : Z)
    (st : Server) (c : Connection) :
  reachable st → enabled a st →
  getUserConnection u st = Some c → t ≤ heard_of c →
  t ≤ now ≤ t + 30 * 60 * 1000 →
  stays_connected u a →
  ∃ c', getUserConnection u (run a now st) = Some c' ∧ t ≤ heard_of c'.
Proof.
  intros Hreach Hen Hc Hlast Hnow Hstay. unfold getUserConnection in *.
  destruct a as [s|s f|s reason| |u' ev data|ev data]; cbn [run].
  - simpl. destruct (decide (userId s = u)) as [<-|Hne].
    + rewrite lookup_insert_eq. eexists. split; [done|].
      unfold heard_of. simpl. lia.
    + rewrite lookup_insert_ne by done. eauto.
  - rewrite on_message_connections. destruct f; eauto.
    destruct (activeConnections st !! userId s) as [c0|] eqn:E0; eauto.
    destruct (decide (userId s = u)) as [<-|Hne].
    + rewrite lookup_insert_eq. eexists. split; [done|].
      unfold heard_of. simpl. lia.
    + rewrite lookup_insert_ne by done. eauto.
  - rewrite on_disconnect_connections, lookup_delete_ne; [eauto|].
    by apply (Hstay s reason).
  - exists c. split; [|done].
    apply cleanup_keeps_active; [by apply reachable_consistent|done|].
    unfold inactive, last_recorded_activity, inactiveThreshold.
    apply Z.ltb_ge. unfold heard_of in Hlast.
    destruct (lastActivity c); simpl; lia.
  - destruct (sendToUser_connections u' ev data now st) as [-> _]. eauto.
  - destruct (sendToAllUsers_connections ev data now st) as [-> _]. eauto.
Qed.

Lemma run_keeps_registered (u : string) (t : Z) (acts : list (Action * Z)) :
  ∀ st c,
    reachable st → possible acts st →
    getUserConnection u st = Some c → t ≤ heard_of c →
    Forall (λ a : Action * Z, t ≤ a.2 ≤ t + 30 * 60 * 1000) acts →
    Forall (λ a : Action * Z, stays_connected u a.1) acts →
    ∃ c', getUserConnection u (run_all acts st) = Some c' ∧ t ≤ heard_of c'.
Proof.
  induction acts as [|[a now] acts IH]; intros st c Hreach Hposs Hc Hlast
    Htimes Hstay; simpl.
  - eauto.
  - destruct Hposs as [Hen Hposs].
    apply Forall_cons in Htimes as [Hnow Htimes].
    apply Forall_cons in Hstay as [Ha Hstay].
    destruct (step_keeps_registered u t a now st c) as (c' & Hc' & Hlast');
      try done.
    apply (IH (run a now st) c'); try done.
    by apply reachable_step.
Qed.

(** X7. After a [presence:update] frame the sender's user stays
    registered for the next 30 minutes, whatever happens in between
    (sweeps, frames, new connections, disconnects of other users' sockets),
    unless one of the user's own sockets disconnects: the frame has put
    the time of the frame into the entry, however long ago the connection
    was established, and after every run of actions that all happen within
    30 minutes of the frame the user has an entry whose last recorded
    activity is not older than the frame. *)
Theorem presence_update_postpones_the_sweep (st : Server) (s : Socket)
    (data : list (string * Json)) (t : Z) (c : Connection)
    (acts : list (Action * Z)) :
  reachable st →
  s ∈ open_sockets st →
  getUserConnection (userId s) st = Some c →
  let st1 := on_message s (presence_update data) t st in
  possible acts st1 →
  Forall (λ a : Action * Z, t ≤ a.2 ≤ t + 30 * 60 * 1000) acts →
  Forall (λ a : Action * Z, stays_connected (userId s) a.1) acts →
  getUserConnection (userId s) st1 = Some (touch data t c)
  ∧ ∃ c', getUserConnection (userId s) (run_all acts st1) = Some c'
          ∧ t ≤ heard_of c'.
Proof.
  intros Hreach Hs Hc st1 Hposs Htimes Hstay.
  assert (Hc1 : getUserConnection (userId s) st1 = Some (touch data t c)).
  { unfold getUserConnection in *. subst st1.
    rewrite on_message_connections, Hc. apply lookup_insert_eq. }
  split; [exact Hc1|].
  apply (run_keeps_registered (userId s) t acts st1 (touch data t c));
    try done.
  by apply (reachable_step (Receive s (presence_update data)) t st).
Qed.

(** The phone, connected at 0, reports its presence after 29 minutes.
    The watch connects a minute later and disconnects at minute 50; sweeps
    run at minutes 35, 40 and 59. The phone is still registered. *)
Lemma presence_update_postpones_the_sweep_witness :
  ∃ c', getUserConnection "u1"
          (run_all
             [(Connect watch, 1800000); (Sweep, 2100000); (Sweep, 2400000);
              (Disconnect watch "transport close", 3000000);
              (Sweep, 3540000)]
             (on_message phone (presence_update []) 1740000 one_device))
        = Some c'
        ∧ 1740000 ≤ heard_of c'.
Proof.
  apply (presence_update_postpones_the_sweep one_device phone [] 1740000
           {| socketId := "s1"; socket := phone; connectedAt := 0;
              user := JNull; lastActivity := None; status := None |}
           [(Connect watch, 1800000); (Sweep, 2100000); (Sweep, 2400000);
            (Disconnect watch "transport close", 3000000);
            (Sweep, 3540000)]
           reachable_one_device).
  - simpl. left.
  - reflexivity.
  - split; [fresh_id|]. split; [done|]. split; [done|].
    split; [|done].
    assert (E : open_sockets
                  (run Sweep 2400000
                     (run Sweep 2100000
                        (run (Connect watch) 1800000
                           (on_message phone (presence_update []) 1740000
                              one_device))))
                = [phone; watch]) by (vm_compute; reflexivity).
    cbn [enabled]. rewrite E. right. left.
  - repeat (constructor; [simpl; lia|]). constructor.
  - repeat (constructor; [intros s' reason [= <- _]; discriminate
                         || intros s' reason [=]|]).
    constructor.
Defined.

(** *** X8 *)

Lemma cleanup_fold_nothing_idle (now : Z) (l : list (string * Connection))
    (st : Server) :
  (∀ u c, (u, c) ∈ l → inactive now c = false) →
  foldl (cleanup_entry now) st l = st.
Proof.
  induction l as [|[u c] l IH]; intros Hl; [done|].
  simpl. rewrite (Hl u c) by left. apply IH.
  intros u' c' Hin. apply (Hl u'). by right.
Qed.

(** X8. At a reachable state a second sweep at the same instant does
    nothing at all: the first one has left no idle entry behind. *)
Theorem sweep_is_idempotent (st : Server) (now : Z) :
  reachable st → cleanup now (cleanup now st) = cleanup now st.
Proof.
  intros Hst%reachable_consistent. unfold cleanup at 1.
  apply cleanup_fold_nothing_idle.
  intros u c Hin%elem_of_map_to_list.
  by destruct (cleanup_keeps_only_active now st u c Hst Hin).
Qed.

Lemma sweep_is_idempotent_witness :
  cleanup 1860000 (cleanup 1860000 two_users) = cleanup 1860000 two_users.
Proof. exact (sweep_is_idempotent two_users 1860000 reachable_two_users). Defined.

(** *** X9 *)

(** X9. A sweep closes the sockets named by idle registry entries and no
    others: a socket is open after the sweep exactly when it was open
    before and is not the socket of an entry that was idle. In particular
    an open socket without an entry of its own is never closed by a
    sweep. *)
Theorem sweep_closes_only_idle_registered_sockets (st : Server) (now : Z)
    (r : Socket) :
  r ∈ open_sockets (cleanup now st) ↔
    r ∈ open_sockets st
    ∧ ∀ u c, getUserConnection u st = Some c → inactive now c = true →
        id r ≠ id (socket c).
Proof.
  unfold cleanup, getUserConnection. rewrite cleanup_fold_open_sockets.
  split; intros [Hr Hl]; (split; [done|]); intros u c Hc.
  - apply (Hl u). by apply elem_of_map_to_list.
  - apply (Hl u). by apply elem_of_map_to_list.
Qed.

End SocketMore.

(** ** More on the goal document *)

Module GoalMore.

Import Goal GoalFacts.

Local Open Scope list_scope.

(** *** Helpers *)

(** The fields the save hook never writes. *)
Lemma pre_save_frame (now : Z) (g : t) :
  type (pre_save now g) = type g
  ∧ target (pre_save now g) = target g
  ∧ current (progress (pre_save now g)) = current (progress g)
  ∧ notes (pre_save now g) = notes g.
Proof.
  unfold pre_save.
  destruct (type g) eqn:Ety, (target_value (target g)) as [tv|],
    (current (progress g)) as [cur|] eqn:Ecur; simpl; auto.
  destruct (truthy_number tv); simpl; auto.
  destruct (Qle_bool 100 _ && _); simpl; auto.
Qed.

(** The hook leaves the goal alone, but for [lastUpdated], when it has no
    ratio to compute. *)
Lemma pre_save_idle (now : Z) (g : t) :
  type g ≠ type_target
  ∨ target_value (target g) = None
  ∨ (∃ tv, target_value (target g) = Some tv ∧ (tv == 0)%Q)
  ∨ current (progress g) = None →
  pre_save now g = set_progress (set_lastUpdated now (progress g)) g.
Proof.
  intros H. unfold pre_save.
  destruct (type g) eqn:Ety, (target_value (target g)) as [tv|] eqn:Etv,
    (current (progress g)) as [cur|] eqn:Ecur; try reflexivity.
  destruct H as [H|[H|[(tv' & [= <-] & H)|H]]]; try done.
  unfold truthy_number. apply Qeq_bool_iff in H. by rewrite H.
Qed.


(** *** X11 *)




(** *** X12 *)

Lemma complete_before_save (note : option string) (now : Z) (g : t) :
  ∃ g3, complete note now g = pre_save now g3
        ∧ type g3 = type g ∧ target g3 = target g
        ∧ current (progress g3) = current (progress g)
        ∧ percentage (progress g3) = 100%Q
        ∧ status g3 = completed ∧ completedAt g3 = Some now.
Proof.
  unfold complete, save.
  destruct note as [n|]; [destruct (truthy_string n)|];
    eexists; (split; [reflexivity|]); simpl; auto 10.
Qed.

(** X12. When its save is accepted, [complete()] leaves the goal
    completed and stamped with the time of the call. The 100 it writes into
    [progress.percentage] survives the save only when the hook has no ratio
    to compute: for a target goal with a positive target value the hook
    overwrites it, and the stored percentage is the one a plain save of the
    goal would store: 0 when [progress.current] is 0, 100 when
    [progress.current] has reached the target. *)
Theorem complete_does_not_force_the_percentage (g : t)
    (note : option string) (now : Z) :
  save_rejected note (complete note now g) = false →
  status (complete note now g) = completed
  ∧ completedAt (complete note now g) = Some now
  ∧ (∀ tv cur, type g = type_target → target_value (target g) = Some tv →
       (0 < tv)%Q → current (progress g) = Some cur →
       percentage (progress (complete note now g))
         = percentage (progress (save now g))
       ∧ ((cur == 0)%Q →
          percentage (progress (complete note now g)) = 0%Q)
       ∧ ((tv <= cur)%Q →
          percentage (progress (complete note now g)) = 100%Q))
  ∧ (type g ≠ type_target →
     percentage (progress (complete note now g)) = 100%Q).
Proof.
  intros _.
  destruct (complete_before_save note now g)
    as (g3 & -> & Hty & Htg & Hcur & Hpct & Hst & Hat).
  split; [by apply pre_save_completed|]. split; [|split].
  - unfold pre_save.
    destruct (type g3), (target_value (target g3)) as [tv|],
      (current (progress g3)) as [cur|]; simpl; try done.
    destruct (truthy_number tv); simpl; try done.
    rewrite Hst. simpl. rewrite andb_false_r. done.
  - intros tv cur Hty' Htv Hpos Hcur'.
    assert (Hp : percentage (progress (pre_save now g3))
                 = compute_percentage cur tv).
    { apply (pre_save_target now g3 tv cur); congruence. }
    rewrite Hp. unfold save.
    destruct (pre_save_target now g tv cur Hty' Htv Hpos Hcur') as [-> _].
    split; [done|]. split.
    + intros Hzero. unfold compute_percentage, Math_round.
      assert (E : (cur / tv * 100 + (1 # 2) == 1 # 2)%Q).
      { rewrite Hzero. unfold Qdiv. ring. }
      by rewrite (Qfloor_comp _ _ E).
    + intros Hreached. by apply compute_percentage_reached.
  - intros Hnt. rewrite pre_save_idle; [done|]. left. congruence.
Qed.

Lemma complete_does_not_force_the_percentage_witness :
  status (complete None 50 sample_goal) = completed
  ∧ percentage (progress (complete None 50 sample_goal)) = 0%Q.
Proof.
  destruct (complete_does_not_force_the_percentage sample_goal None 50
              eq_refl) as (Hst & _ & Hpct & _).
  split; [exact Hst|].
  apply (Hpct 65%Q 0%Q eq_refl eq_refl eq_refl eq_refl). reflexivity.
Defined.

(** *** X13 *)

Lemma updateProgress_frame (v : Q) (note : option string) (now : Z) (g : t) :
  type (updateProgress v note now g) = type g
  ∧ target (updateProgress v note now g) = target g
  ∧ current (progress (updateProgress v note now g)) = Some v
  ∧ notes (updateProgress v note now g) = notes g.
Proof.
  unfold updateProgress, save.
  match goal with
  | |- context [pre_save now ?g'] =>
      destruct (pre_save_frame now g') as (-> & -> & -> & ->)
  end.
  simpl. destruct (truthy_note note || _); auto.
Qed.

(** X13. Reaching the target does not complete a paused goal:
    [updateProgress] stores 100 percent and the goal stays paused. The
    next [resume()] then completes it at once, stamping [completedAt] with
    the time of the resume, instead of making it active. *)
Theorem paused_goal_at_target_completes_on_resume (g : t) (v tv : Q)
    (note : option string) (t1 t2 : Z) :
  type g = type_target →
  target_value (target g) = Some tv →
  (0 < tv)%Q →
  status g = paused →
  (tv <= v)%Q →
  let g1 := updateProgress v note t1 g in
  status g1 = paused
  ∧ percentage (progress g1) = 100%Q
  ∧ status (resume t2 g1) = completed
  ∧ completedAt (resume t2 g1) = Some t2.
Proof.
  intros Hty Htv Hpos Hst Hv g1. subst g1.
  destruct (updateProgress_target v note t1 g tv Hty Htv Hpos) as [Hp Hs].
  destruct (updateProgress_frame v note t1 g) as (Hty1 & Htg1 & Hc1 & _).
  rewrite (compute_percentage_reached v tv Hpos Hv) in Hp, Hs.
  rewrite Hst in Hs.
  change (Qle_bool 100 100 && Status_eqb paused active) with false in Hs.
  revert Hp Hs Hty1 Htg1 Hc1.
  generalize (updateProgress v note t1 g) as g1.
  intros g1 Hp Hs Hty1 Htg1 Hc1.
  split; [done|]. split; [done|].
  unfold resume, save, pre_save. simpl.
  rewrite Hty1, Hty, Htg1, Htv, Hc1, (truthy_number_pos tv Hpos).
  rewrite (compute_percentage_reached v tv Hpos Hv). simpl. done.
Qed.

Lemma paused_goal_at_target_completes_on_resume_witness :
  let g1 := updateProgress 70 None 20 (pause None 10 sample_goal) in
  status g1 = paused
  ∧ percentage (progress g1) = 100%Q
  ∧ status (resume 30 g1) = completed
  ∧ completedAt (resume 30 g1) = Some 30.
Proof.
  apply (paused_goal_at_target_completes_on_resume
           (pause None 10 sample_goal) 70 65 None 20 30);
    reflexivity || discriminate.
Defined.

(** *** X14 *)

(** X14. A save stamps [progress.lastUpdated] with its own time and
    either leaves status and [completedAt] as they are or turns an active
    goal whose stored percentage has reached 100 into a completed one
    stamped with the time of the save. No save changes a status in any
    other way. *)
Theorem save_changes_status_only_by_completing (g : t) (now : Z) :
  lastUpdated (progress (save now g)) = now
  ∧ ((status (save now g) = status g
      ∧ completedAt (save now g) = completedAt g)
     ∨ (status g = active
        ∧ status (save now g) = completed
        ∧ completedAt (save now g) = Some now
        ∧ percentage (progress (save now g)) = 100%Q)).
Proof.
  unfold save, pre_save.
  destruct (type g), (target_value (target g)) as [tv|],
    (current (progress g)) as [cur|]; simpl; auto.
  destruct (truthy_number tv); simpl; auto.
  destruct (Qle_bool 100 (compute_percentage cur tv)) eqn:Ep; simpl; auto.
  destruct (Status_eqb (status g) active) eqn:Es; simpl; auto.
  apply Status_eqb_eq in Es. split; [done|]. right.
  repeat split; try done.
  unfold compute_percentage in *. apply Qle_bool_iff in Ep.
  change 100%Q with (inject_Z 100) in Ep. rewrite <- Zle_Qle in Ep.
  f_equal. change 100%Q with (inject_Z 100). f_equal. lia.
Qed.

(** *** X15 *)

(** X15. Without a ratio to compute, that is when the goal is not of
    type target or its target value is missing or zero, a save changes
    nothing but [progress.lastUpdated]: no division by the target takes
    place, and the percentage and the status stay as they are. *)
Theorem save_without_a_ratio_keeps_percentage_and_status (g : t) (now : Z) :
  type g ≠ type_target
  ∨ target_value (target g) = None
  ∨ (∃ tv, target_value (target g) = Some tv ∧ (tv == 0)%Q) →
  save now g = set_progress (set_lastUpdated now (progress g)) g
  ∧ percentage (progress (save now g)) = percentage (progress g)
  ∧ status (save now g) = status g
  ∧ completedAt (save now g) = completedAt g.
Proof.
  intros H. unfold save. rewrite (pre_save_idle now g); [done|].
  destruct H as [H|[H|H]]; auto.
Qed.

(** A target goal whose target value is 0. *)
Definition aimless_goal : t :=
  {| _id := "g2"; user := "u1"; title := "No target";
     type := type_target; target := {| target_value := Some 0%Q |};
     priority := low; status := active;
     progress := {| current := Some 5%Q; percentage := 0%Q;
                    lastUpdated := 0; milestones := [] |};
     completedAt := None; notes := None |}.

Lemma save_without_a_ratio_keeps_percentage_and_status_witness :
  percentage (progress (save 10 aimless_goal)) = 0%Q
  ∧ status (save 10 aimless_goal) = active.
Proof.
  assert (H : type aimless_goal ≠ type_target
              ∨ target_value (target aimless_goal) = None
              ∨ (∃ tv, target_value (target aimless_goal) = Some tv
                       ∧ (tv == 0)%Q)).
  { right. right. exists 0%Q. split; reflexivity. }
  destruct (save_without_a_ratio_keeps_percentage_and_status
              aimless_goal 10 H) as (_ & Hp & Hs & _).
  split; [exact Hp | exact Hs].
Defined.

End GoalMore.

(** ** More on the goal routes *)

Module RouteMore.

Import SocketHandler GoalRoutes.
Import SocketFacts GoalFacts RouteFacts SocketMore GoalMore.

Local Open Scope list_scope.

(** *** Helpers *)

Lemma string_app_assoc (a b c : string) :
  ((a ++ b) ++ c)%string = (a ++ (b ++ c))%string.
Proof.
  induction a as [|x a IH]; [reflexivity|].
  change (String x ((a ++ b) ++ c)%string = String x (a ++ (b ++ c))%string).
  by rewrite IH.
Qed.

Lemma string_app_nil_r (a : string) : (a ++ "")%string = a.
Proof.
  induction a as [|x a IH]; [reflexivity|].
  change (String x (a ++ "")%string = String x a). by rewrite IH.
Qed.

Lemma append_note_extends (label s text : string) :
  ∃ suffix, Goal.append_note label (Some s) text = (s ++ suffix)%string.
Proof.
  unfold Goal.append_note, truthy_string.
  destruct (String.eqb_spec s "") as [->|Hne]; simpl.
  - by eexists.
  - eexists. reflexivity.
Qed.

(** What one send for the user of a route adds to the outbox. *)
Lemma sendToUser_effect (u ev : string) (data : list (string * Json))
    (now : Z) (st : Server) :
  activeConnections (sendToUser u ev data now st).1 = activeConnections st
  ∧ open_sockets (sendToUser u ev data now st).1 = open_sockets st
  ∧ outbox (sendToUser u ev data now st).1
    = outbox st
      ++ match activeConnections st !! u with
         | Some c =>
             [ {| recipient := id (socket c); event := ev;
                  payload := JObj (set_field "timestamp" (JDate now) data) |} ]
         | None => []
         end.
Proof.
  unfold sendToUser. destruct (activeConnections st !! u); simpl;
    [done|by rewrite app_nil_r].
Qed.

(** The requests, each with what it emits: at most two events, all for
    the connection registered for the user. *)
Lemma handle_outbox (userId : string) (r : Request) (now : Z) (st : Server)
    (goal : Goal.t) :
  activeConnections (handle userId r now st goal).1.1 = activeConnections st
  ∧ open_sockets (handle userId r now st goal).1.1 = open_sockets st
  ∧ ∃ evs : list (string * Json),
      (length evs ≤ 2)%nat
      ∧ outbox (handle userId r now st goal).1.1
        = outbox st
          ++ match activeConnections st !! userId with
             | Some c =>
                 (λ e, {| recipient := id (socket c); event := e.1;
                          payload := e.2 |}) <$> evs
             | None => []
             end.
Proof.
  assert (Hnone : ∃ evs : list (string * Json),
            (length evs ≤ 2)%nat
            ∧ outbox st
              = outbox st
                ++ match activeConnections st !! userId with
                   | Some c =>
                       (λ e, {| recipient := id (socket c); event := e.1;
                                payload := e.2 |}) <$> evs
                   | None => []
                   end).
  { exists []. split; [simpl; lia|].
    destruct (activeConnections st !! userId); by rewrite app_nil_r. }
  assert (Hone : ∀ ev data,
            activeConnections (sendToUser userId ev data now st).1
              = activeConnections st
            ∧ open_sockets (sendToUser userId ev data now st).1
              = open_sockets st
            ∧ ∃ evs : list (string * Json),
                (length evs ≤ 2)%nat
                ∧ outbox (sendToUser userId ev data now st).1
                  = outbox st
                    ++ match activeConnections st !! userId with
                       | Some c =>
                           (λ e, {| recipient := id (socket c);
                                    event := e.1; payload := e.2 |}) <$> evs
                       | None => []
                       end).
  { intros ev data.
    destruct (sendToUser_effect userId ev data now st) as (-> & -> & ->).
    split; [done|]. split; [done|].
    exists [(ev, JObj (set_field "timestamp" (JDate now) data))].
    split; [simpl; lia|]. by destruct (activeConnections st !! userId). }
  destruct r as [body|body|note|reason|]; simpl.
  - unfold put_update. destruct (update_schema body); simpl; [apply Hone|done].
  - unfold put_progress.
    destruct (updateProgress_schema body), (body_value body) as [v|];
      simpl; try done.
    destruct (is_completed _); [|apply Hone].
    match goal with
    | |- context [sendToUser userId ?ev2 ?d2 now
                    (sendToUser userId ?ev1 ?d1 now st).1] =>
        destruct (sendToUser_effect userId ev2 d2 now
                    (sendToUser userId ev1 d1 now st).1) as (-> & -> & ->);
        destruct (sendToUser_effect userId ev1 d1 now st) as (-> & -> & ->);
        split; [done|]; split; [done|];
        exists [(ev1, JObj (set_field "timestamp" (JDate now) d1));
                (ev2, JObj (set_field "timestamp" (JDate now) d2))]
    end.
    split; [simpl; lia|]. rewrite <- app_assoc.
    by destruct (activeConnections st !! userId).
  - unfold put_complete. destruct (is_completed goal); simpl; [done|].
    destruct (Goal.save_rejected _ _); simpl; [done|apply Hone].
  - unfold put_pause. destruct (negb _); simpl; [done|].
    destruct (Goal.save_rejected _ _); simpl; [done|apply Hone].
  - unfold put_resume. destruct (negb _); simpl; [done|apply Hone].
Qed.

(** *** X16 *)

Lemma handle_milestones (userId : string) (r : Request) (now : Z)
    (st : Server) (goal : Goal.t) :
  Goal.milestones (Goal.progress goal)
    `prefix_of` Goal.milestones (Goal.progress (handle userId r now st goal).1.2).
Proof.
  destruct r as [body|body|note|reason|]; cbn [handle].
  - unfold put_update. destruct (update_schema body); cbn [fst snd]; [|done].
    unfold findByIdAndUpdate.
    destruct (body_priority body), (body_status body), (body_notes body);
      done.
  - unfold put_progress.
    destruct (updateProgress_schema body), (body_value body) as [v|];
      cbn [fst snd]; try done.
    rewrite updateProgress_milestones.
    destruct (truthy_note _ || _); [by eexists|done].
  - unfold put_complete. destruct (is_completed goal); cbn [fst snd]; [done|].
    destruct (Goal.save_rejected _ _); cbn [fst snd]; [done|].
    unfold Goal.complete, Goal.save. rewrite pre_save_milestones.
    destruct note as [n|]; [destruct (truthy_string n)|]; done.
  - unfold put_pause. destruct (negb _); cbn [fst snd]; [done|].
    destruct (Goal.save_rejected _ _); cbn [fst snd]; [done|].
    unfold Goal.pause, Goal.save. rewrite pre_save_milestones.
    destruct reason as [n|]; [destruct (truthy_string n)|]; done.
  - unfold put_resume. destruct (negb _); cbn [fst snd]; [done|].
    unfold Goal.resume, Goal.save. by rewrite pre_save_milestones.
Qed.

(** X16. No sequence of requests on a goal ever removes, reorders or
    rewrites a recorded milestone: the milestones the goal had are a prefix
    of the ones it has afterwards. *)
Theorem milestones_are_never_lost (userId : string)
    (rs : list (Request * Z)) (st : Server) (goal : Goal.t) :
  Goal.milestones (Goal.progress goal)
    `prefix_of` Goal.milestones (Goal.progress (serve userId rs st goal).2).
Proof.
  revert st goal. induction rs as [|[r now] rs IH]; intros st goal; [done|].
  simpl. pose proof (handle_milestones userId r now st goal) as Hstep.
  destruct (handle userId r now st goal) as [[st' goal'] resp].
  simpl in Hstep. etrans; [exact Hstep|apply IH].
Qed.

(** *** X17 *)

Lemma transition_notes (userId : string) (r : Request) (now : Z)
    (st : Server) (goal : Goal.t) (s : string) :
  is_transition r = true →
  Goal.notes goal = Some s →
  ∃ suffix,
    Goal.notes (handle userId r now st goal).1.2 = Some (s ++ suffix)%string.
Proof.
  intros Hr Hs.
  assert (Hsame : ∃ suffix, Goal.notes goal = Some (s ++ suffix)%string).
  { exists "". by rewrite string_app_nil_r. }
  destruct r as [body|body|note|reason|]; cbn [handle]; [done| | | |].
  - unfold put_progress.
    destruct (updateProgress_schema body), (body_value body) as [v|];
      cbn [fst snd]; try done.
    by destruct (updateProgress_frame v (body_note body) now goal)
      as (_ & _ & _ & ->).
  - unfold put_complete. destruct (is_completed goal); cbn [fst snd]; [done|].
    destruct (Goal.save_rejected _ _); cbn [fst snd]; [done|].
    unfold Goal.complete, Goal.save.
    match goal with
    | |- context [Goal.pre_save now ?g'] =>
        destruct (pre_save_frame now g') as (_ & _ & _ & ->)
    end.
    destruct note as [n|]; [destruct (truthy_string n)|]; simpl; try done.
    rewrite Hs. destruct (append_note_extends "Completed: " s n) as [x ->].
    by eexists.
  - unfold put_pause. destruct (negb _); cbn [fst snd]; [done|].
    destruct (Goal.save_rejected _ _); cbn [fst snd]; [done|].
    unfold Goal.pause, Goal.save.
    match goal with
    | |- context [Goal.pre_save now ?g'] =>
        destruct (pre_save_frame now g') as (_ & _ & _ & ->)
    end.
    destruct reason as [n|]; [destruct (truthy_string n)|]; simpl; try done.
    rewrite Hs. destruct (append_note_extends "Paused: " s n) as [x ->].
    by eexists.
  - unfold put_resume. destruct (negb _); cbn [fst snd]; [done|].
    unfold Goal.resume, Goal.save.
    match goal with
    | |- context [Goal.pre_save now ?g'] =>
        destruct (pre_save_frame now g') as (_ & _ & _ & ->)
    end.
    done.
Qed.

(** X17. The progress, complete, pause and resume requests only ever add
    to the notes of a goal: whatever sequence of them is served, the notes
    the goal had are the beginning of the notes it has afterwards. A
    general update that carries notes replaces them instead. *)
Theorem transitions_only_append_to_the_notes (userId : string) :
  (∀ rs st goal s,
     Forall (λ rn : Request * Z, is_transition rn.1 = true) rs →
     Goal.notes goal = Some s →
     ∃ suffix,
       Goal.notes (serve userId rs st goal).2 = Some (s ++ suffix)%string)
  ∧ (∀ body n now st goal,
       update_schema body = true → body_notes body = Some n →
       Goal.notes (handle userId (PutUpdate body) now st goal).1.2 = Some n).
Proof.
  split.
  - induction rs as [|[r now] rs IH]; intros st goal s Hrs Hs.
    + exists "". simpl. by rewrite string_app_nil_r.
    + apply Forall_cons in Hrs as [Hr Hrs]. simpl.
      destruct (transition_notes userId r now st goal s Hr Hs) as [x Hx].
      destruct (handle userId r now st goal) as [[st' goal'] resp].
      simpl in Hx. destruct (IH st' goal' _ Hrs Hx) as [y Hy].
      exists (x ++ y)%string. by rewrite Hy, string_app_assoc.
  - intros body n now st goal Hvalid Hn. simpl. unfold put_update.
    rewrite Hvalid. simpl. unfold findByIdAndUpdate. by rewrite Hn.
Qed.

(** The sample goal with a note, paused with a reason and then completed
    with a comment. *)
Lemma transitions_only_append_to_the_notes_witness :
  ∃ suffix,
    Goal.notes
      (serve "u1"
         [(PutPause (Some "injured"), 60); (PutComplete (Some "done"), 70)]
         two_devices (Goal.set_notes (Some "Week 1") sample_goal)).2
    = Some ("Week 1" ++ suffix)%string.
Proof.
  apply (proj1 (transitions_only_append_to_the_notes "u1")).
  - repeat (constructor; [reflexivity|]). constructor.
  - reflexivity.
Defined.

(** *** X18 *)

(** The text [text] fits: appended under [label] to the notes [old], it
    leaves them within the 1000 characters the schema of the goal
    allows. A text that is missing or empty is not appended. *)
Definition fits (label : string) (old text : option string) : Prop :=
  ∀ r, text = Some r → r ≠ "" →
       (String.length (Goal.append_note label old r) ≤ 1000)%nat.

Lemma fits_iff (label : string) (old text : option string) (saved : Goal.t) :
  Goal.notes saved
    = match text with
      | Some r =>
          if truthy_string r then Some (Goal.append_note label old r) else old
      | None => old
      end →
  Goal.save_rejected text saved = false ↔ fits label old text.
Proof.
  intros Hnotes. unfold Goal.save_rejected, Goal.notes_valid, fits.
  rewrite Hnotes. destruct text as [r|]; simpl; [|by split].
  unfold truthy_string. destruct (String.eqb_spec r "") as [->|Hne]; simpl.
  - split; [|done]. by intros _ r [= <-].
  - rewrite negb_false_iff, Nat.leb_le. split.
    + by intros H r' [= <-] _.
    + intros H. by apply H.
Qed.

Lemma pause_rejected_iff (reason : option string) (now : Z) (goal : Goal.t) :
  Goal.save_rejected reason (Goal.pause reason now goal) = false
  ↔ fits "Paused: " (Goal.notes goal) reason.
Proof.
  apply fits_iff. unfold Goal.pause, Goal.save.
  match goal with
  | |- context [Goal.pre_save now ?g'] =>
      destruct (pre_save_frame now g') as (_ & _ & _ & ->)
  end.
  destruct reason as [r|]; [destruct (truthy_string r)|]; reflexivity.
Qed.

Lemma complete_rejected_iff (note : option string) (now : Z) (goal : Goal.t) :
  Goal.save_rejected note (Goal.complete note now goal) = false
  ↔ fits "Completed: " (Goal.notes goal) note.
Proof.
  apply fits_iff. unfold Goal.complete, Goal.save.
  match goal with
  | |- context [Goal.pre_save now ?g'] =>
      destruct (pre_save_frame now g') as (_ & _ & _ & ->)
  end.
  destruct note as [r|]; [destruct (truthy_string r)|]; reflexivity.
Qed.

(** A reason of 1001 characters. *)
Definition long_reason : string := String.concat "" (repeat "z" 1001).

(** X18. A request that the handler refuses, because its body fails the
    schema of the route, because the guard of the transition fails, or
    because the save is rejected for notes beyond 1000 characters, has
    changed nothing: the goal and the server state are returned as they
    were and nothing has been emitted. *)
Theorem rejected_requests_change_nothing (userId : string) (r : Request)
    (now : Z) (st : Server) (goal : Goal.t) (code : Z) (error : string) :
  (handle userId r now st goal).2 = Failure code error →
  (handle userId r now st goal).1 = (st, goal)
  ∧ delivered st (handle userId r now st goal).1.1 = [].
Proof.
  destruct r as [body|body|note|reason|]; cbn [handle].
  - unfold put_update. destruct (update_schema body); cbn [fst snd];
      [done|]. intros _. by rewrite delivered_nothing.
  - unfold put_progress.
    destruct (updateProgress_schema body), (body_value body) as [v|];
      cbn [fst snd]; try done;
      intros _; by rewrite delivered_nothing.
  - unfold put_complete. destruct (is_completed goal); cbn [fst snd];
      [intros _; by rewrite delivered_nothing|].
    destruct (Goal.save_rejected _ _); cbn [fst snd]; [|done].
    intros _. by rewrite delivered_nothing.
  - unfold put_pause. destruct (negb _); cbn [fst snd];
      [intros _; by rewrite delivered_nothing|].
    destruct (Goal.save_rejected _ _); cbn [fst snd]; [|done].
    intros _. by rewrite delivered_nothing.
  - unfold put_resume. destruct (negb _); cbn [fst snd];
      [|done]. intros _. by rewrite delivered_nothing.
Qed.

(** Pausing a completed goal, and pausing an active goal with a reason of
    1001 characters. *)
Lemma rejected_requests_change_nothing_witness :
  (handle "u1" (PutPause (Some "tired")) 60 two_devices finished_goal).1
  = (two_devices, finished_goal)
  ∧ (handle "u1" (PutPause (Some long_reason)) 60 two_devices sample_goal).1
    = (two_devices, sample_goal).
Proof.
  split.
  - apply (rejected_requests_change_nothing "u1" (PutPause (Some "tired")) 60
             two_devices finished_goal 400 "Only active goals can be paused").
    reflexivity.
  - apply (rejected_requests_change_nothing "u1"
             (PutPause (Some long_reason)) 60 two_devices sample_goal
             400 "Validation Error").
    vm_compute. reflexivity.
Defined.

(** *** X19 *)

Definition succeeded (r : Response) : Prop :=
  match r with
  | Success _ => True
  | Failure _ _ => False
  end.

(** X19. Which transition a goal that is valid as stored admits: pausing
    succeeds exactly for an active goal whose notes stay within 1000
    characters once the reason is appended, and leaves it paused; resuming
    succeeds exactly for a paused goal; completing succeeds for every
    status but completed, cancelled and failed goals included, provided
    the notes stay within 1000 characters once the note is appended, and
    leaves the goal completed. *)
Theorem transition_guards (userId : string) (now : Z) (st : Server)
    (goal : Goal.t) :
  Goal.valid goal = true →
  (∀ reason,
     (succeeded (put_pause userId reason now st goal).2
      ↔ Goal.status goal = Goal.active
        ∧ fits "Paused: " (Goal.notes goal) reason)
     ∧ (succeeded (put_pause userId reason now st goal).2 →
        Goal.status (put_pause userId reason now st goal).1.2 = Goal.paused))
  ∧ (succeeded (put_resume userId now st goal).2
     ↔ Goal.status goal = Goal.paused)
  ∧ (∀ note,
       (succeeded (put_complete userId note now st goal).2
        ↔ Goal.status goal ≠ Goal.completed
          ∧ fits "Completed: " (Goal.notes goal) note)
       ∧ (succeeded (put_complete userId note now st goal).2 →
          Goal.status (put_complete userId note now st goal).1.2
          = Goal.completed)).
Proof.
  intros _. split; [|split].
  - intros reason. rewrite <- (pause_rejected_iff reason now goal).
    unfold put_pause.
    cbv zeta.
    destruct (Goal.Status_eqb (Goal.status goal) Goal.active) eqn:E;
      cbn [negb fst snd succeeded].
    + apply Status_eqb_eq in E.
      destruct (Goal.save_rejected reason (Goal.pause reason now goal));
        cbn [fst snd succeeded].
      * split; [|done]. split; [done|]. by intros [_ ?].
      * split; [done|]. intros _. apply pause_status.
    + apply Status_eqb_neq in E. split; [|done].
      split; [done|]. by intros [? _].
  - unfold put_resume.
    destruct (Goal.Status_eqb (Goal.status goal) Goal.paused) eqn:E;
      cbn [negb fst snd succeeded].
    + by apply Status_eqb_eq in E.
    + apply Status_eqb_neq in E. split; [done|]. intros E'. done.
  - intros note. rewrite <- (complete_rejected_iff note now goal).
    unfold put_complete, is_completed. cbv zeta.
    destruct (Goal.Status_eqb (Goal.status goal) Goal.completed) eqn:E;
      cbn [fst snd succeeded].
    + apply Status_eqb_eq in E. split; [|done].
      split; [done|]. by intros [? _].
    + apply Status_eqb_neq in E.
      destruct (Goal.save_rejected note (Goal.complete note now goal));
        cbn [fst snd succeeded].
      * split; [|done]. split; [done|]. by intros [_ ?].
      * split; [done|]. intros _. apply complete_status.
Qed.

(** A goal that was cancelled through the general update. *)
Definition cancelled_goal : Goal.t := Goal.set_status Goal.cancelled sample_goal.

(** A cancelled goal can be completed; an active goal cannot be paused
    with a reason of 1001 characters. *)
Lemma transition_guards_witness :
  Goal.status (put_complete "u1" None 60 two_devices cancelled_goal).1.2
  = Goal.completed
  ∧ ¬ succeeded
        (put_pause "u1" (Some long_reason) 60 two_devices sample_goal).2.
Proof.
  split.
  - destruct (transition_guards "u1" 60 two_devices cancelled_goal eq_refl)
      as (_ & _ & Hc).
    apply (Hc None), (Hc None). split; [discriminate|]. by intros r.
  - destruct (transition_guards "u1" 60 two_devices sample_goal eq_refl)
      as (Hp & _).
    intros [_ Hfit]%(Hp (Some long_reason)).
    assert (Hlen : (String.length
                      (Goal.append_note "Paused: "
                         (Goal.notes sample_goal) long_reason) ≤ 1000)%nat).
    { apply Hfit; [reflexivity|discriminate]. }
    apply Nat.leb_le in Hlen. vm_compute in Hlen. discriminate.
Defined.

(** *** X20 *)

(** X20. Whatever it is asked to do with a goal, a route emits at most
    two events and hands them to one socket only, the one registered for
    the requesting user; with no connection registered for that user it
    leaves the server state exactly as it was. It never changes the
    registry or the open sockets. *)
Theorem goal_routes_notify_the_registered_connection_only
    (userId : string) (r : Request) (now : Z) (st : Server)
    (goal : Goal.t) :
  activeConnections (handle userId r now st goal).1.1 = activeConnections st
  ∧ open_sockets (handle userId r now st goal).1.1 = open_sockets st
  ∧ (length (delivered st (handle userId r now st goal).1.1) ≤ 2)%nat
  ∧ match getUserConnection userId st with
    | Some c =>
        ∀ d, d ∈ delivered st (handle userId r now st goal).1.1 →
             recipient d = id (socket c)
    | None => delivered st (handle userId r now st goal).1.1 = []
    end.
Proof.
  destruct (handle_outbox userId r now st goal)
    as (Hreg & Hopen & evs & Hlen & Hout).
  split; [done|]. split; [done|].
  rewrite (delivered_app _ _ _ Hout). unfold getUserConnection.
  destruct (activeConnections st !! userId) as [c|].
  - split; [by rewrite length_fmap|].
    intros d (e & -> & _)%list_elem_of_fmap. done.
  - split; [simpl; lia|done].
Qed.

(** *** X21 *)

(** X21. The general update writes priority, status and notes and
    nothing else: the progress, [completedAt], the type and the target are
    as before, and the only event it emits is [goal:updated]. A goal set to
    completed this way gets no completion time and no [goal:completed]
    event. *)
Theorem general_update_bypasses_the_completion_bookkeeping
    (userId : string) (body : UpdateBody) (now : Z) (st : Server)
    (goal : Goal.t) :
  update_schema body = true →
  let goal' := (put_update userId body now st goal).1.2 in
  Goal.progress goal' = Goal.progress goal
  ∧ Goal.completedAt goal' = Goal.completedAt goal
  ∧ Goal.type goal' = Goal.type goal
  ∧ Goal.target goal' = Goal.target goal
  ∧ ∀ d, d ∈ delivered st (put_update userId body now st goal).1.1 →
         event d = "goal:updated".
Proof.
  intros Hvalid goal'. subst goal'. unfold put_update. rewrite Hvalid.
  cbn [fst snd].
  assert (Hframe : ∀ b g,
            Goal.progress (findByIdAndUpdate b g) = Goal.progress g
            ∧ Goal.completedAt (findByIdAndUpdate b g) = Goal.completedAt g
            ∧ Goal.type (findByIdAndUpdate b g) = Goal.type g
            ∧ Goal.target (findByIdAndUpdate b g) = Goal.target g).
  { intros b g. unfold findByIdAndUpdate.
    destruct (body_priority b), (body_status b), (body_notes b); done. }
  destruct (Hframe body goal) as (-> & -> & -> & ->).
  repeat (split; [done|]).
  match goal with
  | |- context [sendToUser userId ?ev ?data now st] =>
      destruct (sendToUser_effect userId ev data now st) as (_ & _ & Hout)
  end.
  rewrite (delivered_app _ _ _ Hout).
  intros d Hd. destruct (activeConnections st !! userId).
  - by apply list_elem_of_singleton in Hd as ->.
  - by apply elem_of_nil in Hd.
Qed.

(** [PUT /:id] with the body [{status: 'completed'}]. *)
Definition close_by_update : UpdateBody :=
  {| body_priority := None; body_status := Some Goal.completed;
     body_notes := None |}.

Lemma general_update_bypasses_the_completion_bookkeeping_witness :
  Goal.status (put_update "u1" close_by_update 60 two_devices sample_goal).1.2
  = Goal.completed
  ∧ Goal.completedAt
      (put_update "u1" close_by_update 60 two_devices sample_goal).1.2
    = None
  ∧ event <$>
      delivered two_devices
        (put_update "u1" close_by_update 60 two_devices sample_goal).1.1
    = ["goal:updated"].
Proof.
  destruct (general_update_bypasses_the_completion_bookkeeping
              "u1" close_by_update 60 two_devices sample_goal eq_refl)
    as (_ & Hat & _).
  split; [reflexivity|]. split; [exact Hat|reflexivity].
Defined.

End RouteMore.

(** ** The stored goals *)

Module QueryFacts.

Import GoalQueries.

Local Open Scope list_scope.

(** *** Helpers *)

(** [Math.ceil(a / msPerDay)] for integers, as a pair of bounds. *)
Lemma ceil_days_bounds (a : Z) :
  let k := Math_ceil (inject_Z a / inject_Z msPerDay) in
  (k - 1) * msPerDay < a ≤ k * msPerDay.
Proof.
  intros k.
  assert (Hpos : (0 < inject_Z msPerDay)%Q) by reflexivity.
  pose proof (Qle_ceiling (inject_Z a / inject_Z msPerDay)) as Hle.
  pose proof (Qceiling_lt (inject_Z a / inject_Z msPerDay)) as Hlt.
  fold (Math_ceil (inject_Z a / inject_Z msPerDay)) in Hle, Hlt.
  fold k in Hle, Hlt.
  apply (Qmult_le_compat_r _ _ (inject_Z msPerDay)) in Hle;
    [|by apply Qlt_le_weak].
  apply (Qmult_lt_compat_r _ _ (inject_Z msPerDay)) in Hlt; [|done].
  assert (Hdiv : (inject_Z a / inject_Z msPerDay * inject_Z msPerDay
                  == inject_Z a)%Q).
  { field. discriminate. }
  rewrite Hdiv in Hle, Hlt.
  rewrite <- inject_Z_mult in Hle, Hlt.
  rewrite <- Zle_Qle in Hle. rewrite <- Zlt_Qlt in Hlt. lia.
Qed.

(** Stored goals to try the statements on: created on day 0, due on day
    10 unless said otherwise. *)
Definition day (n : Z) : Z := n * msPerDay.

Definition stored (g : Goal.t) (due : option Z) (created : Z) : Doc :=
  {| goal := g; category := "weight-loss";
     timeframe := {| timeframe_type := monthly; startDate := day 0;
                     endDate := due |};
     createdAt := created |}.

Definition with_priority (p : Goal.Priority) (name : string) : Goal.t :=
  Goal.set_title name (Goal.set_priority p GoalFacts.sample_goal).

(** *** X22 *)

(** X22. [daysRemaining] is [null] exactly for an ongoing goal or a goal
    without end date. Otherwise it is a number of days that is never
    negative: 0 exactly when the end date is not in the future, and else
    the number [k] of days with [(k - 1) days < endDate - now <= k days].
    An overdue goal has 0 days remaining. *)
Theorem daysRemaining_counts_started_days (now : Z) (d : Doc) :
  (daysRemaining now d = None
   ↔ is_ongoing (timeframe_type (timeframe d)) = true
     ∨ endDate (timeframe d) = None)
  ∧ (∀ e, is_ongoing (timeframe_type (timeframe d)) = false →
       endDate (timeframe d) = Some e →
       ∃ k, daysRemaining now d = Some k
            ∧ 0 ≤ k
            ∧ (k = 0 ↔ e ≤ now)
            ∧ (0 < k → (k - 1) * msPerDay < e - now ≤ k * msPerDay))
  ∧ (isOverdue now d = true → daysRemaining now d = Some 0).
Proof.
  assert (Hsome : ∀ e, is_ongoing (timeframe_type (timeframe d)) = false →
            endDate (timeframe d) = Some e →
            ∃ k, daysRemaining now d = Some k
                 ∧ 0 ≤ k
                 ∧ (k = 0 ↔ e ≤ now)
                 ∧ (0 < k → (k - 1) * msPerDay < e - now ≤ k * msPerDay)).
  { intros e Hon He. unfold daysRemaining. rewrite Hon, He.
    pose proof (ceil_days_bounds (e - now)) as Hb. simpl in Hb.
    assert (Hday : 0 < msPerDay) by reflexivity.
    destruct (0 <? Math_ceil (inject_Z (e - now) / inject_Z msPerDay))
      eqn:E.
    - apply Z.ltb_lt in E. eexists. split; [reflexivity|].
      split; [lia|]. split; [|intros _; exact Hb]. split; [lia|].
      intros Hle. exfalso. nia.
    - apply Z.ltb_ge in E. exists 0. split; [reflexivity|].
      split; [lia|]. split; [|lia]. split; [|done]. intros _. nia. }
  split; [|split; [exact Hsome|]].
  - unfold daysRemaining.
    destruct (is_ongoing _); [by split; auto|].
    destruct (endDate _); split; try done; [by intros [|]|auto].
  - unfold isOverdue. destruct (Goal.Status_eqb _ _); [done|]. simpl.
    destruct (is_ongoing _) eqn:Hon; [done|].
    destruct (endDate (timeframe d)) as [e|] eqn:He; [|done].
    intros Hlt%Z.ltb_lt.
    destruct (Hsome e eq_refl eq_refl) as (k & -> & _ & Hk & _).
    f_equal. apply Hk. lia.
Qed.

(** Due on day 10, seen half a day after day 7: three days remain. *)
Lemma daysRemaining_counts_started_days_witness :
  ∃ k, daysRemaining (day 7 + 43200000)
         (stored GoalFacts.sample_goal (Some (day 10)) (day 0)) = Some k
       ∧ 0 ≤ k
       ∧ (k = 0 ↔ day 10 ≤ day 7 + 43200000)
       ∧ (0 < k →
          (k - 1) * msPerDay < day 10 - (day 7 + 43200000) ≤ k * msPerDay).
Proof.
  apply (proj1 (proj2 (daysRemaining_counts_started_days (day 7 + 43200000)
                         (stored GoalFacts.sample_goal (Some (day 10)) (day 0))))
           (day 10)); reflexivity.
Defined.

(** *** X23 *)

Lemma ceil_days_mono (a b : Z) :
  a ≤ b →
  Math_ceil (inject_Z a / inject_Z msPerDay)
  ≤ Math_ceil (inject_Z b / inject_Z msPerDay).
Proof.
  intros Hab. apply Qceiling_resp_le.
  apply Qmult_le_compat_r; [by rewrite <- Zle_Qle|]. discriminate.
Qed.

(** X23. [totalDurationDays] is [null] for an ongoing goal. For a goal
    with an end date that has started and whose end date is not before its
    start, the days remaining never exceed the total duration in days. *)
Theorem days_remaining_never_exceed_the_total (now : Z) (d : Doc) :
  (is_ongoing (timeframe_type (timeframe d)) = true →
   totalDurationDays d = None)
  ∧ (∀ e, is_ongoing (timeframe_type (timeframe d)) = false →
       endDate (timeframe d) = Some e →
       startDate (timeframe d) ≤ now →
       startDate (timeframe d) ≤ e →
       ∃ k t, daysRemaining now d = Some k
              ∧ totalDurationDays d = Some (Num t)
              ∧ 0 ≤ k ≤ t).
Proof.
  split.
  - intros Hon. unfold totalDurationDays. by rewrite Hon.
  - intros e Hon He Hstart Hend.
    unfold daysRemaining, totalDurationDays. rewrite Hon, He.
    do 2 eexists. split; [reflexivity|]. split; [reflexivity|].
    pose proof (ceil_days_mono (e - now) (e - startDate (timeframe d))
                  ltac:(lia)) as Hmono.
    pose proof (ceil_days_bounds (e - startDate (timeframe d))) as Hb.
    simpl in Hb. assert (Hday : 0 < msPerDay) by reflexivity.
    destruct (0 <? _) eqn:E.
    + apply Z.ltb_lt in E. lia.
    + split; [lia|]. nia.
Qed.

Lemma days_remaining_never_exceed_the_total_witness :
  ∃ k t,
    daysRemaining (day 7 + 43200000)
      (stored GoalFacts.sample_goal (Some (day 10)) (day 0)) = Some k
    ∧ totalDurationDays
        (stored GoalFacts.sample_goal (Some (day 10)) (day 0))
      = Some (Num t)
    ∧ 0 ≤ k ≤ t.
Proof.
  apply (proj2 (days_remaining_never_exceed_the_total
                  (day 7 + 43200000)
                  (stored GoalFacts.sample_goal (Some (day 10)) (day 0)))
           (day 10)); try reflexivity; vm_compute; discriminate.
Defined.

(** *** Sorted answers *)

Lemma find_sorted_elem (query : Doc → bool) (order : Doc → Doc → bool)
    (collection : list Doc) (d : Doc) :
  d ∈ find_sorted query order collection ↔ d ∈ collection ∧ query d = true.
Proof.
  unfold find_sorted. rewrite merge_sort_Permutation, list_elem_of_filter.
  rewrite Is_true_true. tauto.
Qed.

Lemma StronglySorted_lookup_lt {A} (R : relation A) (l : list A)
    (i j : nat) (a b : A) :
  StronglySorted R l → (i < j)%nat → l !! i = Some a → l !! j = Some b →
  R a b.
Proof.
  intros Hl. revert i j. induction Hl as [|x l Hl IH Hx]; intros i j Hij Hi Hj.
  - done.
  - destruct j as [|j]; [lia|]. simpl in Hj. destruct i as [|i].
    + simpl in Hi. injection Hi as <-.
      eapply Forall_forall; [exact Hx|]. by eapply list_elem_of_lookup_2.
    + simpl in Hi. apply (IH i j); [lia|done..].
Qed.

(** The place of a priority in the alphabet: critical, high, low, medium. *)
Definition alphabetical (p : Goal.Priority) : Z :=
  match p with
  | Goal.critical => 0
  | Goal.high => 1
  | Goal.low => 2
  | Goal.medium => 3
  end.

Lemma by_priority_then_newest_spec (a b : Doc) :
  by_priority_then_newest a b = true ↔
    alphabetical (Goal.priority (goal b)) < alphabetical (Goal.priority (goal a))
    ∨ (Goal.priority (goal a) = Goal.priority (goal b)
       ∧ createdAt b ≤ createdAt a).
Proof.
  unfold by_priority_then_newest.
  destruct (Goal.priority (goal a)), (Goal.priority (goal b)); simpl;
    rewrite ?Z.leb_le; split; intros H; try done; try lia;
    try (right; split; [done|lia]); try (left; lia);
    destruct H as [H|[H H']]; try lia; try done.
Qed.

Local Instance by_priority_total :
  Total (λ a b, Is_true (by_priority_then_newest a b)).
Proof.
  intros a b. rewrite !Is_true_true, !by_priority_then_newest_spec.
  destruct (Goal.priority (goal a)), (Goal.priority (goal b)); simpl;
    try (left; left; lia); try (right; left; lia);
    destruct (Z.le_ge_cases (createdAt a) (createdAt b));
    [right|left|right|left|right|left|right|left]; right; split; done || lia.
Qed.

Local Instance by_priority_trans :
  Transitive (λ a b, Is_true (by_priority_then_newest a b)).
Proof.
  intros a b c. rewrite !Is_true_true, !by_priority_then_newest_spec.
  intros [H1|[H1 H1']] [H2|[H2 H2']].
  - left. lia.
  - left. rewrite <- H2. lia.
  - left. rewrite H1. lia.
  - right. split; [congruence|lia].
Qed.

(** *** X24 *)

(** X24. [getActiveGoals(userId)] returns the active goals of the user,
    each as often as it is stored, ordered by the text of their priority
    in descending order: medium first, then low, high and critical last;
    goals of equal priority come newest first. A critical goal is never
    listed before a goal of another priority. *)
Theorem active_goals_are_ordered_by_the_text_of_the_priority
    (userId : string) (collection : list Doc) :
  (∀ d, d ∈ getActiveGoals userId collection ↔
          d ∈ collection ∧ Goal.user (goal d) = userId
          ∧ Goal.status (goal d) = Goal.active)
  ∧ length (getActiveGoals userId collection)
    = count_where (λ d, owned_by userId d && has_status Goal.active d)
        collection
  ∧ ∀ i j a b,
      (i < j)%nat →
      getActiveGoals userId collection !! i = Some a →
      getActiveGoals userId collection !! j = Some b →
      alphabetical (Goal.priority (goal b))
        ≤ alphabetical (Goal.priority (goal a))
      ∧ (Goal.priority (goal a) = Goal.critical →
         Goal.priority (goal b) = Goal.critical)
      ∧ (Goal.priority (goal a) = Goal.priority (goal b) →
         createdAt b ≤ createdAt a).
Proof.
  split; [|split].
  - intros d. unfold getActiveGoals. rewrite find_sorted_elem.
    unfold owned_by, has_status.
    rewrite andb_true_iff, String.eqb_eq, GoalFacts.Status_eqb_eq. done.
  - unfold getActiveGoals, find_sorted, count_where.
    by rewrite merge_sort_Permutation.
  - intros i j a b Hij Ha Hb.
    assert (Hab : Is_true (by_priority_then_newest a b)).
    { apply (StronglySorted_lookup_lt
               (λ a b, Is_true (by_priority_then_newest a b))
               (getActiveGoals userId collection) i j a b); [|done..].
      unfold getActiveGoals, find_sorted.
      apply StronglySorted_merge_sort; apply _. }
    apply Is_true_true, by_priority_then_newest_spec in Hab.
    split; [destruct Hab as [H|[-> _]]; lia|]. split.
    + intros Hcrit. rewrite Hcrit in Hab. simpl in Hab.
      destruct Hab as [H|[H _]]; [|done].
      destruct (Goal.priority (goal b)); simpl in H; lia.
    + intros Heq. destruct Hab as [H|[_ H]]; [|done]. rewrite Heq in H. lia.
Qed.

Lemma active_goals_are_ordered_by_the_text_of_the_priority_witness :
  Goal.title ∘ goal <$>
    getActiveGoals "u1"
      [stored (with_priority Goal.critical "a") None 5;
       stored (with_priority Goal.medium "b") None 1;
       stored (with_priority Goal.low "c") None 2;
       stored (with_priority Goal.high "d") None 3;
       stored (with_priority Goal.medium "e") None 9]
  = ["e"; "b"; "c"; "d"; "a"]
  ∧ ∀ i j a b,
      (i < j)%nat →
      getActiveGoals "u1"
        [stored (with_priority Goal.critical "a") None 5;
         stored (with_priority Goal.medium "b") None 1;
         stored (with_priority Goal.low "c") None 2;
         stored (with_priority Goal.high "d") None 3;
         stored (with_priority Goal.medium "e") None 9] !! i = Some a →
      getActiveGoals "u1"
        [stored (with_priority Goal.critical "a") None 5;
         stored (with_priority Goal.medium "b") None 1;
         stored (with_priority Goal.low "c") None 2;
         stored (with_priority Goal.high "d") None 3;
         stored (with_priority Goal.medium "e") None 9] !! j = Some b →
      alphabetical (Goal.priority (goal b))
        ≤ alphabetical (Goal.priority (goal a))
      ∧ (Goal.priority (goal a) = Goal.critical →
         Goal.priority (goal b) = Goal.critical)
      ∧ (Goal.priority (goal a) = Goal.priority (goal b) →
         createdAt b ≤ createdAt a).
Proof.
  split; [reflexivity|].
  apply (active_goals_are_ordered_by_the_text_of_the_priority "u1").
Defined.

(** *** X25 *)

Lemma by_end_date_spec (a b : Doc) (x y : Z) :
  endDate (timeframe a) = Some x → endDate (timeframe b) = Some y →
  by_end_date a b = true ↔ x ≤ y.
Proof.
  intros Ha Hb. unfold by_end_date. rewrite Ha, Hb. apply Z.leb_le.
Qed.

Local Instance by_end_date_total : Total (λ a b, Is_true (by_end_date a b)).
Proof.
  intros a b. unfold by_end_date.
  destruct (endDate (timeframe a)) as [x|], (endDate (timeframe b)) as [y|];
    simpl; auto.
  destruct (Z.le_ge_cases x y); [left|right]; by apply Is_true_true, Z.leb_le.
Qed.

Local Instance by_end_date_trans :
  Transitive (λ a b, Is_true (by_end_date a b)).
Proof.
  intros a b c. unfold by_end_date.
  destruct (endDate (timeframe a)) as [x|], (endDate (timeframe b)) as [y|],
    (endDate (timeframe c)) as [z|]; simpl; try done.
  rewrite !Is_true_true, !Z.leb_le. lia.
Qed.

Lemma daysRemaining_past (now : Z) (d : Doc) (e : Z) :
  is_ongoing (timeframe_type (timeframe d)) = false →
  endDate (timeframe d) = Some e → e ≤ now →
  daysRemaining now d = Some 0.
Proof.
  intros Hon He Hle. unfold daysRemaining. rewrite Hon, He.
  pose proof (ceil_days_bounds (e - now)) as Hb. simpl in Hb.
  assert (Hday : 0 < msPerDay) by reflexivity.
  destruct (0 <? _) eqn:E; [|done].
  apply Z.ltb_lt in E. exfalso. nia.
Qed.

Lemma overdue_query_spec (userId : string) (now : Z) (d : Doc) :
  overdue_query userId now d = true ↔
    Goal.user (goal d) = userId
    ∧ (Goal.status (goal d) = Goal.active
       ∨ Goal.status (goal d) = Goal.paused)
    ∧ is_ongoing (timeframe_type (timeframe d)) = false
    ∧ ∃ e, endDate (timeframe d) = Some e ∧ e < now.
Proof.
  unfold overdue_query, owned_by, has_status.
  rewrite !andb_true_iff, orb_true_iff, negb_true_iff, String.eqb_eq,
    !GoalFacts.Status_eqb_eq.
  destruct (endDate (timeframe d)) as [e|].
  - rewrite Z.ltb_lt. split.
    + intros [[[? ?] ?] ?]. eauto 10.
    + intros (? & ? & ? & e' & [= <-] & ?). done.
  - split; [intros [[[? ?] ?] ?]; done|].
    intros (? & ? & ? & e' & [=] & ?).
Qed.

(** X25. [GET /overdue/list] returns exactly the goals of the user that
    the virtual [isOverdue] calls overdue and that are active or paused,
    the earliest end date first; each of them has 0 days remaining.
    Cancelled and failed goals past their end date are overdue for the
    virtual and yet not listed. *)
Theorem overdue_list_is_the_overdue_goals_still_pending (userId : string)
    (now : Z) (collection : list Doc) :
  (∀ d, d ∈ overdue_list userId now collection ↔
          d ∈ collection
          ∧ Goal.user (goal d) = userId
          ∧ isOverdue now d = true
          ∧ (Goal.status (goal d) = Goal.active
             ∨ Goal.status (goal d) = Goal.paused))
  ∧ (∀ d, d ∈ overdue_list userId now collection →
          daysRemaining now d = Some 0)
  ∧ (∀ i j a b,
       (i < j)%nat →
       overdue_list userId now collection !! i = Some a →
       overdue_list userId now collection !! j = Some b →
       ∃ x y, endDate (timeframe a) = Some x
              ∧ endDate (timeframe b) = Some y ∧ x ≤ y).
Proof.
  split; [|split].
  - intros d. unfold overdue_list.
    rewrite find_sorted_elem, overdue_query_spec. unfold isOverdue.
    split.
    + intros (Hd & Hu & Hs & Hon & e & He & Hlt).
      split; [done|]. split; [done|]. split; [|done].
      rewrite Hon, He, orb_false_r.
      destruct Hs as [-> | ->]; simpl; by apply Z.ltb_lt.
    + intros (Hd & Hu & Hov & Hs). split; [done|]. split; [done|].
      split; [done|].
      destruct (Goal.Status_eqb _ _); [done|]. simpl in Hov.
      destruct (is_ongoing _); [done|]. split; [done|].
      destruct (endDate (timeframe d)) as [e|]; [|done].
      exists e. split; [done|]. by apply Z.ltb_lt.
  - intros d. unfold overdue_list.
    rewrite find_sorted_elem, overdue_query_spec.
    intros (_ & _ & _ & Hon & e & He & Hlt).
    apply (daysRemaining_past now d e); [done..|lia].
  - intros i j a b Hij Ha Hb.
    assert (Hab : Is_true (by_end_date a b)).
    { apply (StronglySorted_lookup_lt (λ a b, Is_true (by_end_date a b))
               (overdue_list userId now collection) i j a b); [|done..].
      unfold overdue_list, find_sorted.
      apply StronglySorted_merge_sort; apply _. }
    apply list_elem_of_lookup_2 in Ha, Hb. unfold overdue_list in Ha, Hb.
    apply find_sorted_elem in Ha as [_ Ha], Hb as [_ Hb].
    apply overdue_query_spec in Ha as (_ & _ & _ & x & Hx & _).
    apply overdue_query_spec in Hb as (_ & _ & _ & y & Hy & _).
    exists x, y. split; [done|]. split; [done|].
    by apply (by_end_date_spec a b x y Hx Hy), Is_true_true.
Qed.

(** Four goals due on day 5, seen on day 7: the active and the paused one
    are listed, the cancelled and the completed one are not. *)
Definition past_due : list Doc :=
  [stored (with_priority Goal.high "run") (Some (day 5)) 1;
   stored (Goal.set_status Goal.paused (with_priority Goal.low "swim"))
     (Some (day 4)) 2;
   stored (Goal.set_status Goal.cancelled (with_priority Goal.low "row"))
     (Some (day 5)) 3;
   stored (Goal.set_status Goal.completed (with_priority Goal.low "walk"))
     (Some (day 5)) 4;
   stored (with_priority Goal.medium "lift") (Some (day 9)) 5].

Lemma overdue_list_is_the_overdue_goals_still_pending_witness :
  Goal.title ∘ goal <$> overdue_list "u1" (day 7) past_due = ["swim"; "run"]
  ∧ (∀ d, d ∈ overdue_list "u1" (day 7) past_due →
          daysRemaining (day 7) d = Some 0).
Proof.
  split; [reflexivity|].
  apply (overdue_list_is_the_overdue_goals_still_pending "u1" (day 7) past_due).
Defined.

(** *** X26 *)

Lemma due_soon_query_spec (userId : string) (now : Z) (d : Doc) :
  due_soon_query userId now d = true ↔
    Goal.user (goal d) = userId
    ∧ Goal.status (goal d) = Goal.active
    ∧ ∃ e, endDate (timeframe d) = Some e ∧ now ≤ e ≤ now + 7 * msPerDay.
Proof.
  unfold due_soon_query, owned_by, has_status.
  rewrite !andb_true_iff, String.eqb_eq, GoalFacts.Status_eqb_eq.
  destruct (endDate (timeframe d)) as [e|].
  - rewrite andb_true_iff, !Z.leb_le.
    change (7 * 24 * 60 * 60 * 1000) with (7 * msPerDay). split.
    + intros [[? ?] [? ?]]. eauto 10.
    + intros (? & ? & e' & [= <-] & ? & ?). done.
  - split; [intros [[? ?] ?]; done|]. intros (? & ? & e' & [=] & ?).
Qed.

(** X26. [GET /due-soon/list] returns exactly the active goals of the
    user whose end date lies within the next seven days, [now] and the
    instant seven days later included. None of them is overdue or on the
    overdue list, and each has between 0 and 7 days remaining (unless its
    timeframe is ongoing, for which there are no days remaining at all). *)
Theorem due_soon_goals_are_not_overdue (userId : string) (now : Z)
    (collection : list Doc) :
  (∀ d, d ∈ due_soon_list userId now collection ↔
          d ∈ collection
          ∧ Goal.user (goal d) = userId
          ∧ Goal.status (goal d) = Goal.active
          ∧ ∃ e, endDate (timeframe d) = Some e
                 ∧ now ≤ e ≤ now + 7 * msPerDay)
  ∧ (∀ d, d ∈ due_soon_list userId now collection →
          isOverdue now d = false
          ∧ (d ∉ overdue_list userId now collection)
          ∧ (is_ongoing (timeframe_type (timeframe d)) = false →
             ∃ k, daysRemaining now d = Some k ∧ 0 ≤ k ≤ 7)).
Proof.
  split.
  - intros d. unfold due_soon_list.
    rewrite find_sorted_elem, due_soon_query_spec. tauto.
  - intros d. unfold due_soon_list.
    rewrite find_sorted_elem, due_soon_query_spec.
    intros (_ & _ & _ & e & He & Hnow & Hweek). split; [|split].
    + unfold isOverdue. destruct (_ || _); [done|]. rewrite He.
      by apply Z.ltb_ge.
    + unfold overdue_list. rewrite find_sorted_elem, overdue_query_spec.
      intros (_ & _ & _ & _ & e' & He' & Hlt). rewrite He in He'.
      injection He' as <-. lia.
    + intros Hon. unfold daysRemaining. rewrite Hon, He.
      pose proof (ceil_days_bounds (e - now)) as Hb. simpl in Hb.
      assert (Hday : 0 < msPerDay) by reflexivity.
      eexists. split; [reflexivity|].
      destruct (0 <? _) eqn:E; [|lia].
      apply Z.ltb_lt in E. split; [lia|]. nia.
Qed.

Lemma due_soon_goals_are_not_overdue_witness :
  Goal.title ∘ goal <$> due_soon_list "u1" (day 7) past_due = ["lift"]
  ∧ (∀ d, d ∈ due_soon_list "u1" (day 7) past_due →
          isOverdue (day 7) d = false
          ∧ (d ∉ overdue_list "u1" (day 7) past_due)
          ∧ (is_ongoing (timeframe_type (timeframe d)) = false →
             ∃ k, daysRemaining (day 7) d = Some k ∧ 0 ≤ k ≤ 7)).
Proof.
  split; [reflexivity|].
  apply (due_soon_goals_are_not_overdue "u1" (day 7) past_due).
Defined.

(** *** The list route *)

Lemma ceil_ratio_bounds (a b : Z) :
  0 < b →
  let k := Math_ceil (inject_Z a / inject_Z b) in
  (k - 1) * b < a ≤ k * b.
Proof.
  intros Hb k.
  assert (Hpos : (inject_Z 0 < inject_Z b)%Q) by (by rewrite <- Zlt_Qlt).
  pose proof (Qle_ceiling (inject_Z a / inject_Z b)) as Hle.
  pose proof (Qceiling_lt (inject_Z a / inject_Z b)) as Hlt.
  fold (Math_ceil (inject_Z a / inject_Z b)) in Hle, Hlt.
  fold k in Hle, Hlt.
  apply (Qmult_le_compat_r _ _ (inject_Z b)) in Hle; [|by apply Qlt_le_weak].
  apply (Qmult_lt_compat_r _ _ (inject_Z b)) in Hlt; [|done].
  assert (Hdiv : (inject_Z a / inject_Z b * inject_Z b == inject_Z a)%Q).
  { field. intros E. rewrite E in Hpos. by apply Qlt_irrefl in Hpos. }
  rewrite Hdiv in Hle, Hlt.
  rewrite <- inject_Z_mult in Hle, Hlt.
  rewrite <- Zle_Qle in Hle. rewrite <- Zlt_Qlt in Hlt. lia.
Qed.

Lemma integer_key_bounds (key : string) (lo hi dflt : Z)
    (q : list (string * Json)) (n : Z) :
  lo ≤ dflt ≤ hi → integer_key key lo hi dflt q = Some n → lo ≤ n ≤ hi.
Proof.
  intros Hd. unfold integer_key.
  destruct (get_field key q) as [[| |x| | | |]|]; try done.
  - destruct (is_integer x); [|done]. simpl.
    destruct (lo <=? Qfloor x) eqn:E1; [|done].
    destruct (Qfloor x <=? hi) eqn:E2; [|done]. simpl.
    intros [= <-]. apply Z.leb_le in E1, E2. lia.
  - by intros [= <-].
Qed.

(** What the validator hands to the route: a page, a limit, a sort
    string, perhaps [fields], and nothing else. *)
Lemma pagination_schema_inv (q v : list (string * Json)) :
  pagination_schema q = Some v →
  ∃ p l s,
    integer_key "page" 1 MAX_SAFE_INTEGER 1 q = Some p
    ∧ integer_key "limit" 1 100 10 q = Some l
    ∧ string_key "sort" (Some "-createdAt") q = Some (Some s)
    ∧ 1 ≤ p ≤ MAX_SAFE_INTEGER ∧ 1 ≤ l ≤ 100
    ∧ get_field "page" v = Some (JNum (inject_Z p))
    ∧ get_field "limit" v = Some (JNum (inject_Z l))
    ∧ get_field "sort" v = Some (JStr s)
    ∧ get_field "status" v = None
    ∧ get_field "category" v = None
    ∧ get_field "priority" v = None.
Proof.
  unfold pagination_schema.
  destruct (integer_key "page" _ _ _ q) as [p|] eqn:Ep; [|done].
  destruct (integer_key "limit" _ _ _ q) as [l|] eqn:El; [|done].
  destruct (string_key "sort" _ q) as [[s|]|] eqn:Es; [|done..].
  destruct (string_key "fields" _ q) as [f|] eqn:Ef; [|done].
  intros [= <-]. exists p, l, s.
  apply integer_key_bounds in Ep; [|by vm_compute].
  apply integer_key_bounds in El; [|by vm_compute].
  destruct f; repeat (split; [done|]); done.
Qed.

(** The answer of [GET /] for a page, a limit and a sort string. *)
Definition answer (sort_by : string → list Doc → list Doc)
    (userId : string) (p l : Z) (s : string) (collection : list Doc)
  : ListResponse :=
  let all := sort_by s (filter (λ d, Is_true (owned_by userId d)) collection) in
  let goals := take (Z.to_nat l) (drop (Z.to_nat ((p - 1) * l)) all) in
  let total := count_where (owned_by userId) collection in
  {| count := length goals;
     pagination_page := p;
     pagination_limit := l;
     pagination_total := total;
     pagination_pages := Math_ceil (inject_Z (Z.of_nat total) / inject_Z l);
     summary :=
       {| summary_total := total;
          summary_active :=
            count_where (λ d, owned_by userId d && has_status Goal.active d)
              collection;
          summary_completed :=
            count_where (λ d, owned_by userId d && has_status Goal.completed d)
              collection;
          summary_paused :=
            count_where (λ d, owned_by userId d && has_status Goal.paused d)
              collection;
          summary_cancelled :=
            count_where (λ d, owned_by userId d && has_status Goal.cancelled d)
              collection;
          summary_failed :=
            count_where (λ d, owned_by userId d && has_status Goal.failed d)
              collection |};
     data := goals |}.

Lemma list_goals_answer (sort_by : string → list Doc → list Doc)
    (userId : string) (q v : list (string * Json)) (collection : list Doc) :
  pagination_schema q = Some v →
  ∃ p l s,
    integer_key "page" 1 MAX_SAFE_INTEGER 1 q = Some p
    ∧ integer_key "limit" 1 100 10 q = Some l
    ∧ string_key "sort" (Some "-createdAt") q = Some (Some s)
    ∧ 1 ≤ p ≤ MAX_SAFE_INTEGER ∧ 1 ≤ l ≤ 100
    ∧ list_goals sort_by userId q collection
      = Some (answer sort_by userId p l s collection).
Proof.
  intros Hv.
  destruct (pagination_schema_inv q v Hv)
    as (p & l & s & Hp & Hl & Hs & Hpb & Hlb & Gp & Gl & Gs & Gst & Gc & Gpr).
  exists p, l, s. repeat (split; [done|]).
  unfold list_goals. rewrite Hv, Gp, Gl, Gs. rewrite !Qfloor_Z.
  unfold optional_filter. rewrite Gst, Gc, Gpr. simpl truthy. cbv iota.
  assert (Hfilter :
            filter (λ d, Is_true (owned_by userId d && true && true && true))
              collection
            = filter (λ d, Is_true (owned_by userId d)) collection).
  { apply list_filter_iff. intros d. by rewrite !andb_true_r. }
  unfold answer, count_where. by rewrite Hfilter.
Qed.

(** *** X27 *)

(** X27. For every query the validator accepts, [GET /] answers with the
    slice of the user's sorted goals that starts at position
    [(page - 1) * limit] and has at most [limit] entries, so that every
    goal is on exactly one page; [pages] is the least number of pages that
    hold them all, and a page after the last one is empty. (The sort may
    order the goals in any way as long as it keeps them all.) *)
Theorem pages_slice_the_sorted_goals
    (sort_by : string → list Doc → list Doc) (userId : string)
    (q v : list (string * Json)) (collection : list Doc) :
  (∀ s l, length (sort_by s l) = length l) →
  pagination_schema q = Some v →
  ∃ p l s r,
    list_goals sort_by userId q collection = Some r
    ∧ pagination_page r = p ∧ pagination_limit r = l
    ∧ 1 ≤ p ∧ 1 ≤ l ≤ 100
    ∧ let all :=
        sort_by s (filter (λ d, Is_true (owned_by userId d)) collection) in
      pagination_total r = length all
      ∧ (pagination_pages r - 1) * l < Z.of_nat (length all)
          ≤ pagination_pages r * l
      ∧ count r = length (data r)
      ∧ (count r ≤ Z.to_nat l)%nat
      ∧ (∀ k, (k < Z.to_nat l)%nat →
           data r !! k = all !! (Z.to_nat ((p - 1) * l) + k)%nat)
      ∧ (pagination_pages r < p → data r = []).
Proof.
  intros Hsort Hv.
  destruct (list_goals_answer sort_by userId q v collection Hv)
    as (p & l & s & _ & _ & _ & Hp & Hl & ->).
  exists p, l, s, (answer sort_by userId p l s collection).
  split; [done|]. split; [done|]. split; [done|]. split; [lia|].
  split; [done|]. simpl.
  assert (Htotal : count_where (owned_by userId) collection
                   = length (sort_by s (filter (λ d, Is_true (owned_by userId d))
                                          collection))).
  { by rewrite Hsort. }
  rewrite Htotal.
  pose proof (ceil_ratio_bounds
                (Z.of_nat (length (sort_by s
                   (filter (λ d, Is_true (owned_by userId d)) collection))))
                l ltac:(lia)) as Hb.
  simpl in Hb.
  split; [done|]. split; [exact Hb|]. split; [done|]. split; [|split].
  - rewrite length_take. lia.
  - intros k Hk. by rewrite lookup_take_lt, lookup_drop.
  - intros Hlast. rewrite drop_ge; [apply take_nil|]. nia.
Qed.

(** A sort that leaves the goals in the order of the collection. *)
Definition keep_order (sort : string) (goals : list Doc) : list Doc := goals.

(** Five goals, two to a page: the third page holds the fifth goal. *)
Lemma pages_slice_the_sorted_goals_witness :
  ∃ p l s r,
    list_goals keep_order "u1"
      [("page", JNum 3); ("limit", JNum 2)]
      [stored (with_priority Goal.critical "a") None 5;
       stored (with_priority Goal.medium "b") None 1;
       stored (with_priority Goal.low "c") None 2;
       stored (with_priority Goal.high "d") None 3;
       stored (with_priority Goal.medium "e") None 9] = Some r
    ∧ pagination_page r = p ∧ pagination_limit r = l
    ∧ 1 ≤ p ∧ 1 ≤ l ≤ 100
    ∧ let all :=
        keep_order s
          (filter (λ d, Is_true (owned_by "u1" d))
             [stored (with_priority Goal.critical "a") None 5;
              stored (with_priority Goal.medium "b") None 1;
              stored (with_priority Goal.low "c") None 2;
              stored (with_priority Goal.high "d") None 3;
              stored (with_priority Goal.medium "e") None 9]) in
      pagination_total r = length all
      ∧ (pagination_pages r - 1) * l < Z.of_nat (length all)
          ≤ pagination_pages r * l
      ∧ count r = length (data r)
      ∧ (count r ≤ Z.to_nat l)%nat
      ∧ (∀ k, (k < Z.to_nat l)%nat →
           data r !! k = all !! (Z.to_nat ((p - 1) * l) + k)%nat)
      ∧ (pagination_pages r < p → data r = []).
Proof.
  eapply (pages_slice_the_sorted_goals keep_order "u1"
            [("page", JNum 3); ("limit", JNum 2)]).
  - reflexivity.
  - reflexivity.
Defined.

(** *** X28 *)

Lemma count_where_cons (query : Doc → bool) (d : Doc) (l : list Doc) :
  count_where query (d :: l)
  = ((if query d then 1 else 0) + count_where query l)%nat.
Proof.
  unfold count_where. rewrite filter_cons. by destruct (query d).
Qed.

Lemma count_by_status (userId : string) (collection : list Doc) :
  (count_where (λ d, owned_by userId d && has_status Goal.active d) collection
   + count_where (λ d, owned_by userId d && has_status Goal.completed d)
       collection
   + count_where (λ d, owned_by userId d && has_status Goal.paused d)
       collection
   + count_where (λ d, owned_by userId d && has_status Goal.cancelled d)
       collection
   + count_where (λ d, owned_by userId d && has_status Goal.failed d)
       collection)%nat
  = count_where (owned_by userId) collection.
Proof.
  induction collection as [|d l IH]; [done|].
  rewrite !count_where_cons, <- IH. unfold has_status.
  destruct (owned_by userId d), (Goal.status (goal d)); simpl; lia.
Qed.

(** X28. [GET /] answers from the keys [page], [limit], [sort] and
    [fields] of the query alone. The validator drops every other key
    before the route reads [status], [category] and [priority], so these
    filters never apply: [total] is the number of all goals of the user,
    and the five counts of the summary add up to it. *)
Theorem list_route_never_applies_its_filters
    (sort_by : string → list Doc → list Doc) (userId : string)
    (q q' : list (string * Json)) (collection : list Doc) :
  (∀ k, k ∈ ["page"; "limit"; "sort"; "fields"] →
        get_field k q = get_field k q') →
  list_goals sort_by userId q collection
  = list_goals sort_by userId q' collection
  ∧ ∀ r, list_goals sort_by userId q collection = Some r →
      pagination_total r = count_where (owned_by userId) collection
      ∧ (summary_active (summary r) + summary_completed (summary r)
         + summary_paused (summary r) + summary_cancelled (summary r)
         + summary_failed (summary r))%nat
        = pagination_total r.
Proof.
  intros Hkeys.
  assert (Hschema : pagination_schema q = pagination_schema q').
  { unfold pagination_schema, integer_key, string_key.
    rewrite !(Hkeys "page"), !(Hkeys "limit"), !(Hkeys "sort"),
      !(Hkeys "fields"); [done|set_solver..]. }
  split.
  - destruct (pagination_schema q) as [v|] eqn:Hv.
    + destruct (list_goals_answer sort_by userId q v collection Hv)
        as (p & l & s & Hp & Hl & Hs & _ & _ & ->).
      symmetry in Hschema.
      destruct (list_goals_answer sort_by userId q' v collection Hschema)
        as (p' & l' & s' & Hp' & Hl' & Hs' & _ & _ & ->).
      assert (p = p' ∧ l = l' ∧ s = s') as (-> & -> & ->); [|done].
      unfold integer_key, string_key in *.
      rewrite (Hkeys "page") in Hp by set_solver.
      rewrite (Hkeys "limit") in Hl by set_solver.
      rewrite (Hkeys "sort") in Hs by set_solver.
      split; [congruence|]. split; congruence.
    + unfold list_goals. by rewrite Hv, <- Hschema.
  - intros r Hr. destruct (pagination_schema q) as [v|] eqn:Hv.
    + destruct (list_goals_answer sort_by userId q v collection Hv)
        as (p & l & s & _ & _ & _ & _ & _ & Hans).
      rewrite Hans in Hr. injection Hr as <-. simpl.
      split; [done|apply count_by_status].
    + unfold list_goals in Hr. by rewrite Hv in Hr.
Qed.

Lemma list_route_never_applies_its_filters_witness :
  list_goals keep_order "u1"
    [("status", JStr "completed"); ("limit", JNum 2)]
    [stored (with_priority Goal.critical "a") None 5;
     stored (with_priority Goal.medium "b") None 1]
  = list_goals keep_order "u1" [("limit", JNum 2)]
      [stored (with_priority Goal.critical "a") None 5;
       stored (with_priority Goal.medium "b") None 1].
Proof.
  apply (list_route_never_applies_its_filters keep_order "u1"
           [("status", JStr "completed"); ("limit", JNum 2)]
           [("limit", JNum 2)]).
  intros k Hk.
  repeat (apply elem_of_cons in Hk as [->|Hk]; [reflexivity|]).
  by apply elem_of_nil in Hk.
Defined.

(** *** X29 *)

Lemma count_where_le (p q : Doc → bool) (collection : list Doc) :
  (count_where (λ d, p d && q d) collection ≤ count_where p collection)%nat.
Proof.
  induction collection as [|d l IH]; [done|].
  rewrite !count_where_cons. destruct (p d), (q d); simpl; lia.
Qed.

Lemma count_three_statuses (p : Doc → bool) (collection : list Doc) :
  (count_where (λ d, p d && has_status Goal.completed d) collection
   + count_where (λ d, p d && has_status Goal.active d) collection
   + count_where (λ d, p d && has_status Goal.paused d) collection
   ≤ count_where p collection)%nat.
Proof.
  induction collection as [|d l IH]; [done|].
  rewrite !count_where_cons. unfold has_status in *.
  destruct (p d), (Goal.status (goal d)); simpl; lia.
Qed.

(** X29. In [GET /analytics/summary] the completion rate is a whole
    percentage between 0 and 100: 0 when the period holds no goal of the
    user (nothing is divided by zero) and 100 when all its goals are
    completed; the completed, active and paused goals together never
    outnumber the total. A period that is none of 'week', 'quarter' and
    'year' is a month of 30 days. *)
Theorem completion_rate_is_a_percentage (userId : string)
    (period : option string) (now : Z) (collection : list Doc) :
  let a := analytics_summary userId period now collection in
  0 ≤ completionRate a ≤ 100
  ∧ (totalGoals a = 0%nat → completionRate a = 0)
  ∧ ((0 < totalGoals a)%nat → completedGoals a = totalGoals a →
     completionRate a = 100)
  ∧ (completedGoals a + activeGoals a + pausedGoals a ≤ totalGoals a)%nat
  ∧ (period ≠ Some "week" → period ≠ Some "quarter" → period ≠ Some "year" →
     period_start period now = now - 30 * msPerDay).
Proof.
  intros a. subst a. unfold analytics_summary.
  cbn [completionRate totalGoals completedGoals activeGoals pausedGoals].
  split; [|split; [|split; [|split]]];
    [| | |apply (count_three_statuses
                   (λ d, owned_by userId d
                         && (period_start period now <=? createdAt d)))|].
  1-3: pose proof (count_where_le
                     (λ d, owned_by userId d
                           && (period_start period now <=? createdAt d))
                     (has_status Goal.completed) collection) as Hle;
       cbv beta in Hle; revert Hle;
       generalize (count_where
                     (λ d, owned_by userId d
                           && (period_start period now <=? createdAt d)
                           && has_status Goal.completed d) collection)
         as completed;
       generalize (count_where
                     (λ d, owned_by userId d
                           && (period_start period now <=? createdAt d))
                     collection) as total;
       intros total completed Hle.
  - destruct (0 <? total)%nat eqn:E; [|lia].
    apply Nat.ltb_lt in E.
    assert (Ht : (0 < inject_Z (Z.of_nat total))%Q).
    { change 0%Q with (inject_Z 0). rewrite <- Zlt_Qlt. lia. }
    split.
    + apply Math_round_nonneg, ratio_nonneg; [|done].
      change 0%Q with (inject_Z 0). rewrite <- Zle_Qle. lia.
    + rewrite <- (Math_round_Z 100). apply Math_round_mono.
      apply Qle_trans with (inject_Z (Z.of_nat total)
                            / inject_Z (Z.of_nat total) * 100)%Q.
      * apply ratio_mono; [done|]. rewrite <- Zle_Qle. lia.
      * apply Qle_lteq. right. field.
        intros E0. rewrite E0 in Ht. by apply Qlt_irrefl in Ht.
  - intros ->. reflexivity.
  - intros Hpos Heq. apply Nat.ltb_lt in Hpos as Hpos'. rewrite Hpos'.
    rewrite Heq. rewrite <- (Math_round_Z 100) at 2.
    unfold Math_round. apply Qfloor_comp.
    assert (Ht : (0 < inject_Z (Z.of_nat total))%Q).
    { change 0%Q with (inject_Z 0). rewrite <- Zlt_Qlt. lia. }
    field. intros E0. rewrite E0 in Ht. by apply Qlt_irrefl in Ht.
  - intros Hw Hq Hy. unfold period_start.
    change (24 * 60 * 60 * 1000) with msPerDay.
    destruct period as [p|]; [|done].
    destruct (String.eqb_spec p "week") as [->|_]; [done|].
    destruct (String.eqb_spec p "month") as [->|_]; [done|].
    destruct (String.eqb_spec p "quarter") as [->|_]; [done|].
    destruct (String.eqb_spec p "year") as [->|_]; done.
Qed.

Lemma completion_rate_is_a_percentage_witness :
  completionRate (analytics_summary "u1" (Some "fortnight") (day 20) past_due)
  = 20
  ∧ period_start (Some "fortnight") (day 20) = day 20 - 30 * msPerDay.
Proof.
  split; [reflexivity|].
  apply (completion_rate_is_a_percentage "u1" (Some "fortnight") (day 20)
           past_due); discriminate.
Defined.

End QueryFacts.
